(** * Calibration wizard of Spoolman: step formulas, step content state,
      wizard orchestration and the recommended-settings summary.

    Shallow embedding of
      - client/src/pages/calibration/model.ts
      - client/src/pages/calibration/stepConfig.ts
      - wizardCopy.ts (WIZARD_STEP_ORDER)
      - CalibrationWizard.tsx (StepContent and CalibrationWizard)
      - StepResultDrawer.tsx
      - CalibrationSection.tsx (RecommendedSummary, StepList,
        ConfirmDeleteButton)

    JavaScript numbers are IEEE 754 binary64 values. A finite number is
    modelled by its exact rational value, the two infinities by the rationals
    of magnitude [2^1024], and every arithmetic operation rounds its exact
    result to the nearest binary64 number, ties to even, overflowing to an
    infinity. JavaScript objects used as records are finite maps keyed by
    strings. *)

From Stdlib Require Import QArith Qround Qabs Qpower ZArith Lia Lqa.
From stdpp Require Import gmap strings list fin_maps sorting.

Local Open Scope string_scope.

(* ===================================================================== *)
(** ** Numbers *)
(* ===================================================================== *)

(** A JavaScript number: NaN, or [Num q] for the number of value [q]. A [q]
    of magnitude [2^1024] or more stands for [Infinity] or [-Infinity]
    ([2^1024] is where binary64 overflows). The two zeros are one value: the
    sign of a zero shows only in a division by it, and the program divides
    by the constant 100 only. *)
Inductive jsnum : Type :=
  | NaN
  | Num (q : Q).

#[global] Instance Q_eq_dec : EqDecision Q.
Proof. solve_decision. Defined.
#[global] Instance jsnum_eq_dec : EqDecision jsnum.
Proof. solve_decision. Defined.

(** The exponent [k] of a non-zero [q]: [2^k <= |q| < 2^(k+1)]. *)
Definition ilog2 (q : Q) : Z :=
  let k := (Z.log2 (Z.abs (Qnum q)) - Z.log2 (Zpos (Qden q)))%Z in
  if Qle_bool (2 ^ k) (Qabs q) then k else (k - 1)%Z.

(** The integer nearest to [r], the even one of two. *)
Definition rne (r : Q) : Z :=
  let f := Qfloor r in
  match (r - inject_Z f ?= 1 # 2)%Q with
  | Lt => f
  | Gt => (f + 1)%Z
  | Eq => if Z.even f then f else (f + 1)%Z
  end.

Definition Infinity : Q := (2 ^ 1024)%Q.

(** Rounding to binary64: the multiple of the unit in the last place (53
    significant bits, no exponent below -1074) nearest to [x], ties to even;
    an infinity when that multiple is [2^1024] or more in magnitude. The
    result is in lowest terms. *)
Definition round64 (x : Q) : Q :=
  let q := Qred x in
  if Qeq_bool q 0 then 0%Q
  else
    let e := Z.max (ilog2 q - 52) (-1074) in
    let r := (inject_Z (rne (q / 2 ^ e)) * 2 ^ e)%Q in
    if Qle_bool Infinity (Qabs r)
    then (if Qle_bool 0 q then Infinity else - Infinity)%Q
    else Qred r.

Definition infinite (x : Q) : bool := Qle_bool Infinity (Qabs x).
Definition negative (x : Q) : bool := negb (Qle_bool 0 x).
Definition signed_Infinity (neg : bool) : Q :=
  if neg then (- Infinity)%Q else Infinity.

(** [a + b] *)
Definition jadd (a b : jsnum) : jsnum :=
  match a, b with
  | Num x, Num y =>
      if infinite x && infinite y
      then (if Bool.eqb (negative x) (negative y)
            then Num (signed_Infinity (negative x)) else NaN)
      else if infinite x then Num (signed_Infinity (negative x))
      else if infinite y then Num (signed_Infinity (negative y))
      else Num (round64 (x + y))
  | _, _ => NaN
  end.

Definition jneg (a : jsnum) : jsnum :=
  match a with Num x => Num (- x) | NaN => NaN end.

(** [a - b] *)
Definition jsub (a b : jsnum) : jsnum := jadd a (jneg b).

(** [a * b] *)
Definition jmul (a b : jsnum) : jsnum :=
  match a, b with
  | Num x, Num y =>
      if infinite x || infinite y
      then (if Qeq_bool x 0 || Qeq_bool y 0 then NaN
            else Num (signed_Infinity (xorb (negative x) (negative y))))
      else Num (round64 (x * y))
  | _, _ => NaN
  end.

(** [a / b] *)
Definition jdiv (a b : jsnum) : jsnum :=
  match a, b with
  | Num x, Num y =>
      if infinite x
      then (if infinite y then NaN
            else Num (signed_Infinity (xorb (negative x) (negative y))))
      else if infinite y then Num 0
      else if Qeq_bool y 0
      then (if Qeq_bool x 0 then NaN else Num (signed_Infinity (negative x)))
      else Num (round64 (x / y))
  | _, _ => NaN
  end.

Fixpoint pow10 (f : nat) : positive :=
  match f with
  | O => 1%positive
  | S k => (10 * pow10 k)%positive
  end.

(** The text printed by [Number.prototype.toFixed]: ["NaN"], ["Infinity"]
    or ["-Infinity"], the text of [Number::toString] for a number of
    magnitude [10^21] or more, or a sign and the integer [n] of the numeral
    [n / 10^f] written with [f] decimals. *)
Inductive numeral : Type :=
  | NaNText
  | InfinityText (neg : bool)
  | NumberText (x : Q)
  | Decimal (neg : bool) (n : Z) (f : nat).

(** [x.toFixed(f)]: a negative [x] is printed as ["-"] followed by the text
    for [-x]; [n] is the integer for which [n / 10^f - x] is closest to zero,
    the larger one when there are two. *)
Definition toFixed (x : jsnum) (f : nat) : numeral :=
  match x with
  | NaN => NaNText
  | Num q =>
      if infinite q then InfinityText (negative q)
      else if Qle_bool (inject_Z (10 ^ 21)) (Qabs q) then NumberText q
      else Decimal (negative q)
                   (Qfloor (Qabs q * inject_Z (Zpos (pow10 f)) + (1 # 2)))
                   f
  end.

(** [parseFloat(s)] on such a text: the binary64 number nearest to the
    decimal; the text of [Number::toString] reads back as the number it was
    printed from. *)
Definition parseFloat (s : numeral) : jsnum :=
  match s with
  | NaNText => NaN
  | InfinityText neg => Num (signed_Infinity neg)
  | NumberText x => Num (round64 x)
  | Decimal neg n f => Num (round64 ((if neg then - n else n)%Z # pow10 f))
  end.

(** The number written as the decimal [n / 10^f], which is the number an
    input control holds once that decimal has been entered. *)
Definition decimal (n : Z) (f : nat) : Q := round64 (n # pow10 f).

(* ===================================================================== *)
(** ** model.ts *)
(* ===================================================================== *)

Inductive CalibrationStatus : Type :=
  | planned | in_progress | complete | archived.

Inductive CalibrationStepType : Type :=
  | temperature
  | volumetric_speed
  | pressure_advance
  | flow_rate
  | retraction
  | tolerance
  | cornering
  | input_shaping
  | vfa.

#[global] Instance CalibrationStatus_eq_dec : EqDecision CalibrationStatus.
Proof. solve_decision. Defined.
#[global] Instance CalibrationStepType_eq_dec : EqDecision CalibrationStepType.
Proof. solve_decision. Defined.

Definition step_type_code (t : CalibrationStepType) : nat :=
  match t with
  | temperature => 0 | volumetric_speed => 1 | pressure_advance => 2
  | flow_rate => 3 | retraction => 4 | tolerance => 5
  | cornering => 6 | input_shaping => 7 | vfa => 8
  end.

Definition step_type_of_code (n : nat) : option CalibrationStepType :=
  match n with
  | 0 => Some temperature | 1 => Some volumetric_speed
  | 2 => Some pressure_advance | 3 => Some flow_rate
  | 4 => Some retraction | 5 => Some tolerance
  | 6 => Some cornering | 7 => Some input_shaping
  | 8 => Some vfa | _ => None
  end.

#[global] Instance CalibrationStepType_countable : Countable CalibrationStepType.
Proof.
  apply (inj_countable step_type_code step_type_of_code).
  by intros [].
Defined.

(** A value of an [inputs] record as [autoCompute] is typed to receive it:
    [number | null]; an absent key reads as [undefined] ([None] below). *)
Inductive inval : Type :=
  | INull
  | INum (n : jsnum).

(** A value of a result record ([outputs], [selected_values], the form's
    [result]): JSON scalars. *)
Inductive jsval : Type :=
  | JNull
  | JBool (b : bool)
  | JNum (n : jsnum)
  | JStr (s : string).

#[global] Instance inval_eq_dec : EqDecision inval.
Proof. solve_decision. Defined.
#[global] Instance jsval_eq_dec : EqDecision jsval.
Proof. solve_decision. Defined.

Record ICalibrationStepResult : Type := {
  id : nat;
  session_id : nat;
  step_type : CalibrationStepType;
  inputs : option (gmap string inval);
  outputs : option (gmap string jsval);
  selected_values : option (gmap string jsval);
  notes : option string;
  confidence : option string;
  recorded_at : nat;
}.

Record ICalibrationSession : Type := {
  sess_id : nat;
  registered : nat;
  filament_id : nat;
  status : CalibrationStatus;
  started_at : option nat;
  completed_at : option nat;
  printer_name : option string;
  nozzle_diameter : option Q;
  sess_notes : option string;
  steps : list ICalibrationStepResult;
}.

(* ===================================================================== *)
(** ** stepConfig.ts *)
(* ===================================================================== *)

(** [x !== null] on a value read from the inputs record. *)
Definition not_null (v : option inval) : bool :=
  match v with
  | Some INull => false
  | _ => true
  end.

(** [ToNumber]: [undefined] is NaN, [null] is 0. *)
Definition to_number (v : option inval) : jsnum :=
  match v with
  | None => NaN
  | Some INull => Num 0
  | Some (INum n) => n
  end.

Definition isNaN (v : option inval) : bool :=
  match to_number v with
  | NaN => true
  | Num _ => false
  end.

Definition volumetric_speed_autoCompute
    (inputs : gmap string inval) : gmap string jsnum :=
  let start := inputs !! "start_speed" in
  let step := inputs !! "step_size" in
  let h := inputs !! "measured_height" in
  if not_null start && not_null step && not_null h
     && negb (isNaN start) && negb (isNaN step) && negb (isNaN h)
  then {[ "max_volumetric_speed" :=
            parseFloat (toFixed (jadd (to_number start)
                                      (jmul (to_number h) (to_number step))) 2) ]}
  else ∅.

Definition pressure_advance_autoCompute
    (inputs : gmap string inval) : gmap string jsnum :=
  let a := inputs !! "pa_step_a" in
  let b := inputs !! "measured_height_b" in
  if not_null a && not_null b && negb (isNaN a) && negb (isNaN b)
  then {[ "pressure_advance" :=
            parseFloat (toFixed (jmul (to_number a) (to_number b)) 4) ]}
  else ∅.

Definition retraction_autoCompute
    (inputs : gmap string inval) : gmap string jsnum :=
  let start := inputs !! "start_retract" in
  let h := inputs !! "measured_height" in
  let factor := inputs !! "factor" in
  if not_null start && not_null h && not_null factor
     && negb (isNaN start) && negb (isNaN h) && negb (isNaN factor)
  then {[ "retraction_length" :=
            parseFloat (toFixed (jadd (to_number start)
                                      (jmul (to_number h) (to_number factor))) 5) ]}
  else ∅.

Definition tolerance_autoCompute
    (inputs : gmap string inval) : gmap string jsnum :=
  let t := inputs !! "test_size" in
  let m := inputs !! "measured_size" in
  if not_null t && not_null m && negb (isNaN t) && negb (isNaN m)
  then {[ "tolerance_offset" :=
            parseFloat (toFixed (jsub (to_number t) (to_number m)) 3) ]}
  else ∅.

Inductive FieldType : Type := number | select | boolean.

#[global] Instance FieldType_eq_dec : EqDecision FieldType.
Proof. solve_decision. Defined.

(** A field of a step form. The unit, the bounds, step and precision of the
    number control, the options of a select and the layout hint only
    configure the rendered control and are not part of the model; the
    section of a field is the list it is declared in. *)
Record StepField : Type := {
  key : string;
  label : string;
  type : FieldType;
}.

Record StepConfig : Type := {
  inputFields : list StepField;
  outputFields : list StepField;
  recommendedKeys : list string;
  autoCompute : option (gmap string inval -> gmap string jsnum);
}.

Definition num_field (k l : string) : StepField :=
  {| key := k; label := l; type := number |}.
Definition select_field (k l : string) : StepField :=
  {| key := k; label := l; type := select |}.

Definition STEP_CONFIGS (t : CalibrationStepType) : StepConfig :=
  match t with
  | temperature =>
      {| inputFields := [num_field "start_temp" "Start Temp";
                         num_field "end_temp" "End Temp";
                         num_field "step_size" "Step Size"];
         outputFields := [num_field "temperature" "Optimal Temp"];
         recommendedKeys := ["temperature"];
         autoCompute := None |}
  | volumetric_speed =>
      {| inputFields := [num_field "start_speed" "Start Speed";
                         num_field "step_size" "Step Size";
                         num_field "measured_height" "Measured Height"];
         outputFields :=
           [num_field "max_volumetric_speed" "Max Volumetric Speed"];
         recommendedKeys := ["max_volumetric_speed"];
         autoCompute := Some volumetric_speed_autoCompute |}
  | pressure_advance =>
      {| inputFields := [select_field "extruder_type" "Extruder Type";
                         num_field "pa_step_a" "PA Step (A)";
                         num_field "measured_height_b" "Measured Height (B)"];
         outputFields := [num_field "pressure_advance" "PA Value"];
         recommendedKeys := ["pressure_advance"];
         autoCompute := Some pressure_advance_autoCompute |}
  | flow_rate =>
      {| inputFields := [];
         outputFields := [num_field "flow_ratio" "Flow Ratio"];
         recommendedKeys := ["flow_ratio"];
         autoCompute := None |}
  | retraction =>
      {| inputFields := [num_field "start_retract" "Start Retraction";
                         num_field "measured_height" "Measured Height";
                         num_field "factor" "Factor"];
         outputFields :=
           [num_field "retraction_length" "Recommended Retraction"];
         recommendedKeys := ["retraction_length"];
         autoCompute := Some retraction_autoCompute |}
  | tolerance =>
      {| inputFields := [num_field "test_size" "Test Feature Size";
                         num_field "measured_size" "Measured Size"];
         outputFields := [num_field "tolerance_offset" "Tolerance Offset"];
         recommendedKeys := ["tolerance_offset"];
         autoCompute := Some tolerance_autoCompute |}
  | cornering =>
      {| inputFields := [select_field "firmware_type" "Firmware / Feature";
                         num_field "start_value" "Start Value";
                         num_field "end_value" "End Value"];
         outputFields := [num_field "cornering_value" "Recommended Value"];
         recommendedKeys := ["cornering_value"];
         autoCompute := None |}
  | input_shaping =>
      {| inputFields := [select_field "shaper_type" "Shaper Type";
                         num_field "frequency_x" "Resonance Freq X";
                         num_field "frequency_y" "Resonance Freq Y"];
         outputFields := [select_field "shaper_type_x" "X Recommended Shaper";
                          num_field "frequency_x" "Tuned Freq X";
                          select_field "shaper_type_y" "Y Recommended Shaper";
                          num_field "frequency_y" "Tuned Freq Y"];
         recommendedKeys :=
           ["shaper_type_x"; "frequency_x"; "shaper_type_y"; "frequency_y"];
         autoCompute := None |}
  | vfa =>
      {| inputFields := [num_field "start_speed" "Start Speed";
                         num_field "end_speed" "End Speed";
                         num_field "step_size" "Step Size"];
         outputFields := [num_field "min_avoidance_speed" "Min Avoidance Speed";
                          num_field "max_avoidance_speed" "Max Avoidance Speed"];
         recommendedKeys := ["min_avoidance_speed"; "max_avoidance_speed"];
         autoCompute := None |}
  end.

(** [WIZARD_STEP_ORDER] of wizardCopy.ts. *)
Definition WIZARD_STEP_ORDER : list CalibrationStepType :=
  [temperature; volumetric_speed; pressure_advance; flow_rate; retraction;
   tolerance; cornering; input_shaping; vfa].

(* ===================================================================== *)
(** ** The form store shared by the wizard and the drawer *)
(* ===================================================================== *)

(** The values held by the antd form instance. The drawer also registers
    [step_type]; the wizard never sets it. *)
Record FormValues : Type := {
  form_step_type : option CalibrationStepType;
  form_inputs : option (gmap string inval);
  form_result : option (gmap string jsval);
  form_notes : option string;
  form_confidence : option string;
}.

(** [form.resetFields()]: no field has an initial value. *)
Definition resetFields : FormValues :=
  {| form_step_type := None; form_inputs := None; form_result := None;
     form_notes := None; form_confidence := None |}.

(** [form.setFieldsValue(values)]: the given values are merged into the
    store. Every call site resets the store first. *)
Definition setFieldsValue (values store : FormValues) : FormValues :=
  {| form_step_type := form_step_type values ∪ form_step_type store;
     form_inputs := union_with (fun a b => Some (a ∪ b))
                      (form_inputs values) (form_inputs store);
     form_result := union_with (fun a b => Some (a ∪ b))
                      (form_result values) (form_result store);
     form_notes := form_notes values ∪ form_notes store;
     form_confidence := form_confidence values ∪ form_confidence store |}.

(** [form.setFieldValue("result", r)] *)
Definition setFieldValue_result
    (r : gmap string jsval) (form : FormValues) : FormValues :=
  {| form_step_type := form_step_type form; form_inputs := form_inputs form;
     form_result := Some r;
     form_notes := form_notes form; form_confidence := form_confidence form |}.

(** A number input bound to [inputs.key] reports a change. *)
Definition setFieldValue_input
    (k : string) (v : inval) (form : FormValues) : FormValues :=
  {| form_step_type := form_step_type form;
     form_inputs := Some (<[k := v]> (default ∅ (form_inputs form)));
     form_result := form_result form;
     form_notes := form_notes form; form_confidence := form_confidence form |}.

Definition setFieldValue_notes
    (v : option string) (form : FormValues) : FormValues :=
  {| form_step_type := form_step_type form; form_inputs := form_inputs form;
     form_result := form_result form;
     form_notes := v; form_confidence := form_confidence form |}.

Definition setFieldValue_confidence
    (v : option string) (form : FormValues) : FormValues :=
  {| form_step_type := form_step_type form; form_inputs := form_inputs form;
     form_result := form_result form;
     form_notes := form_notes form; form_confidence := v |}.

(* ===================================================================== *)
(** ** StepContent (CalibrationWizard.tsx) *)
(* ===================================================================== *)

Inductive FlowCalcMethod : Type := yolo | legacy.
Inductive FlowCalcPhase : Type := idle | pass1 | pass2.
Inductive PaMethod : Type := tower | pattern.

#[global] Instance FlowCalcMethod_eq_dec : EqDecision FlowCalcMethod.
Proof. solve_decision. Defined.
#[global] Instance FlowCalcPhase_eq_dec : EqDecision FlowCalcPhase.
Proof. solve_decision. Defined.
#[global] Instance PaMethod_eq_dec : EqDecision PaMethod.
Proof. solve_decision. Defined.

(** The component state of StepContent; a calculator field is
    [number | null] ([None] is [null]). The artifact speeds are numbers that
    passed the [isNaN] guard of [addArtifactSpeed]. *)
Record StepContentState : Type := {
  flowCalcMethod : FlowCalcMethod;
  flowCalcPhase : FlowCalcPhase;
  yoloFlowRatioOld : option jsnum;
  yoloModifier : option jsnum;
  pass1FlowRatio : option jsnum;
  pass1Modifier : option jsnum;
  pass2FlowRatio : option jsnum;
  pass2Modifier : option jsnum;
  artifactSpeeds : list Q;
  newArtifactSpeed : option jsnum;
  paMethod : PaMethod;
}.

Definition initialStepContent : StepContentState :=
  {| flowCalcMethod := yolo; flowCalcPhase := idle;
     yoloFlowRatioOld := Some (Num 1); yoloModifier := None;
     pass1FlowRatio := Some (Num 1); pass1Modifier := None;
     pass2FlowRatio := None; pass2Modifier := None;
     artifactSpeeds := []; newArtifactSpeed := None;
     paMethod := tower |}.

Definition resetFlowCalcState (s : StepContentState) : StepContentState :=
  {| flowCalcMethod := flowCalcMethod s; flowCalcPhase := idle;
     yoloFlowRatioOld := Some (Num 1); yoloModifier := None;
     pass1FlowRatio := Some (Num 1); pass1Modifier := None;
     pass2FlowRatio := None; pass2Modifier := None;
     artifactSpeeds := artifactSpeeds s;
     newArtifactSpeed := newArtifactSpeed s;
     paMethod := paMethod s |}.

Definition handleFlowMethodChange
    (val : FlowCalcMethod) (s : StepContentState) : StepContentState :=
  resetFlowCalcState
    {| flowCalcMethod := val; flowCalcPhase := flowCalcPhase s;
       yoloFlowRatioOld := yoloFlowRatioOld s; yoloModifier := yoloModifier s;
       pass1FlowRatio := pass1FlowRatio s; pass1Modifier := pass1Modifier s;
       pass2FlowRatio := pass2FlowRatio s; pass2Modifier := pass2Modifier s;
       artifactSpeeds := artifactSpeeds s;
       newArtifactSpeed := newArtifactSpeed s;
       paMethod := paMethod s |}.

(** The effect on [stepType]: everything back to its initial value. *)
Definition resetOnStepType (s : StepContentState) : StepContentState :=
  initialStepContent.

(** [v !== null], [isNaN(v)] and the number read from a calculator field. *)
Definition calc_not_null (v : option jsnum) : bool :=
  match v with None => false | Some _ => true end.

Definition calc_number (v : option jsnum) : jsnum :=
  match v with None => Num 0 | Some n => n end.

Definition calc_isNaN (v : option jsnum) : bool :=
  match calc_number v with NaN => true | Num _ => false end.

Definition yoloResult (s : StepContentState) : option jsnum :=
  if calc_not_null (yoloFlowRatioOld s) && calc_not_null (yoloModifier s)
     && negb (calc_isNaN (yoloFlowRatioOld s))
     && negb (calc_isNaN (yoloModifier s))
  then Some (parseFloat (toFixed (jadd (calc_number (yoloFlowRatioOld s))
                                       (calc_number (yoloModifier s))) 5))
  else None.

Definition pass1Result (s : StepContentState) : option jsnum :=
  if calc_not_null (pass1FlowRatio s) && calc_not_null (pass1Modifier s)
     && negb (calc_isNaN (pass1FlowRatio s))
     && negb (calc_isNaN (pass1Modifier s))
  then Some (parseFloat (toFixed
               (jdiv (jmul (calc_number (pass1FlowRatio s))
                           (jadd (Num 100) (calc_number (pass1Modifier s))))
                     (Num 100)) 5))
  else None.

Definition pass2Result (s : StepContentState) : option jsnum :=
  if calc_not_null (pass2FlowRatio s) && calc_not_null (pass2Modifier s)
     && negb (calc_isNaN (pass2FlowRatio s))
     && negb (calc_isNaN (pass2Modifier s))
  then Some (parseFloat (toFixed
               (jdiv (jmul (calc_number (pass2FlowRatio s))
                           (jadd (Num 100) (calc_number (pass2Modifier s))))
                     (Num 100)) 5))
  else None.

Definition applyFlowCalc
    (s : StepContentState) (form : FormValues)
    : StepContentState * FormValues :=
  let finalRatio :=
    match flowCalcMethod s with
    | yolo => yoloResult s
    | legacy => match pass2Result s with
                | Some r => Some r
                | None => pass1Result s
                end
    end in
  (resetFlowCalcState s,
   match finalRatio with
   | Some r =>
       let current := default ∅ (form_result form) in
       setFieldValue_result (<["flow_ratio" := JNum r]> current) form
   | None => form
   end).

(** The effect on [inputValues] and [paMethod]. *)
Definition autoComputeEffect
    (stepType : CalibrationStepType) (method : PaMethod)
    (form : FormValues) : FormValues :=
  match autoCompute (STEP_CONFIGS stepType), form_inputs form with
  | Some f, Some inputValues =>
      if bool_decide (stepType = pressure_advance)
         && bool_decide (method = pattern)
      then form
      else
        let computed := f inputValues in
        if (0 <? size computed)%nat
        then
          let current := default ∅ (form_result form) in
          setFieldValue_result ((JNum <$> computed) ∪ current) form
        else form
  | _, _ => form
  end.

(** [Math.min(...xs)] and [Math.max(...xs)] on a list with head [x]. *)
Definition qmin (a b : Q) : Q := if Qle_bool a b then a else b.
Definition qmax (a b : Q) : Q := if Qle_bool a b then b else a.
Definition Math_min (x : Q) (xs : list Q) : Q := foldl qmin x xs.
Definition Math_max (x : Q) (xs : list Q) : Q := foldl qmax x xs.

(** The effect on [artifactSpeeds]. *)
Definition vfaEffect
    (stepType : CalibrationStepType) (speeds : list Q)
    (form : FormValues) : FormValues :=
  if bool_decide (stepType ≠ vfa) then form
  else
    let current := default ∅ (form_result form) in
    match speeds with
    | [] =>
        setFieldValue_result
          (<["max_avoidance_speed" := JNull]>
             (<["min_avoidance_speed" := JNull]> current)) form
    | x :: xs =>
        setFieldValue_result
          (<["max_avoidance_speed" := JNum (Num (Math_max x xs))]>
             (<["min_avoidance_speed" := JNum (Num (Math_min x xs))]> current))
          form
    end.

(** [xs.sort((a, b) => a - b)]: stable, ascending. *)
Fixpoint insert_asc (v : Q) (xs : list Q) : list Q :=
  match xs with
  | [] => [v]
  | x :: rest => if Qle_bool x v then x :: insert_asc v rest else v :: x :: rest
  end.

Definition sort_asc (xs : list Q) : list Q :=
  foldl (fun acc v => insert_asc v acc) [] xs.

Definition set_artifactSpeeds
    (speeds : list Q) (new : option jsnum)
    (s : StepContentState) : StepContentState :=
  {| flowCalcMethod := flowCalcMethod s; flowCalcPhase := flowCalcPhase s;
     yoloFlowRatioOld := yoloFlowRatioOld s; yoloModifier := yoloModifier s;
     pass1FlowRatio := pass1FlowRatio s; pass1Modifier := pass1Modifier s;
     pass2FlowRatio := pass2FlowRatio s; pass2Modifier := pass2Modifier s;
     artifactSpeeds := speeds; newArtifactSpeed := new;
     paMethod := paMethod s |}.

Definition set_paMethod
    (m : PaMethod) (s : StepContentState) : StepContentState :=
  {| flowCalcMethod := flowCalcMethod s; flowCalcPhase := flowCalcPhase s;
     yoloFlowRatioOld := yoloFlowRatioOld s; yoloModifier := yoloModifier s;
     pass1FlowRatio := pass1FlowRatio s; pass1Modifier := pass1Modifier s;
     pass2FlowRatio := pass2FlowRatio s; pass2Modifier := pass2Modifier s;
     artifactSpeeds := artifactSpeeds s;
     newArtifactSpeed := newArtifactSpeed s;
     paMethod := m |}.

(** [addArtifactSpeed]: [None] when the guard returns early (no state
    change, hence no effect run). *)
Definition addArtifactSpeed (s : StepContentState) : option StepContentState :=
  match newArtifactSpeed s with
  | None | Some NaN => None
  | Some (Num v) =>
      Some (set_artifactSpeeds (sort_asc (artifactSpeeds s ++ [v])) None s)
  end.

(** [removeArtifactSpeed(idx)]: the entries whose index differs from [idx]. *)
Definition removeArtifactSpeed
    (idx : nat) (s : StepContentState) : StepContentState :=
  set_artifactSpeeds (delete idx (artifactSpeeds s)) (newArtifactSpeed s) s.

(** [handlePaMethodChange], followed by the auto-compute effect that the
    changed [paMethod] triggers. *)
Definition handlePaMethodChange
    (stepType : CalibrationStepType) (val : PaMethod)
    (s : StepContentState) (form : FormValues)
    : StepContentState * FormValues :=
  (set_paMethod val s,
   autoComputeEffect stepType val (setFieldValue_result ∅ form)).

Definition set_flow
    (phase : FlowCalcPhase)
    (yo ym p1r p1m p2r p2m : option jsnum)
    (s : StepContentState) : StepContentState :=
  {| flowCalcMethod := flowCalcMethod s; flowCalcPhase := phase;
     yoloFlowRatioOld := yo; yoloModifier := ym;
     pass1FlowRatio := p1r; pass1Modifier := p1m;
     pass2FlowRatio := p2r; pass2Modifier := p2m;
     artifactSpeeds := artifactSpeeds s;
     newArtifactSpeed := newArtifactSpeed s;
     paMethod := paMethod s |}.

(** What the user can do inside StepContent. *)
Inductive ContentEvent : Type :=
  | InputChange (k : string) (v : inval)
  | ResultChange (k : string) (v : jsval)
  | NotesChange (v : option string)
  | ConfidenceChange (v : option string)
  | FlowMethodChange (val : FlowCalcMethod)
  | FlowStart
  | YoloFlowRatioOldChange (v : option jsnum)
  | YoloModifierChange (v : option jsnum)
  | YoloCancel
  | Pass1FlowRatioChange (v : option jsnum)
  | Pass1ModifierChange (v : option jsnum)
  | Pass1Cancel
  | Pass1Next
  | Pass2FlowRatioChange (v : option jsnum)
  | Pass2ModifierChange (v : option jsnum)
  | Pass2Back
  | FlowApply
  | PaMethodChange (val : PaMethod)
  | NewArtifactSpeedChange (v : option jsnum)
  | AddArtifactSpeed
  | RemoveArtifactSpeed (idx : nat).

Definition is_Some_b {A} (o : option A) : bool :=
  match o with Some _ => true | None => false end.

(** One event of StepContent with the effects it triggers. An event whose
    control is not rendered or is disabled for the current step type and
    calculator phase leaves everything as it is. *)
Definition content_step
    (stepType : CalibrationStepType) (e : ContentEvent)
    (st : StepContentState * FormValues) : StepContentState * FormValues :=
  let '(s, form) := st in
  let flow := bool_decide (stepType = flow_rate) in
  let in_phase p := flow && bool_decide (flowCalcPhase s = p) in
  let is_method m := bool_decide (flowCalcMethod s = m) in
  match e with
  | InputChange k v =>
      if bool_decide (k ∈ key <$> filter (fun f => type f = number)
                                         (inputFields (STEP_CONFIGS stepType)))
         && negb (bool_decide (stepType = pressure_advance)
                  && bool_decide (paMethod s = pattern))
      then (s, autoComputeEffect stepType (paMethod s)
                 (setFieldValue_input k v form))
      else st
  | ResultChange k v =>
      if bool_decide (k ∈ key <$> outputFields (STEP_CONFIGS stepType))
      then (s, setFieldValue_result
                 (<[k := v]> (default ∅ (form_result form))) form)
      else st
  | NotesChange v => (s, setFieldValue_notes v form)
  | ConfidenceChange v => (s, setFieldValue_confidence v form)
  | FlowMethodChange val =>
      if in_phase idle then (handleFlowMethodChange val s, form) else st
  | FlowStart =>
      if in_phase idle
      then (set_flow pass1 (yoloFlowRatioOld s) (yoloModifier s)
              (pass1FlowRatio s) (pass1Modifier s)
              (pass2FlowRatio s) (pass2Modifier s) s, form)
      else st
  | YoloFlowRatioOldChange v =>
      if in_phase pass1 && is_method yolo
      then (set_flow pass1 v (yoloModifier s)
              (pass1FlowRatio s) (pass1Modifier s)
              (pass2FlowRatio s) (pass2Modifier s) s, form)
      else st
  | YoloModifierChange v =>
      if in_phase pass1 && is_method yolo
      then (set_flow pass1 (yoloFlowRatioOld s) v
              (pass1FlowRatio s) (pass1Modifier s)
              (pass2FlowRatio s) (pass2Modifier s) s, form)
      else st
  | YoloCancel =>
      if in_phase pass1 && is_method yolo
      then (set_flow idle (Some (Num 1)) None
              (pass1FlowRatio s) (pass1Modifier s)
              (pass2FlowRatio s) (pass2Modifier s) s, form)
      else st
  | Pass1FlowRatioChange v =>
      if in_phase pass1 && is_method legacy
      then (set_flow pass1 (yoloFlowRatioOld s) (yoloModifier s)
              v (pass1Modifier s)
              (pass2FlowRatio s) (pass2Modifier s) s, form)
      else st
  | Pass1ModifierChange v =>
      if in_phase pass1 && is_method legacy
      then (set_flow pass1 (yoloFlowRatioOld s) (yoloModifier s)
              (pass1FlowRatio s) v
              (pass2FlowRatio s) (pass2Modifier s) s, form)
      else st
  | Pass1Cancel =>
      if in_phase pass1 && is_method legacy
      then (set_flow idle (yoloFlowRatioOld s) (yoloModifier s)
              (Some (Num 1)) None
              (pass2FlowRatio s) (pass2Modifier s) s, form)
      else st
  | Pass1Next =>
      if in_phase pass1 && is_method legacy && is_Some_b (pass1Result s)
      then (set_flow pass2 (yoloFlowRatioOld s) (yoloModifier s)
              (pass1FlowRatio s) (pass1Modifier s)
              (pass1Result s) (pass2Modifier s) s, form)
      else st
  | Pass2FlowRatioChange v =>
      if in_phase pass2
      then (set_flow pass2 (yoloFlowRatioOld s) (yoloModifier s)
              (pass1FlowRatio s) (pass1Modifier s)
              v (pass2Modifier s) s, form)
      else st
  | Pass2ModifierChange v =>
      if in_phase pass2
      then (set_flow pass2 (yoloFlowRatioOld s) (yoloModifier s)
              (pass1FlowRatio s) (pass1Modifier s)
              (pass2FlowRatio s) v s, form)
      else st
  | Pass2Back =>
      if in_phase pass2
      then (set_flow pass1 (yoloFlowRatioOld s) (yoloModifier s)
              (pass1FlowRatio s) (pass1Modifier s)
              (pass2FlowRatio s) None s, form)
      else st
  | FlowApply =>
      if (in_phase pass1 && is_method yolo && is_Some_b (yoloResult s))
         || (in_phase pass2 && is_Some_b (pass2Result s))
      then applyFlowCalc s form
      else st
  | PaMethodChange val =>
      if bool_decide (stepType = pressure_advance)
         && negb (bool_decide (paMethod s = val))
      then handlePaMethodChange stepType val s form
      else st
  | NewArtifactSpeedChange v =>
      if bool_decide (stepType = vfa)
      then (set_artifactSpeeds (artifactSpeeds s) v s, form)
      else st
  | AddArtifactSpeed =>
      if bool_decide (stepType = vfa)
      then match addArtifactSpeed s with
           | Some s' => (s', vfaEffect stepType (artifactSpeeds s') form)
           | None => st
           end
      else st
  | RemoveArtifactSpeed idx =>
      if bool_decide (stepType = vfa)
         && bool_decide (idx < length (artifactSpeeds s))
      then let s' := removeArtifactSpeed idx s in
           (s', vfaEffect stepType (artifactSpeeds s') form)
      else st
  end.

(** StepContent after its [stepType] has been set (mount, or navigation to
    another step): the component state is reset and the effects on the
    restored form values have run. With [changed = false] (navigation to the
    step already shown) only the watched inputs are delivered again. *)
Definition enterStep
    (changed : bool) (nextType : CalibrationStepType)
    (st : StepContentState * FormValues) : StepContentState * FormValues :=
  let '(s, form) := st in
  let s' := if changed then resetOnStepType s else s in
  let form1 := autoComputeEffect nextType (paMethod s') form in
  let form2 := if changed then vfaEffect nextType (artifactSpeeds s') form1
               else form1 in
  (s', form2).

(* ===================================================================== *)
(** ** The resource API the wizard and the drawer call *)
(* ===================================================================== *)

(** The [values] of a create or update request for a step. *)
Record StepValues : Type := {
  v_step_type : option CalibrationStepType;
  v_inputs : option (gmap string inval);
  v_outputs : option (gmap string jsval);
  v_selected_values : option (gmap string jsval);
  v_notes : option string;
  v_confidence : option string;
}.

(** Modelled from the spec: the REST backend is not part of the client
    sources. It holds the session with its steps; [create(step, ...)] stores
    the submitted values as a new step of the session (with a fresh id and
    the time of the request), [update(session, id, {status})] replaces the
    status. *)
Record Backend : Type := {
  db_session : ICalibrationSession;
  db_clock : nat;
}.

Definition with_steps_status
    (l : list ICalibrationStepResult) (st : CalibrationStatus)
    (s : ICalibrationSession) : ICalibrationSession :=
  {| sess_id := sess_id s; registered := registered s;
     filament_id := filament_id s; status := st;
     started_at := started_at s; completed_at := completed_at s;
     printer_name := printer_name s; nozzle_diameter := nozzle_diameter s;
     sess_notes := sess_notes s; steps := l |}.

Definition db_newStep
    (t : CalibrationStepType) (values : StepValues) (db : Backend)
    : ICalibrationStepResult :=
  {| id := db_clock db; session_id := sess_id (db_session db); step_type := t;
     inputs := v_inputs values; outputs := v_outputs values;
     selected_values := v_selected_values values;
     notes := v_notes values; confidence := v_confidence values;
     recorded_at := db_clock db |}.

Definition db_createStep
    (t : CalibrationStepType) (values : StepValues) (db : Backend) : Backend :=
  let s := db_session db in
  {| db_session :=
       with_steps_status (steps s ++ [db_newStep t values db]) (status s) s;
     db_clock := S (db_clock db) |}.

Definition db_updateStatus (st : CalibrationStatus) (db : Backend) : Backend :=
  {| db_session := with_steps_status (steps (db_session db)) st (db_session db);
     db_clock := S (db_clock db) |}.

(* ===================================================================== *)
(** ** CalibrationWizard (CalibrationWizard.tsx) *)
(* ===================================================================== *)

(** The sentinel [{ _skipped: true }]. *)
Definition SKIPPED : gmap string jsval := {[ "_skipped" := JBool true ]}.

(** [arr.findIndex(p)], [-1] when no element satisfies [p]. *)
Fixpoint findIndex_from {A} (p : A -> bool) (l : list A) (i : Z) : Z :=
  match l with
  | [] => (-1)%Z
  | x :: rest => if p x then i else findIndex_from p rest (i + 1)%Z
  end.

Definition findIndex {A} (p : A -> bool) (l : list A) : Z :=
  findIndex_from p l 0%Z.

(** The wizard component with the backend it talks to. [session] is the
    prop the component was mounted with; it is not refreshed while the
    wizard is open. [savedValues] is the cache keyed by step type;
    [savedUndefined] is its entry under the key ["undefined"], which
    [navigateTo] reads and writes for an index outside the step order.
    Requests are atomic: a request and its [onSuccess] callback complete
    before the next user action. *)
Record Wizard : Type := {
  wopen : bool;
  session : ICalibrationSession;
  currentIdx : nat;
  doneTypes : gset CalibrationStepType;
  savedValues : gmap CalibrationStepType FormValues;
  savedUndefined : option FormValues;
  form : FormValues;
  content : StepContentState;
  backend : Backend;
}.

Definition with_nav
    (idx : nat) (saved : gmap CalibrationStepType FormValues)
    (undef : option FormValues)
    (st : StepContentState * FormValues) (w : Wizard) : Wizard :=
  {| wopen := wopen w; session := session w; currentIdx := idx;
     doneTypes := doneTypes w; savedValues := saved; savedUndefined := undef;
     form := st.2; content := st.1; backend := backend w |}.

Definition with_content
    (st : StepContentState * FormValues) (w : Wizard) : Wizard :=
  with_nav (currentIdx w) (savedValues w) (savedUndefined w) st w.

Definition with_created
    (t : CalibrationStepType) (values : StepValues) (w : Wizard) : Wizard :=
  {| wopen := wopen w; session := session w; currentIdx := currentIdx w;
     doneTypes := {[ t ]} ∪ doneTypes w; savedValues := savedValues w;
     savedUndefined := savedUndefined w;
     form := form w; content := content w;
     backend := db_createStep t values (backend w) |}.

Definition with_closed (db : Backend) (w : Wizard) : Wizard :=
  {| wopen := false; session := session w; currentIdx := currentIdx w;
     doneTypes := doneTypes w; savedValues := savedValues w;
     savedUndefined := savedUndefined w;
     form := form w; content := content w; backend := db |}.

(** The value cached per step type by the open effect. *)
Definition savedValues_of_step (step : ICalibrationStepResult) : FormValues :=
  {| form_step_type := None;
     form_inputs := Some (default ∅ (inputs step));
     form_result :=
       Some (match selected_values step with
             | Some sv => sv
             | None => default ∅ (outputs step)
             end);
     form_notes := notes step;
     form_confidence := confidence step |}.

Definition session_doneTypes
    (s : ICalibrationSession) : gset CalibrationStepType :=
  list_to_set (step_type <$> steps s).

Definition session_savedValues
    (s : ICalibrationSession) : gmap CalibrationStepType FormValues :=
  foldl (fun acc step => <[step_type step := savedValues_of_step step]> acc)
        ∅ (steps s).

Definition startIdx (done : gset CalibrationStepType) : nat :=
  let firstPending :=
    findIndex (fun st => negb (bool_decide (st ∈ done))) WIZARD_STEP_ORDER in
  if (0 <=? firstPending)%Z then Z.to_nat firstPending else 0.

(** Mounting the wizard for [s]: the initial component state followed by the
    effect on [open]. *)
Definition mount (s : ICalibrationSession) (clock : nat) : Wizard :=
  let done := session_doneTypes s in
  let saved := session_savedValues s in
  let idx := startIdx done in
  let restored :=
    match WIZARD_STEP_ORDER !! idx with
    | Some startType =>
        let form0 := match saved !! startType with
                     | Some v => setFieldsValue v resetFields
                     | None => resetFields
                     end in
        enterStep true startType (initialStepContent, form0)
    | None => (initialStepContent, resetFields)
    end in
  {| wopen := true; session := s; currentIdx := idx;
     doneTypes := done; savedValues := saved; savedUndefined := None;
     form := restored.2; content := restored.1;
     backend := {| db_session := s; db_clock := clock |} |}.

(** [savedValues.current[stepType]] for the step type found at an index:
    outside the step order the type is [undefined] and the key
    ["undefined"]. *)
Definition saved_lookup
    (stepType : option CalibrationStepType)
    (saved : gmap CalibrationStepType FormValues) (undef : option FormValues)
    : option FormValues :=
  match stepType with
  | Some t => saved !! t
  | None => undef
  end.

(** [navigateTo(newIdx)]: the form is cached under the current step type,
    reset, restored from the cache entry of the next step type, and the
    index is set, whatever [newIdx] is. For an index of the step order
    StepContent is then rendered for the next step type; for any other index
    its rendering throws ([WIZARD_COPY[stepType]] is [undefined]) and the
    component state stays as it was. *)
Definition navigateTo (newIdx : nat) (w : Wizard) : Wizard :=
  let stepType := WIZARD_STEP_ORDER !! currentIdx w in
  let nextType := WIZARD_STEP_ORDER !! newIdx in
  let saved := match stepType with
               | Some t => <[t := form w]> (savedValues w)
               | None => savedValues w
               end in
  let undef := match stepType with
               | Some _ => savedUndefined w
               | None => Some (form w)
               end in
  let form0 := match saved_lookup nextType saved undef with
               | Some v => setFieldsValue v resetFields
               | None => resetFields
               end in
  with_nav newIdx saved undef
    match nextType with
    | Some t =>
        enterStep (negb (bool_decide (stepType = Some t))) t (content w, form0)
    | None => (content w, form0)
    end w.

Definition currentStepType (w : Wizard) : option CalibrationStepType :=
  WIZARD_STEP_ORDER !! currentIdx w.

Definition isFirst (w : Wizard) : bool := bool_decide (currentIdx w = 0).
Definition isLast (w : Wizard) : bool :=
  bool_decide (currentIdx w = length WIZARD_STEP_ORDER - 1).
Definition isCurrentDone (w : Wizard) : bool :=
  match currentStepType w with
  | Some t => bool_decide (t ∈ doneTypes w)
  | None => false
  end.

(** The values submitted by [saveCurrentStep]. *)
Definition saveCurrentStep_values
    (t : CalibrationStepType) (values : FormValues) : StepValues :=
  let result := form_result values in
  {| v_step_type := Some t;
     v_inputs := form_inputs values;
     v_outputs := result;
     v_selected_values := result;
     v_notes := form_notes values;
     v_confidence := form_confidence values |}.

(** The values submitted by [handleSaveAsSkipped]. *)
Definition saveAsSkipped_values (t : CalibrationStepType) : StepValues :=
  {| v_step_type := Some t;
     v_inputs := None;
     v_outputs := Some SKIPPED;
     v_selected_values := None;
     v_notes := None;
     v_confidence := None |}.

(** [saveCurrentStep(onDone)]; [created] tells whether the request
    succeeded. *)
Definition saveCurrentStep
    (created : bool) (onDone : Wizard -> Wizard) (w : Wizard) : Wizard :=
  match currentStepType w with
  | Some t =>
      if created
      then onDone (with_created t (saveCurrentStep_values t (form w)) w)
      else w
  | None => w
  end.

(** [markComplete]; on success [onComplete] unmounts the wizard. *)
Definition markComplete (updated : bool) (w : Wizard) : Wizard :=
  if updated then with_closed (db_updateStatus complete (backend w)) w else w.

(** [handleSkip]; [confirmed] is the answer to the confirmation dialog shown
    on the last step. *)
Definition handleSkip (confirmed updated : bool) (w : Wizard) : Wizard :=
  if isLast w
  then (if confirmed then markComplete updated w else w)
  else navigateTo (currentIdx w + 1) w.

Definition handleSaveAndContinue
    (created updated : bool) (w : Wizard) : Wizard :=
  if isLast w
  then saveCurrentStep created (markComplete updated) w
  else saveCurrentStep created (navigateTo (currentIdx w + 1)) w.

Definition handleSaveAsSkipped
    (created updated : bool) (w : Wizard) : Wizard :=
  match currentStepType w with
  | Some t =>
      if created
      then
        let w' := with_created t (saveAsSkipped_values t) w in
        if isLast w then markComplete updated w'
        else navigateTo (currentIdx w + 1) w'
      else w
  | None => w
  end.

Inductive WizardAction : Type :=
  | SidebarClick (idx : nat)
  | Back
  | Skip (confirmed updated : bool)
  | SaveAndContinue (created updated : bool)
  | SkipNotApplicable (created updated : bool)
  | Close
  | Content (e : ContentEvent).

(** One user action on the open wizard. The sidebar renders one entry per
    step of the order, so a click names an index inside it (a click on any
    other index does not exist and is modelled as no action); the
    skip-as-not-applicable button is rendered by StepContent for
    [input_shaping] only; Back is disabled on the first step. *)
Definition wizard_step (a : WizardAction) (w : Wizard) : Wizard :=
  if negb (wopen w) then w
  else
    match a with
    | SidebarClick idx =>
        if bool_decide (idx < length WIZARD_STEP_ORDER) then navigateTo idx w
        else w
    | Back => if isFirst w then w else navigateTo (currentIdx w - 1) w
    | Skip confirmed updated => handleSkip confirmed updated w
    | SaveAndContinue created updated =>
        handleSaveAndContinue created updated w
    | SkipNotApplicable created updated =>
        if bool_decide (currentStepType w = Some input_shaping)
        then handleSaveAsSkipped created updated w
        else w
    | Close => with_closed (backend w) w
    | Content e =>
        match currentStepType w with
        | Some t => with_content (content_step t e (content w, form w)) w
        | None => w
        end
    end.

Definition run_wizard (l : list WizardAction) (w : Wizard) : Wizard :=
  foldl (fun acc a => wizard_step a acc) w l.

(** The sidebar entry of [stepType] at position [idx]. *)
Definition sidebar_isDone (w : Wizard) (stepType : CalibrationStepType) : bool :=
  bool_decide (stepType ∈ doneTypes w).

Definition sidebar_shows_check
    (w : Wizard) (idx : nat) (stepType : CalibrationStepType) : bool :=
  sidebar_isDone w stepType && negb (bool_decide (idx = currentIdx w)).

(* ===================================================================== *)
(** ** StepResultDrawer (StepResultDrawer.tsx) *)
(* ===================================================================== *)

(** The drawer mirrors StepContent: its calculator state, [yoloResult],
    [pass1Result], [pass2Result], [applyFlowCalc], [addArtifactSpeed] and
    [removeArtifactSpeed] are the definitions above. Its step type is the
    watched form field and may still be unset. *)
Definition drawer_autoComputeEffect
    (stepType : option CalibrationStepType) (method : PaMethod)
    (form : FormValues) : FormValues :=
  match stepType with
  | Some t => autoComputeEffect t method form
  | None => form
  end.

Definition drawer_vfaEffect
    (stepType : option CalibrationStepType) (speeds : list Q)
    (form : FormValues) : FormValues :=
  match stepType with
  | Some t => vfaEffect t speeds form
  | None => form
  end.

(** The values set by the effect on [open] when a step is edited. *)
Definition drawer_initial_values (step : ICalibrationStepResult) : FormValues :=
  {| form_step_type := Some (step_type step);
     form_inputs := Some (default ∅ (inputs step));
     form_result :=
       Some (match selected_values step with
             | Some sv => sv
             | None => default ∅ (outputs step)
             end);
     form_notes := notes step;
     form_confidence := confidence step |}.

(** The method the effect on [open] sets for an edited step, inferred from
    its saved inputs. It does not last: see [drawer_open]. *)
Definition drawer_inferred_paMethod (step : ICalibrationStepResult) : PaMethod :=
  if bool_decide (step_type step = pressure_advance)
  then
    let hasTowerInputs :=
      match inputs step with
      | Some i => is_Some_b (i !! "pa_step_a")
                  || is_Some_b (i !! "measured_height_b")
      | None => false
      end in
    if hasTowerInputs then tower else pattern
  else tower.

(** The drawer once it has been opened on a stored step and its effects
    have run. The drawer is mounted when it opens, with the watched
    [step_type] still unset. The effect on [open] fills the form and sets
    the inferred method; the form then delivers the step type, and the
    effect on [stepType] resets the whole component state, the method
    included; the auto-compute effect and the VFA effect run on the values
    of the form, as they do in StepContent after a change of step. *)
Definition drawer_open
    (step : ICalibrationStepResult) : StepContentState * FormValues :=
  enterStep true (step_type step)
    (set_paMethod (drawer_inferred_paMethod step) initialStepContent,
     drawer_initial_values step).

(** The values [form.submit] passes to [onFinish]: those of the fields that
    are registered, which are [step_type], [notes] and [confidence] and, once
    a step type is chosen, one field per output field of the type and, unless
    the input section is hidden, one per input field. Values held by the
    store under other keys are left out. *)
Definition registered_fields
    {A} (fields : list StepField) (m : option (gmap string A)) : gmap string A :=
  filter (fun kv => kv.1 ∈ key <$> fields) (default ∅ m).

Definition inputs_rendered (t : CalibrationStepType) (method : PaMethod) : bool :=
  (0 <? length (inputFields (STEP_CONFIGS t)))%nat
  && negb (bool_decide (t = pressure_advance) && bool_decide (method = pattern)).

Definition registered_values
    (method : PaMethod) (store : FormValues) : FormValues :=
  match form_step_type store with
  | Some t =>
      {| form_step_type := Some t;
         form_inputs :=
           if inputs_rendered t method
           then Some (registered_fields (inputFields (STEP_CONFIGS t))
                                 (form_inputs store))
           else None;
         form_result :=
           Some (registered_fields (outputFields (STEP_CONFIGS t))
                                   (form_result store));
         form_notes := form_notes store;
         form_confidence := form_confidence store |}
  | None =>
      {| form_step_type := None; form_inputs := None; form_result := None;
         form_notes := form_notes store;
         form_confidence := form_confidence store |}
  end.

(** The payload built by [onFinish(values)], for both the create and the
    update request. *)
Definition onFinish_payload (values : FormValues) : StepValues :=
  {| v_step_type := form_step_type values;
     v_inputs := form_inputs values;
     v_outputs := form_result values;
     v_selected_values := form_result values;
     v_notes := form_notes values;
     v_confidence := form_confidence values |}.

Inductive DrawerRequest : Type :=
  | CreateStepRequest (sessionId : nat) (payload : StepValues)
  | UpdateStepRequest (stepId : nat) (payload : StepValues).

Definition onFinish
    (sessionId : nat) (step : option ICalibrationStepResult)
    (values : FormValues) : DrawerRequest :=
  match step with
  | None => CreateStepRequest sessionId (onFinish_payload values)
  | Some st => UpdateStepRequest (id st) (onFinish_payload values)
  end.

(** The Save button of the drawer, [form.submit]: the rule on [step_type]
    rejects a form without a step type; otherwise [onFinish] receives the
    values of the registered fields. *)
Definition drawer_submit
    (sessionId : nat) (step : option ICalibrationStepResult)
    (method : PaMethod) (store : FormValues) : option DrawerRequest :=
  match form_step_type store with
  | Some _ => Some (onFinish sessionId step (registered_values method store))
  | None => None
  end.

(* ===================================================================== *)
(** ** CalibrationSection.tsx: StepList and RecommendedSummary *)
(* ===================================================================== *)

(** [m && Object.keys(m).length > 0] *)
Definition has_keys (m : option (gmap string jsval)) : bool :=
  match m with
  | Some o => (0 <? size o)%nat
  | None => false
  end.

Definition isSkipped (step : ICalibrationStepResult) : bool :=
  match outputs step with
  | Some o => bool_decide (o !! "_skipped" = Some (JBool true))
  | None => false
  end.

Definition hasRecommended (step : ICalibrationStepResult) : bool :=
  negb (isSkipped step) && has_keys (selected_values step).

Definition isIncomplete (step : ICalibrationStepResult) : bool :=
  negb (isSkipped step) && negb (hasRecommended step).

Inductive StepTag : Type := TagSkipped | TagDone | TagIncomplete.

#[global] Instance StepTag_eq_dec : EqDecision StepTag.
Proof. solve_decision. Defined.

(** The status tags StepList renders for a step, in order. *)
Definition step_tags (step : ICalibrationStepResult) : list StepTag :=
  (if isSkipped step then [TagSkipped] else [])
  ++ (if hasRecommended step then [TagDone] else [])
  ++ (if isIncomplete step then [TagIncomplete] else []).

(** [latestByType] of RecommendedSummary: the sessions are walked in
    reverse, every step with a non-empty [selected_values] overwrites the
    entry of its type. *)
Definition latestByType_step
    (acc : gmap CalibrationStepType ICalibrationStepResult)
    (step : ICalibrationStepResult)
    : gmap CalibrationStepType ICalibrationStepResult :=
  if has_keys (selected_values step)
  then <[step_type step := step]> acc
  else acc.

Definition latestByType
    (sessions : list ICalibrationSession)
    : gmap CalibrationStepType ICalibrationStepResult :=
  foldl (fun acc sess => foldl latestByType_step acc (steps sess))
        ∅ (reverse sessions).

(** One entry of [vals]: key, label and the selected value (the text shown
    for the value, with its unit or option label, is not modelled). *)
Record RecommendedValue : Type := {
  rv_key : string;
  rv_label : string;
  rv_value : jsval;
}.

(** [config.outputFields.find((f) => f.key === k)?.label ?? k] *)
Definition field_label (config : StepConfig) (k : string) : string :=
  match find (fun f => bool_decide (key f = k)) (outputFields config) with
  | Some f => label f
  | None => k
  end.

(** [vals]: the recommended keys whose selected value is neither
    [undefined] nor [null]. *)
Definition recommended_vals
    (stepType : CalibrationStepType) (step : ICalibrationStepResult)
    : list RecommendedValue :=
  let config := STEP_CONFIGS stepType in
  omap (fun k =>
          match selected_values step ≫= (.!! k) with
          | None | Some JNull => None
          | Some v => Some {| rv_key := k; rv_label := field_label config k;
                              rv_value := v |}
          end)
       (recommendedKeys config).

(** The tile of the summary card for [stepType], if one is rendered. *)
Definition summary_tile
    (sessions : list ICalibrationSession) (stepType : CalibrationStepType)
    : option (list RecommendedValue) :=
  match latestByType sessions !! stepType with
  | Some step =>
      match recommended_vals stepType step with
      | [] => None
      | vals => Some vals
      end
  | None => None
  end.

(** [hasRecommendedData] of CalibrationSection: the card is shown at all. *)
Definition hasRecommendedData (sessions : list ICalibrationSession) : bool :=
  existsb (fun s => existsb (fun step => has_keys (selected_values step))
                            (steps s)) sessions.

(* ===================================================================== *)
(** ** Notions used to state the properties *)
(* ===================================================================== *)

(** [r] is [x] rounded to [f] decimal places: a multiple of [10^-f] at
    distance at most half a unit of the last place from [x]. *)
Definition rounded_to (f : nat) (x r : Q) : Prop :=
  (exists n : Z, r == n # pow10 f)%Q /\ (Qabs (r - x) <= 1 # (2 * pow10 f))%Q.

(** The input keys read by the formula of a step type. *)
Definition formula_inputs (t : CalibrationStepType) : list string :=
  match t with
  | volumetric_speed => ["start_speed"; "step_size"; "measured_height"]
  | pressure_advance => ["pa_step_a"; "measured_height_b"]
  | retraction => ["start_retract"; "measured_height"; "factor"]
  | tolerance => ["test_size"; "measured_size"]
  | _ => []
  end.

(** The input [k] is present and numeric: neither [undefined], [null] nor
    NaN. *)
Definition numeric_input (inputs : gmap string inval) (k : string) : Prop :=
  exists q, inputs !! k = Some (INum (Num q)).

#[global] Instance numeric_input_dec
    (inputs : gmap string inval) (k : string) :
  Decision (numeric_input inputs k).
Proof.
  unfold numeric_input.
  destruct (inputs !! k) as [[|[|q]]|];
    [right | right | left; by exists q | right]; intros [? ?]; discriminate.
Defined.

(** [form.result?.[k]] *)
Definition result_lookup (form : FormValues) (k : string) : option jsval :=
  form_result form ≫= (.!! k).

(** The step surfaced for a type as the specification words it: the
    sessions are searched most recent first, the steps of a session from its
    last to its first, for a step of that type with a non-empty
    [selected_values]. *)
Definition qualifies
    (t : CalibrationStepType) (step : ICalibrationStepResult) : bool :=
  bool_decide (step_type step = t) && has_keys (selected_values step).

Fixpoint most_recent_selected
    (t : CalibrationStepType) (sessions : list ICalibrationSession)
    : option ICalibrationStepResult :=
  match sessions with
  | [] => None
  | sess :: older =>
      match find (qualifies t) (reverse (steps sess)) with
      | Some step => Some step
      | None => most_recent_selected t older
      end
  end.

(** The steps of all sessions in the order in which the summary walks
    them, and the condition that this order is the order of creation: the
    recording times increase along the walk. *)
Definition chronological
    (sessions : list ICalibrationSession) : list ICalibrationStepResult :=
  reverse sessions ≫= steps.

Definition created_in_order (sessions : list ICalibrationSession) : Prop :=
  StronglySorted (fun a b => recorded_at a < recorded_at b)
                 (chronological sessions).

(** [step] is the most recently created step of type [t] with a non-empty
    [selected_values] among the steps of [sessions]. *)
Definition most_recently_created
    (t : CalibrationStepType) (sessions : list ICalibrationSession)
    (step : ICalibrationStepResult) : Prop :=
  (exists sess, sess ∈ sessions /\ step ∈ steps sess) /\
  qualifies t step = true /\
  forall sess other,
    sess ∈ sessions -> other ∈ steps sess -> qualifies t other = true ->
    other = step \/ recorded_at other < recorded_at step.

(** The value a step selected for the key [k], when there is one: neither
    [undefined] nor [null]. *)
Definition selected_value
    (step : ICalibrationStepResult) (k : string) : option jsval :=
  match selected_values step ≫= (.!! k) with
  | Some JNull => None
  | v => v
  end.

(** A session without the steps whose [selected_values] is absent or
    empty. *)
Definition without_unselected (sess : ICalibrationSession) : ICalibrationSession :=
  with_steps_status
    (filter (fun step => has_keys (selected_values step) = true) (steps sess))
    (status sess) sess.

(** The invariant of a skipped step as the specification states it. *)
Definition skipped_without_selected_values
    (step : ICalibrationStepResult) : Prop :=
  outputs step = Some SKIPPED ->
  selected_values step = None \/ selected_values step = Some ∅.

(** The step types with a persisted step among [l]. *)
Definition has_step_of_type
    (l : list ICalibrationStepResult) (t : CalibrationStepType) : Prop :=
  exists step, step ∈ l /\ step_type step = t.

(** The status and the steps stored for the session the wizard works on. *)
Definition stored_status (w : Wizard) : CalibrationStatus :=
  status (db_session (backend w)).

Definition stored_steps (w : Wizard) : list ICalibrationStepResult :=
  steps (db_session (backend w)).

(** The done-set of the wizard agrees with the steps stored for the
    session. *)
Definition done_matches_persisted (w : Wizard) : Prop :=
  forall t, t ∈ doneTypes w <-> has_step_of_type (stored_steps w) t.

(** The steps stored after an action: unchanged, or one step appended for the
    current step type, holding either the saved form values or the skip
    record. *)
Inductive stores : Wizard -> Wizard -> Prop :=
  | stores_nothing w w' :
      doneTypes w' = doneTypes w ->
      stored_steps w' = stored_steps w ->
      stores w w'
  | stores_step w w' t values :
      currentStepType w = Some t ->
      values = saveCurrentStep_values t (form w)
      \/ (t = input_shaping /\ values = saveAsSkipped_values t) ->
      doneTypes w' = {[ t ]} ∪ doneTypes w ->
      stored_steps w'
      = (stored_steps w ++ [db_newStep t values (backend w)])%list ->
      stores w w'.

(** Concrete sessions and states used as examples. *)
Definition example_step
    (i : nat) (t : CalibrationStepType)
    (o sv : option (gmap string jsval)) : ICalibrationStepResult :=
  {| id := i; session_id := 1; step_type := t; inputs := None;
     outputs := o; selected_values := sv; notes := None; confidence := None;
     recorded_at := i |}.

Definition example_session
    (i : nat) (l : list ICalibrationStepResult) : ICalibrationSession :=
  {| sess_id := i; registered := i; filament_id := 1; status := in_progress;
     started_at := None; completed_at := None; printer_name := None;
     nozzle_diameter := None; sess_notes := None; steps := l |}.

Definition example_inputs : gmap string inval :=
  <["start_speed" := INum (Num 5)]>
    (<["step_size" := INum (Num (1 # 2))]>
       (<["measured_height" := INum (Num (decimal 123 1))]> ∅)).

Definition example_form (i : gmap string inval) : FormValues :=
  {| form_step_type := None; form_inputs := Some i;
     form_result := Some {[ "max_volumetric_speed" := JNum (Num 7) ]};
     form_notes := None; form_confidence := None |}.

(** A pressure-advance form filled in with the tower method. *)
Definition example_tower_form : FormValues :=
  {| form_step_type := None;
     form_inputs :=
       Some (<["pa_step_a" := INum (Num (decimal 2 3))]>
               (<["measured_height_b" := INum (Num 10)]> ∅));
     form_result := Some {[ "pressure_advance" := JNum (Num (decimal 2 2)) ]};
     form_notes := None; form_confidence := None |}.

Definition example_legacy_pass : StepContentState :=
  set_flow pass1 (Some (Num 1)) None
    (Some (Num 1)) (Some (Num (decimal (-25) 1)))
    (Some (Num 1)) (Some (Num (decimal (-25) 1)))
    (handleFlowMethodChange legacy initialStepContent).

(** A session with a temperature and a flow-rate step, both done. *)
Definition example_resume_session : ICalibrationSession :=
  example_session 1
    [example_step 1 temperature
       (Some {[ "temperature" := JNum (Num 215) ]})
       (Some {[ "temperature" := JNum (Num 215) ]});
     example_step 2 flow_rate
       (Some {[ "flow_ratio" := JNum (Num (decimal 98 2)) ]})
       (Some {[ "flow_ratio" := JNum (Num (decimal 98 2)) ]})].

(** A wizard on its last step (VFA), reached through the sidebar. *)
Definition example_last_step : Wizard :=
  run_wizard [SidebarClick 8] (mount (example_session 1 []) 0).

(** In a fresh session the input-shaping step is skipped as not applicable
    and the wizard is closed; the wizard is then opened again on the stored
    session, the step is revisited through the sidebar and saved. *)
Definition example_skip_then_close : Wizard :=
  run_wizard [SidebarClick 7; SkipNotApplicable true true; Close]
             (mount (example_session 1 []) 0).

Definition example_revisit_and_save : Wizard :=
  run_wizard [SidebarClick 7; SaveAndContinue true true]
             (mount (db_session (backend example_skip_then_close))
                    (db_clock (backend example_skip_then_close))).

(** Two sessions of one filament, the newer one first. *)
Definition example_newer : ICalibrationSession :=
  example_session 2
    [example_step 3 temperature
       (Some {[ "temperature" := JNum (Num 220) ]})
       (Some {[ "temperature" := JNum (Num 220) ]});
     example_step 4 input_shaping (Some SKIPPED) None].

Definition example_older : ICalibrationSession :=
  example_session 1
    [example_step 1 temperature
       (Some {[ "temperature" := JNum (Num 210) ]})
       (Some {[ "temperature" := JNum (Num 210) ]});
     example_step 2 input_shaping
       (Some {[ "frequency_x" := JNum (Num 40) ]})
       (Some {[ "frequency_x" := JNum (Num 40) ]})].

(** The older session after a temperature step was added to it through the
    drawer, once the newer session had recorded its own. *)
Definition example_older_extended : ICalibrationSession :=
  example_session 1
    [example_step 1 temperature
       (Some {[ "temperature" := JNum (Num 210) ]})
       (Some {[ "temperature" := JNum (Num 210) ]});
     example_step 5 temperature
       (Some {[ "temperature" := JNum (Num 230) ]})
       (Some {[ "temperature" := JNum (Num 230) ]})].

(* ===================================================================== *)
(** ** CalibrationSection.tsx: ConfirmDeleteButton *)
(* ===================================================================== *)

(** The state of ConfirmDeleteButton: the [confirming] flag and whether the
    timeout stored in [timerRef] is still pending. *)
Record ConfirmDeleteState : Type := {
  confirming : bool;
  timer_pending : bool;
}.

Inductive ConfirmDeleteEvent : Type :=
  | ButtonClick
  | TimerExpires.

#[global] Instance ConfirmDeleteEvent_eq_dec : EqDecision ConfirmDeleteEvent.
Proof. solve_decision. Defined.

Definition confirmDelete_initial : ConfirmDeleteState :=
  {| confirming := false; timer_pending := false |}.

(** One event of the button; the boolean tells whether [onConfirm] was
    called. [handleClick] arms the button with a timeout, or clears the
    timeout, disarms and confirms; the timeout disarms. *)
Definition confirmDelete_step
    (e : ConfirmDeleteEvent) (s : ConfirmDeleteState)
    : ConfirmDeleteState * bool :=
  match e with
  | ButtonClick =>
      if negb (confirming s)
      then ({| confirming := true; timer_pending := true |}, false)
      else ({| confirming := false; timer_pending := false |}, true)
  | TimerExpires =>
      if timer_pending s
      then ({| confirming := false; timer_pending := false |}, false)
      else (s, false)
  end.

(** A run of the button: the final state and the number of [onConfirm]
    calls. *)
Definition confirmDelete_run
    (l : list ConfirmDeleteEvent) (s : ConfirmDeleteState)
    : ConfirmDeleteState * nat :=
  foldl (fun acc e =>
           let '(s', fired) := confirmDelete_step e acc.1 in
           (s', if fired then S acc.2 else acc.2))
        (s, 0) l.

Definition clicks (l : list ConfirmDeleteEvent) : nat :=
  length (filter (fun e => e = ButtonClick) l).

(* ===================================================================== *)
(** ** Further notions used to state properties *)
(* ===================================================================== *)

(** [x] has at most [f] decimals. *)
Definition has_decimals (f : nat) (x : Q) : Prop :=
  exists n : Z, (x == n # pow10 f)%Q.

(** The number [v] is [x] rounded to [f] decimal places, as far as a
    JavaScript number can be: the binary64 number nearest to a decimal with
    [f] places at most half a unit of the last place from [x]. *)
Definition rounds_to (f : nat) (x : Q) (v : jsnum) : Prop :=
  exists r, rounded_to f x r /\ v = Num (round64 r).

(** [x] is the number a control of precision [p] holds for the decimal [X]
    of magnitude at most [B]: the binary64 number nearest to it. *)
Definition control_value (p : nat) (B X x : Q) : Prop :=
  has_decimals p X /\ (Qabs X <= B)%Q /\ x = round64 X.

(** [x] is within [e] of [X], whose magnitude is at most [B]. *)
Definition near (B e x X : Q) : Prop :=
  (Qabs (x - X) <= e /\ Qabs X <= B)%Q.

(** The unit roundoff of binary64, half its least positive number, and the
    bound they give on the error of rounding a number of magnitude at most
    [B]. *)
Definition u64 : Q := Eval vm_compute in (2 ^ (-53))%Q.
Definition eta64 : Q := Eval vm_compute in (2 ^ (-1075))%Q.
Definition round_err (B : Q) : Q := (B * u64 + eta64)%Q.


(** The keys of the fields of a list. *)
Definition field_keys (l : list StepField) : list string := key <$> l.

(** The last step of type [t] in a list of steps. *)
Definition last_of_type
    (t : CalibrationStepType) (l : list ICalibrationStepResult)
    : option ICalibrationStepResult :=
  find (fun step => bool_decide (step_type step = t)) (reverse l).

(** A run of StepContent events on one step type. *)
Definition content_run
    (stepType : CalibrationStepType) (l : list ContentEvent)
    (st : StepContentState * FormValues) : StepContentState * FormValues :=
  foldl (fun acc e => content_step stepType e acc) st l.

(** The step types without a formula and without the VFA effect. *)
Definition plain_step (t : CalibrationStepType) : Prop :=
  autoCompute (STEP_CONFIGS t) = None /\ t ≠ vfa.

(** The actions whose create request succeeds. *)
Definition creates_step (a : WizardAction) : bool :=
  match a with
  | SaveAndContinue true _ | SkipNotApplicable true _ => true
  | _ => false
  end.

(** A wizard on the pressure-advance step after the tower inputs were
    entered, the method was switched to "pattern" and a value was typed. *)
Definition example_pattern_wizard : Wizard :=
  run_wizard
    [SidebarClick 2;
     Content (InputChange "pa_step_a" (INum (Num (decimal 2 3))));
     Content (InputChange "measured_height_b" (INum (Num 10)));
     Content (PaMethodChange pattern);
     Content (ResultChange "pressure_advance" (JNum (Num (decimal 5 2))))]
    (mount (example_session 1 []) 0).

(** A legacy calculation ready for its second pass. *)
Definition example_pass1_done : StepContentState :=
  set_flow pass1 (Some (Num 1)) None
    (Some (Num 1)) (Some (Num (decimal (-25) 1))) None None
    (handleFlowMethodChange legacy initialStepContent).

(* ===================================================================== *)
(** ** Rounding to binary64 *)
(* ===================================================================== *)

Ltac qle := apply Qle_bool_imp_le; vm_compute; reflexivity.
Ltac qlt := apply Qlt_alt; vm_compute; reflexivity.

Section Binary64.
Local Open Scope Q_scope.

Lemma rne_error (r : Q) : Qabs (inject_Z (rne r) - r) <= 1 # 2.
Proof.
  unfold rne.
  pose proof (Qfloor_le r) as Hle.
  pose proof (Qlt_floor r) as Hlt.
  rewrite inject_Z_plus in Hlt. change (inject_Z 1) with 1 in Hlt.
  apply Qabs_Qle_condition.
  destruct (r - inject_Z (Qfloor r) ?= 1 # 2) eqn:E.
  - apply Qeq_alt in E.
    destruct (Z.even (Qfloor r));
      rewrite ?inject_Z_plus; change (inject_Z 1) with 1; split; lra.
  - apply Qlt_alt in E. split; lra.
  - apply Qgt_alt in E. rewrite inject_Z_plus. change (inject_Z 1) with 1.
    split; lra.
Qed.

Lemma pow2_pos (e : Z) : 0 < 2 ^ e.
Proof. apply Qpower_0_lt. reflexivity. Qed.

Lemma pow2_plus (a b : Z) : 2 ^ (a + b) == 2 ^ a * 2 ^ b.
Proof. apply Qpower_plus. discriminate. Qed.

Lemma pow2_inject (a : Z) : (0 <= a)%Z -> inject_Z (2 ^ a) == 2 ^ a.
Proof. intros H. by rewrite Zpower_Qpower. Qed.

Lemma Qabs_make (n : Z) (d : positive) :
  Qabs (n # d) == inject_Z (Z.abs n) / inject_Z (Zpos d).
Proof. unfold Qabs. by rewrite Qmake_Qdiv. Qed.

(** [2 ^ ilog2 q] is at most [|q|]. *)
Lemma ilog2_lower (q : Q) : ~ q == 0 -> 2 ^ ilog2 q <= Qabs q.
Proof.
  intros Hq. unfold ilog2.
  set (k := (Z.log2 (Z.abs (Qnum q)) - Z.log2 (Z.pos (Qden q)))%Z).
  destruct (Qle_bool (2 ^ k) (Qabs q)) eqn:E; [by apply Qle_bool_iff|].
  destruct q as [n d]. cbn [Qnum Qden] in k.
  assert (Hn : (0 < Z.abs n)%Z).
  { destruct n; try lia. exfalso. apply Hq. reflexivity. }
  destruct (Z.log2_spec (Z.abs n) Hn) as [Ha _].
  destruct (Z.log2_spec (Z.pos d) (Pos2Z.is_pos d)) as [_ Hb].
  pose proof (Z.log2_nonneg (Z.abs n)) as Ha0.
  pose proof (Z.log2_nonneg (Z.pos d)) as Hb0.
  set (a := Z.log2 (Z.abs n)) in *. set (b := Z.log2 (Z.pos d)) in *.
  replace (k - 1)%Z with (a + - Z.succ b)%Z by (unfold k; lia).
  rewrite pow2_plus, Qpower_opp, <- (pow2_inject a), <- (pow2_inject (Z.succ b))
    by lia.
  rewrite Qabs_make.
  rewrite Zle_Qle in Ha. rewrite Zlt_Qlt in Hb.
  assert (Hd : 0 < inject_Z (Z.pos d)) by (change 0 with (inject_Z 0); rewrite <- Zlt_Qlt; lia).
  assert (Hp : 0 < inject_Z (2 ^ a))
    by (change 0 with (inject_Z 0); rewrite <- Zlt_Qlt;
        apply Z.pow_pos_nonneg; lia).
  assert (Hs : 0 < inject_Z (2 ^ Z.succ b))
    by (change 0 with (inject_Z 0); rewrite <- Zlt_Qlt;
        apply Z.pow_pos_nonneg; lia).
  apply Qle_shift_div_l; [exact Hd|].
  assert (H1 : inject_Z (Z.pos d) / inject_Z (2 ^ Z.succ b) <= 1)
    by (apply Qle_shift_div_r; lra).
  unfold Qdiv in H1.
  remember (/ inject_Z (2 ^ Z.succ b)) as S eqn:ES.
  remember (inject_Z (2 ^ a)) as A eqn:EA.
  remember (inject_Z (Z.abs n)) as N eqn:EN.
  remember (inject_Z (Z.pos d)) as D eqn:ED.
  clear - Ha Hd Hp H1. nra.
Qed.

Lemma half_ulp_bound (q B : Q) :
  ~ q == 0 -> Qabs q <= B ->
  2 ^ Z.max (ilog2 q - 52) (-1074) * (1 # 2) <= round_err B.
Proof.
  intros Hq HB. pose proof (ilog2_lower q Hq) as Hl.
  pose proof (pow2_pos (ilog2 q)) as Hp.
  unfold round_err.
  assert (Hu : 0 < u64) by reflexivity.
  assert (He : 0 < eta64) by reflexivity.
  destruct (Z.max_spec (ilog2 q - 52) (-1074)) as [[_ ->]|[_ ->]].
  - change (2 ^ (-1074) * (1 # 2)) with eta64 at 1.
    assert (0 <= B) by (pose proof (Qabs_nonneg q); lra). nra.
  - replace (ilog2 q - 52)%Z with (ilog2 q + -52)%Z by lia.
    rewrite pow2_plus.
    assert (Hc : 2 ^ (-52) * (1 # 2) == u64) by reflexivity.
    rewrite <- Qmult_assoc, Hc. nra.
Qed.

Lemma Qred_eq (x : Q) : Qred x == x.
Proof. apply Qred_correct. Qed.

(** Rounding to binary64 moves a number of magnitude at most [B] by at most
    [B * 2^-53 + 2^-1075], and does not overflow. *)
Lemma round64_error (x B : Q) :
  Qabs x <= B -> B <= 2 ^ 1000 ->
  Qabs (round64 x - x) <= round_err B.
Proof.
  intros HB Hbig. unfold round64.
  pose proof (Qred_correct x) as Hx.
  assert (HB0 : 0 <= B) by (pose proof (Qabs_nonneg x); lra).
  assert (Hu : 0 < u64) by reflexivity.
  assert (He : 0 < eta64) by reflexivity.
  destruct (Qeq_bool (Qred x) 0) eqn:E0.
  - apply Qeq_bool_iff in E0. rewrite Hx in E0.
    setoid_replace (0 - x) with 0 using relation Qeq by lra.
    unfold round_err. change (Qabs 0) with 0. nra.
  - apply Qeq_bool_neq in E0.
    set (q := Qred x) in *.
    set (e := Z.max (ilog2 q - 52) (-1074)).
    set (r := inject_Z (rne (q / 2 ^ e)) * 2 ^ e).
    assert (HqB : Qabs q <= B) by (rewrite (Qabs_wd _ _ Hx); exact HB).
    pose proof (half_ulp_bound q B E0 HqB) as Hh. fold e in Hh.
    pose proof (pow2_pos e) as Hpe.
    assert (Hr : Qabs (r - q) <= round_err B).
    { setoid_replace (r - q)
      with ((inject_Z (rne (q / 2 ^ e)) - q / 2 ^ e) * 2 ^ e) using relation Qeq
      by (unfold r; field; lra).
      rewrite Qabs_Qmult, (Qabs_pos (2 ^ e)) by lra.
      pose proof (rne_error (q / 2 ^ e)) as Hrne.
      pose proof (Qabs_nonneg (inject_Z (rne (q / 2 ^ e)) - q / 2 ^ e)).
      nra. }
    assert (Hfin : Qle_bool Infinity (Qabs r) = false).
    { apply not_true_is_false. intros H. apply Qle_bool_iff in H.
      pose proof (Qabs_triangle (r - q) q) as Ht.
      setoid_replace (r - q + q) with r using relation Qeq in Ht by ring.
      assert (Hc : round_err B < Infinity - B).
      { unfold round_err.
        assert (Hbig' : 2 ^ 1000 * u64 + eta64 < Infinity - 2 ^ 1000)
          by reflexivity.
        nra. }
      lra. }
    rewrite Hfin.
    assert (Hrx : Qred r - x == r - q) by (rewrite (Qred_correct r), Hx; ring).
    by rewrite (Qabs_wd _ _ Hrx).
Qed.

Lemma round64_Qeq (x y : Q) : x == y -> round64 x = round64 y.
Proof. intros H. unfold round64. by rewrite (Qred_complete x y H). Qed.

End Binary64.

(* ===================================================================== *)
(** ** Rounding to decimals *)
(* ===================================================================== *)

Section Rounding.
Local Open Scope Q_scope.

Lemma Qmake_scale (n : Z) (p : positive) :
  (n # p) * inject_Z (Zpos p) == inject_Z n.
Proof. unfold Qeq, Qmult, inject_Z. simpl. lia. Qed.

Lemma half_ulp (p : positive) : (1 # (2 * p)) * inject_Z (Zpos p) == 1 # 2.
Proof. unfold Qeq, Qmult, inject_Z. simpl. lia. Qed.

Lemma floor_half_bounds (y : Q) :
  inject_Z (Qfloor (y + (1 # 2))) - (1 # 2) <= y /\
  y < inject_Z (Qfloor (y + (1 # 2))) + (1 # 2).
Proof.
  pose proof (Qfloor_le (y + (1 # 2))) as Hle.
  pose proof (Qlt_floor (y + (1 # 2))) as Hlt.
  rewrite inject_Z_plus in Hlt. change (inject_Z 1) with 1%Q in Hlt.
  split; lra.
Qed.

Lemma scaled_close (x : Q) (n : Z) (p : positive) :
  inject_Z n - (1 # 2) <= x * inject_Z (Zpos p) ->
  x * inject_Z (Zpos p) <= inject_Z n + (1 # 2) ->
  Qabs ((n # p) - x) <= 1 # (2 * p).
Proof.
  intros Hlo Hhi.
  assert (Hp : 0 < inject_Z (Zpos p)) by (unfold Qlt, inject_Z; simpl; lia).
  apply Qabs_Qle_condition.
  pose proof (Qmake_scale n p) as Hs.
  pose proof (half_ulp p) as Hh.
  assert (E1 : ((n # p) - x) * inject_Z (Z.pos p)
               == inject_Z n - x * inject_Z (Z.pos p)) by (rewrite <- Hs; ring).
  assert (E2 : - (1 # 2 * p) * inject_Z (Z.pos p) == - (1 # 2))
    by (rewrite <- Hh; ring).
  split.
  - apply (Qmult_le_r _ _ (inject_Z (Zpos p))); [exact Hp|].
    rewrite E1, E2. lra.
  - apply (Qmult_le_r _ _ (inject_Z (Zpos p))); [exact Hp|].
    rewrite E1, Hh. lra.
Qed.

Lemma pow10_plus (a b : nat) : pow10 (a + b) = (pow10 a * pow10 b)%positive.
Proof. induction a as [|a IH]; cbn [pow10 Nat.add]; [lia|]. rewrite IH. lia. Qed.

Lemma inject_pos (p : positive) : 0 < inject_Z (Zpos p).
Proof. change 0 with (inject_Z 0). rewrite <- Zlt_Qlt. lia. Qed.

(** The digits printed by [toFixed] for a number close to a decimal. *)
Lemma toFixed_digits_near (f g : nat) (y F e : Q) :
  (f <= g)%nat -> has_decimals g F ->
  Qabs (y - F) <= e -> e * inject_Z (Zpos (pow10 g)) < 1 # 2 ->
  Qabs ((Qfloor (y * inject_Z (Zpos (pow10 f)) + (1 # 2)) # pow10 f) - F)
  <= 1 # (2 * pow10 f).
Proof.
  intros Hfg [k Hk] Hy He.
  destruct (floor_half_bounds (y * inject_Z (Zpos (pow10 f)))) as [Hlo Hhi].
  set (n := Qfloor (y * inject_Z (Zpos (pow10 f)) + (1 # 2))) in *.
  replace g with (f + (g - f))%nat in * by lia.
  set (P := pow10 f) in *. set (T := pow10 (g - f)) in *.
  rewrite pow10_plus in Hk, He. fold P T in Hk, He.
  apply Qabs_Qle_condition in Hy as [Hy1 Hy2].
  pose proof (inject_pos P) as HP. pose proof (inject_pos T) as HT.
  assert (EF : F == inject_Z k / (inject_Z (Zpos P) * inject_Z (Zpos T))).
  { rewrite Hk, Qmake_Qdiv, Pos2Z.inj_mul, inject_Z_mult. reflexivity. }
  assert (HPT : 0 < inject_Z (Z.pos P) * inject_Z (Z.pos T)) by nra.
  assert (EkF : inject_Z k == F * (inject_Z (Z.pos P) * inject_Z (Z.pos T))).
  { rewrite EF. field. lra. }
  rewrite Pos2Z.inj_mul, inject_Z_mult in He.
  assert (HQ : 2 * (inject_Z n * inject_Z (Zpos T))
               < inject_Z (Zpos T) + 1
                 + 2 * (F * (inject_Z (Z.pos P) * inject_Z (Z.pos T))) /\
               2 * (F * (inject_Z (Z.pos P) * inject_Z (Z.pos T)))
               < inject_Z (Zpos T) + 1
                 + 2 * (inject_Z n * inject_Z (Zpos T))).
  { remember (inject_Z (Z.pos P)) as p. remember (inject_Z (Z.pos T)) as t.
    remember (inject_Z n) as a. clear - Hlo Hhi Hy1 Hy2 He HP HT.
    assert (H1 : (a - (1 # 2)) * t <= y * p * t)
      by (apply Qmult_le_compat_r; [exact Hlo|lra]).
    assert (H2 : y * p * t <= (a + (1 # 2)) * t)
      by (apply Qmult_le_compat_r; [apply Qlt_le_weak, Hhi|lra]).
    assert (Hpt : 0 <= p * t) by (apply Qmult_le_0_compat; lra).
    assert (H3 : (y - F) * (p * t) <= e * (p * t))
      by (apply Qmult_le_compat_r; [exact Hy2|exact Hpt]).
    assert (H4 : - e * (p * t) <= (y - F) * (p * t))
      by (apply Qmult_le_compat_r; [exact Hy1|exact Hpt]).
    assert (E1 : (a - (1 # 2)) * t == a * t - (1 # 2) * t) by ring.
    assert (E2 : (a + (1 # 2)) * t == a * t + (1 # 2) * t) by ring.
    assert (E3 : (y - F) * (p * t) == y * p * t - F * (p * t)) by ring.
    assert (E4 : - e * (p * t) == - (e * (p * t))) by ring.
    rewrite E1 in H1. rewrite E2 in H2. rewrite E3 in H3, H4. rewrite E4 in H4.
    remember (a * t) as at_. remember (y * p * t) as ypt.
    remember (F * (p * t)) as Fpt. remember (e * (p * t)) as ept.
    clear - H1 H2 H3 H4 He. split; lra. }
  destruct HQ as [HQ1 HQ2]. rewrite <- EkF in HQ1, HQ2.
  assert (HZ1 : (2 * (n * Zpos T) < Zpos T + 1 + 2 * k)%Z).
  { rewrite Zlt_Qlt, !inject_Z_plus, !inject_Z_mult. exact HQ1. }
  assert (HZ2 : (2 * k < Zpos T + 1 + 2 * (n * Zpos T))%Z).
  { rewrite Zlt_Qlt, !inject_Z_plus, !inject_Z_mult. exact HQ2. }
  rewrite Hk. apply Qabs_Qle_condition.
  unfold Qle, Qminus, Qplus, Qopp. cbn [Qnum Qden]. split; nia.
Qed.

Lemma infinite_false (x : Q) : Qabs x < Infinity -> infinite x = false.
Proof.
  intros H. unfold infinite. apply not_true_is_false. intros E.
  apply Qle_bool_iff in E. lra.
Qed.

Lemma negative_false (x : Q) : 0 <= x -> negative x = false.
Proof. intros H. unfold negative. apply Qle_bool_iff in H. by rewrite H. Qed.

Lemma negative_true (x : Q) : x < 0 -> negative x = true.
Proof.
  intros H. unfold negative. apply negb_true_iff, not_true_is_false.
  intros E. apply Qle_bool_iff in E. lra.
Qed.

Lemma Qmake_opp (n : Z) (p : positive) : ((- n)%Z # p) == - (n # p).
Proof. reflexivity. Qed.

(** [parseFloat(x.toFixed(f))] for a number [x] close to a decimal [E] with
    [g >= f] places: the binary64 number nearest to a decimal with [f] places
    at most half a unit of the last place from [E]. *)
Lemma parseFloat_toFixed_near (f g : nat) (x E e : Q) :
  (f <= g)%nat -> has_decimals g E ->
  Qabs (x - E) <= e -> e * inject_Z (Zpos (pow10 g)) < 1 # 2 ->
  Qabs x < inject_Z (10 ^ 21) ->
  exists r, parseFloat (toFixed (Num x) f) = Num (round64 r) /\
            rounded_to f E r.
Proof.
  intros Hfg HE Hx He Hbig. unfold toFixed.
  rewrite infinite_false
    by (assert (inject_Z (10 ^ 21) < Infinity) by reflexivity; lra).
  replace (Qle_bool (inject_Z (10 ^ 21)) (Qabs x)) with false
    by (symmetry; apply not_true_is_false; intros H;
        apply Qle_bool_iff in H; lra).
  cbn [parseFloat]. eexists. split; [reflexivity|]. split; [by eexists|].
  destruct (Qlt_le_dec x 0) as [Hneg|Hpos].
  - rewrite (negative_true x Hneg), Qmake_opp, (Qabs_neg x) by lra.
    assert (HE' : has_decimals g (- E)).
    { destruct HE as [k Hk]. exists (- k)%Z. by rewrite Hk. }
    assert (Hx' : Qabs (- x - - E) <= e).
    { assert (Eq : - x - - E == - (x - E)) by ring.
      by rewrite (Qabs_wd _ _ Eq), Qabs_opp. }
    pose proof (toFixed_digits_near f g (- x) (- E) e Hfg HE' Hx' He) as H.
    set (n := Qfloor (- x * inject_Z (Z.pos (pow10 f)) + (1 # 2))) in *.
    assert (Eq : - (n # pow10 f) - E == - ((n # pow10 f) - - E)) by ring.
    by rewrite (Qabs_wd _ _ Eq), Qabs_opp.
  - rewrite (negative_false x Hpos), (Qabs_pos x) by lra.
    by apply (toFixed_digits_near f g x E e).
Qed.

(** A decimal with [f] places rounded to [f] places is itself. *)
Lemma rounded_to_exact (f : nat) (E r : Q) :
  has_decimals f E -> rounded_to f E r -> r == E.
Proof.
  intros [k Hk] [[n Hn] Hd]. rewrite Hn, Hk.
  assert (Eq : r - E == (n - k)%Z # pow10 f).
  { rewrite Hn, Hk. unfold Qeq, Qminus, Qplus, Qopp. cbn [Qnum Qden]. lia. }
  rewrite (Qabs_wd _ _ Eq) in Hd. unfold Qabs, Qle in Hd. cbn [Qnum Qden] in Hd.
  unfold Qeq. cbn [Qnum Qden].
  assert (Z.abs (n - k) = 0)%Z by nia. f_equal. lia.
Qed.

(** [parseFloat(x.toFixed(f))] is [x] rounded to [f] decimals, for every
    number below [10^21] in magnitude. *)
Lemma parseFloat_toFixed_rounds (x : Q) (f : nat) :
  Qabs x < inject_Z (10 ^ 21) ->
  rounds_to f x (parseFloat (toFixed (Num x) f)).
Proof.
  intros Hbig. unfold toFixed.
  rewrite infinite_false
    by (assert (inject_Z (10 ^ 21) < Infinity) by reflexivity; lra).
  replace (Qle_bool (inject_Z (10 ^ 21)) (Qabs x)) with false
    by (symmetry; apply not_true_is_false; intros H;
        apply Qle_bool_iff in H; lra).
  cbn [parseFloat]. eexists. split; [|reflexivity]. split; [by eexists|].
  set (P := inject_Z (Zpos (pow10 f))).
  set (n := Qfloor (Qabs x * P + (1 # 2))).
  destruct (floor_half_bounds (Qabs x * P)) as [Hlo Hhi]. fold n in Hlo, Hhi.
  destruct (Qlt_le_dec x 0) as [Hneg|Hpos].
  - rewrite (negative_true x Hneg). rewrite (Qabs_neg x) in Hlo, Hhi by lra.
    apply scaled_close; fold P; rewrite inject_Z_opp; lra.
  - rewrite (negative_false x Hpos). rewrite (Qabs_pos x Hpos) in Hlo, Hhi.
    apply scaled_close; fold P; lra.
Qed.

End Rounding.

(* ===================================================================== *)
(** ** Error bounds of binary64 arithmetic *)
(* ===================================================================== *)

Section Near.
Local Open Scope Q_scope.

Lemma near_exact (B X : Q) : Qabs X <= B -> near B 0 X X.
Proof.
  intros H. split; [|exact H].
  assert (Eq : X - X == 0) by ring. by rewrite (Qabs_wd _ _ Eq).
Qed.

Lemma near_bound (B e x X : Q) : near B e x X -> Qabs x <= B + e.
Proof.
  intros [H1 H2]. pose proof (Qabs_triangle (x - X) X) as Ht.
  assert (Eq : x - X + X == x) by ring. rewrite (Qabs_wd _ _ Eq) in Ht. lra.
Qed.

Lemma near_nonneg (B e x X : Q) : near B e x X -> 0 <= e /\ 0 <= B.
Proof.
  intros [H1 H2]. pose proof (Qabs_nonneg (x - X)). pose proof (Qabs_nonneg X).
  split; lra.
Qed.

Lemma near_finite (B e x X : Q) :
  near B e x X -> B + e < Infinity -> infinite x = false.
Proof.
  intros H Hb. apply infinite_false. pose proof (near_bound _ _ _ _ H). lra.
Qed.

Lemma near_round64 (B e x X : Q) :
  near B e x X -> B + e <= 2 ^ 1000 ->
  near B (e + round_err (B + e)) (round64 x) X.
Proof.
  intros H Hb. pose proof (near_bound _ _ _ _ H) as Hx.
  pose proof (round64_error x (B + e) Hx Hb) as Hr.
  destruct H as [H1 H2]. split; [|exact H2].
  pose proof (Qabs_triangle (round64 x - x) (x - X)) as Ht.
  assert (Eq : round64 x - x + (x - X) == round64 x - X) by ring.
  rewrite (Qabs_wd _ _ Eq) in Ht. lra.
Qed.

Lemma near_add (B1 e1 x X B2 e2 y Y : Q) :
  near B1 e1 x X -> near B2 e2 y Y ->
  near (B1 + B2) (e1 + e2) (x + y) (X + Y).
Proof.
  intros [H1 H2] [H3 H4]. split.
  - pose proof (Qabs_triangle (x - X) (y - Y)) as Ht.
    assert (Eq : x - X + (y - Y) == x + y - (X + Y)) by ring.
    rewrite (Qabs_wd _ _ Eq) in Ht. lra.
  - pose proof (Qabs_triangle X Y). lra.
Qed.

Lemma near_opp (B e x X : Q) : near B e x X -> near B e (- x) (- X).
Proof.
  intros [H1 H2]. split.
  - assert (Eq : - x - - X == - (x - X)) by ring.
    by rewrite (Qabs_wd _ _ Eq), Qabs_opp.
  - by rewrite Qabs_opp.
Qed.

Lemma near_mul (B1 e1 x X B2 e2 y Y : Q) :
  near B1 e1 x X -> near B2 e2 y Y ->
  near (B1 * B2) (e1 * (B2 + e2) + B1 * e2) (x * y) (X * Y).
Proof.
  intros Hx Hy. pose proof (near_bound _ _ _ _ Hy) as Hyb.
  destruct Hx as [H1 H2], Hy as [H3 H4].
  pose proof (Qabs_nonneg (x - X)). pose proof (Qabs_nonneg X).
  pose proof (Qabs_nonneg y). pose proof (Qabs_nonneg (y - Y)).
  pose proof (Qabs_nonneg Y).
  split.
  - pose proof (Qabs_triangle ((x - X) * y) (X * (y - Y))) as Ht.
    assert (Eq : (x - X) * y + X * (y - Y) == x * y - X * Y) by ring.
    rewrite (Qabs_wd _ _ Eq), !Qabs_Qmult in Ht.
    assert (Ha : Qabs (x - X) * Qabs y <= e1 * (B2 + e2)).
    { apply Qle_trans with (e1 * Qabs y).
      - apply Qmult_le_compat_r; lra.
      - rewrite !(Qmult_comm e1). apply Qmult_le_compat_r; lra. }
    assert (Hb : Qabs X * Qabs (y - Y) <= B1 * e2).
    { apply Qle_trans with (B1 * Qabs (y - Y)).
      - apply Qmult_le_compat_r; lra.
      - rewrite !(Qmult_comm B1). apply Qmult_le_compat_r; lra. }
    lra.
  - rewrite Qabs_Qmult.
    apply Qle_trans with (B1 * Qabs Y).
    + apply Qmult_le_compat_r; lra.
    + rewrite !(Qmult_comm B1). apply Qmult_le_compat_r; lra.
Qed.

Lemma near_div100 (B e x X : Q) :
  near B e x X -> near (B / 100) (e / 100) (x / 100) (X / 100).
Proof.
  intros [H1 H2]. split.
  - assert (Eq : x / 100 - X / 100 == (x - X) * (1 # 100)) by field.
    rewrite (Qabs_wd _ _ Eq), Qabs_Qmult.
    change (Qabs (1 # 100)) with (1 # 100).
    assert (Eq' : e / 100 == e * (1 # 100)) by field. rewrite Eq'.
    apply Qmult_le_compat_r; [exact H1|discriminate].
  - assert (Eq : X / 100 == X * (1 # 100)) by field.
    rewrite (Qabs_wd _ _ Eq), Qabs_Qmult.
    change (Qabs (1 # 100)) with (1 # 100).
    assert (Eq' : B / 100 == B * (1 # 100)) by field. rewrite Eq'.
    apply Qmult_le_compat_r; [exact H2|discriminate].
Qed.

Lemma near_weaken (B e x X B' e' : Q) :
  near B e x X -> B <= B' -> e <= e' -> near B' e' x X.
Proof. intros [H1 H2] HB He. split; lra. Qed.

(** The operations on finite numbers. *)
Lemma jadd_finite (x y : Q) :
  infinite x = false -> infinite y = false ->
  jadd (Num x) (Num y) = Num (round64 (x + y)).
Proof. intros Hx Hy. unfold jadd. by rewrite Hx, Hy. Qed.

Lemma jsub_finite (x y : Q) :
  infinite x = false -> infinite y = false ->
  jsub (Num x) (Num y) = Num (round64 (x - y)).
Proof.
  intros Hx Hy. unfold jsub, jneg, jadd. rewrite Hx.
  replace (infinite (- y)) with false; [done|].
  rewrite <- Hy. unfold infinite. apply Bool.eq_iff_eq_true.
  by rewrite !Qle_bool_iff, Qabs_opp.
Qed.

Lemma jmul_finite (x y : Q) :
  infinite x = false -> infinite y = false ->
  jmul (Num x) (Num y) = Num (round64 (x * y)).
Proof. intros Hx Hy. unfold jmul. by rewrite Hx, Hy. Qed.

Lemma jdiv_100 (x : Q) :
  infinite x = false -> jdiv (Num x) (Num 100) = Num (round64 (x / 100)).
Proof. intros Hx. unfold jdiv. by rewrite Hx. Qed.

Lemma control_near (p : nat) (B X x : Q) :
  control_value p B X x -> B <= 2 ^ 1000 ->
  near B (round_err B) x X.
Proof.
  intros (_ & HB & ->) Hb.
  assert (Hn : near B (0 + round_err (B + 0)) (round64 X) X).
  { apply near_round64; [by apply near_exact|lra]. }
  eapply near_weaken; [exact Hn|lra|].
  unfold round_err. assert (0 < u64) by reflexivity. nra.
Qed.

Lemma has_decimals_plus (f : nat) (x y : Q) :
  has_decimals f x -> has_decimals f y -> has_decimals f (x + y).
Proof.
  intros [n Hn] [m Hm]. exists (n + m)%Z. rewrite Hn, Hm.
  unfold Qeq, Qplus. cbn [Qnum Qden]. lia.
Qed.

Lemma has_decimals_mult (f g : nat) (x y : Q) :
  has_decimals f x -> has_decimals g y -> has_decimals (f + g) (x * y).
Proof.
  intros [n Hn] [m Hm]. exists (n * m)%Z. rewrite Hn, Hm, pow10_plus.
  reflexivity.
Qed.

Lemma has_decimals_S (f : nat) (x : Q) : has_decimals f x -> has_decimals (S f) x.
Proof.
  intros [n Hn]. exists (10 * n)%Z. rewrite Hn. cbn [pow10].
  unfold Qeq. cbn [Qnum Qden]. lia.
Qed.

Lemma has_decimals_minus (f : nat) (x y : Q) :
  has_decimals f x -> has_decimals f y -> has_decimals f (x - y).
Proof.
  intros [n Hn] [m Hm]. exists (n - m)%Z. rewrite Hn, Hm.
  unfold Qeq, Qminus, Qplus, Qopp. cbn [Qnum Qden]. nia.
Qed.

End Near.

(* ===================================================================== *)
(** ** The expressions of the formulas on the values of their controls *)
(* ===================================================================== *)

Section Controls.
Local Open Scope Q_scope.

Lemma has_decimals_inject (n : Z) (f : nat) : has_decimals f (inject_Z n).
Proof.
  exists (n * Zpos (pow10 f))%Z. unfold Qeq, inject_Z. cbn [Qnum Qden]. lia.
Qed.

Lemma rounds_to_exact (f : nat) (E : Q) (v : jsnum) :
  has_decimals f E -> rounds_to f E v -> v = Num (round64 E).
Proof.
  intros HE (r & Hr & ->). f_equal. apply round64_Qeq.
  by apply (rounded_to_exact f).
Qed.

Lemma rounds_to_intro (f : nat) (E r : Q) (v : jsnum) :
  v = Num (round64 r) -> rounded_to f E r -> rounds_to f E v.
Proof. intros -> H. by exists r. Qed.

Ltac finite_ops :=
  repeat first
    [ rewrite jmul_finite by (eapply near_finite; [eassumption|qlt])
    | rewrite jadd_finite by (eapply near_finite; [eassumption|qlt])
    | rewrite jsub_finite by (eapply near_finite; [eassumption|qlt])
    | rewrite jdiv_100 by (eapply near_finite; [eassumption|qlt]) ].

Ltac toFixed_near f g E Nx HE :=
  let r := fresh "r" in
  let Er := fresh "Er" in
  let Hr := fresh "Hr" in
  let Hb := fresh "Hb" in
  destruct (parseFloat_toFixed_near f g _ E _ ltac:(lia) HE (proj1 Nx))
    as (r & Er & Hr);
  [ qlt
  | pose proof (near_bound _ _ _ _ Nx) as Hb;
    eapply Qle_lt_trans; [exact Hb|qlt]
  | exists r; split; [exact Hr|exact Er] ].

(** The volumetric-speed expression on the values of its controls. *)
Lemma volumetric_control (A S H a s h : Q) :
  control_value 1 (inject_Z (10 ^ 6)) A a ->
  control_value 1 (inject_Z (10 ^ 6)) S s ->
  control_value 1 (inject_Z (10 ^ 6)) H h ->
  has_decimals 2 (A + H * S) /\
  rounds_to 2 (A + H * S)
    (parseFloat (toFixed (jadd (Num a) (jmul (Num h) (Num s))) 2)).
Proof.
  intros Ca Cs Ch.
  pose proof (control_near _ _ _ _ Ca ltac:(qle)) as Na.
  pose proof (control_near _ _ _ _ Cs ltac:(qle)) as Ns.
  pose proof (control_near _ _ _ _ Ch ltac:(qle)) as Nh.
  pose proof (near_mul _ _ _ _ _ _ _ _ Nh Ns) as Np.
  pose proof (near_round64 _ _ _ _ Np ltac:(qle)) as Np'.
  pose proof (near_add _ _ _ _ _ _ _ _ Na Np') as Nsum.
  pose proof (near_round64 _ _ _ _ Nsum ltac:(qle)) as Nx.
  finite_ops.
  assert (HE : has_decimals 2 (A + H * S)).
  { apply has_decimals_plus.
    - apply has_decimals_S. by destruct Ca.
    - apply (has_decimals_mult 1 1); [by destruct Ch|by destruct Cs]. }
  split; [exact HE|]. toFixed_near 2%nat 2%nat (A + H * S) Nx HE.
Qed.

(** The pressure-advance product. *)
Lemma pressure_advance_control (A B a b : Q) :
  control_value 4 (inject_Z 1000) A a ->
  control_value 1 (inject_Z (10 ^ 6)) B b ->
  rounds_to 4 (A * B) (parseFloat (toFixed (jmul (Num a) (Num b)) 4)).
Proof.
  intros Ca Cb.
  pose proof (control_near _ _ _ _ Ca ltac:(qle)) as Na.
  pose proof (control_near _ _ _ _ Cb ltac:(qle)) as Nb.
  pose proof (near_mul _ _ _ _ _ _ _ _ Na Nb) as Np.
  pose proof (near_round64 _ _ _ _ Np ltac:(qle)) as Nx.
  finite_ops.
  assert (HE : has_decimals 5 (A * B)).
  { apply (has_decimals_mult 4 1); [by destruct Ca|by destruct Cb]. }
  toFixed_near 4%nat 5%nat (A * B) Nx HE.
Qed.

(** The retraction expression. *)
Lemma retraction_control (S H F s h f : Q) :
  control_value 2 (inject_Z (10 ^ 4)) S s ->
  control_value 1 (inject_Z (10 ^ 4)) H h ->
  control_value 3 (inject_Z (10 ^ 4)) F f ->
  has_decimals 5 (S + H * F) /\
  rounds_to 5 (S + H * F)
    (parseFloat (toFixed (jadd (Num s) (jmul (Num h) (Num f))) 5)).
Proof.
  intros Cs Ch Cf.
  pose proof (control_near _ _ _ _ Cs ltac:(qle)) as Ns.
  pose proof (control_near _ _ _ _ Ch ltac:(qle)) as Nh.
  pose proof (control_near _ _ _ _ Cf ltac:(qle)) as Nf.
  pose proof (near_mul _ _ _ _ _ _ _ _ Nh Nf) as Np.
  pose proof (near_round64 _ _ _ _ Np ltac:(qle)) as Np'.
  pose proof (near_add _ _ _ _ _ _ _ _ Ns Np') as Nsum.
  pose proof (near_round64 _ _ _ _ Nsum ltac:(qle)) as Nx.
  finite_ops.
  assert (HE : has_decimals 5 (S + H * F)).
  { apply has_decimals_plus.
    - do 3 apply has_decimals_S. by destruct Cs.
    - apply has_decimals_S.
      apply (has_decimals_mult 1 3); [by destruct Ch|by destruct Cf]. }
  split; [exact HE|]. toFixed_near 5%nat 5%nat (S + H * F) Nx HE.
Qed.

(** The tolerance difference. *)
Lemma tolerance_control (T M t m : Q) :
  control_value 2 (inject_Z (10 ^ 9)) T t ->
  control_value 3 (inject_Z (10 ^ 9)) M m ->
  has_decimals 3 (T - M) /\
  rounds_to 3 (T - M) (parseFloat (toFixed (jsub (Num t) (Num m)) 3)).
Proof.
  intros Ct Cm.
  pose proof (control_near _ _ _ _ Ct ltac:(qle)) as Nt.
  pose proof (control_near _ _ _ _ Cm ltac:(qle)) as Nm.
  pose proof (near_add _ _ _ _ _ _ _ _ Nt (near_opp _ _ _ _ Nm)) as Nd.
  pose proof (near_round64 _ _ _ _ Nd ltac:(qle)) as Nx.
  finite_ops.
  assert (HE : has_decimals 3 (T - M)).
  { apply has_decimals_minus; [|by destruct Cm].
    apply has_decimals_S. by destruct Ct. }
  split; [exact HE|]. toFixed_near 3%nat 3%nat (T - M) Nx HE.
Qed.

(** The YOLO sum. *)
Lemma yolo_control (O M o m : Q) :
  control_value 5 (inject_Z 1000) O o ->
  control_value 5 (inject_Z 1000) M m ->
  has_decimals 5 (O + M) /\
  rounds_to 5 (O + M) (parseFloat (toFixed (jadd (Num o) (Num m)) 5)).
Proof.
  intros Co Cm.
  pose proof (control_near _ _ _ _ Co ltac:(qle)) as No.
  pose proof (control_near _ _ _ _ Cm ltac:(qle)) as Nm.
  pose proof (near_add _ _ _ _ _ _ _ _ No Nm) as Ns.
  pose proof (near_round64 _ _ _ _ Ns ltac:(qle)) as Nx.
  finite_ops.
  assert (HE : has_decimals 5 (O + M)).
  { apply has_decimals_plus; [by destruct Co|by destruct Cm]. }
  split; [exact HE|]. toFixed_near 5%nat 5%nat (O + M) Nx HE.
Qed.

(** The expression of a Legacy pass. *)
Lemma legacy_control (R M r m : Q) :
  control_value 5 (inject_Z (10 ^ 5)) R r ->
  control_value 1 (inject_Z 1000) M m ->
  rounds_to 5 (R * (100 + M) / 100)
    (parseFloat (toFixed (jdiv (jmul (Num r) (jadd (Num 100) (Num m)))
                               (Num 100)) 5)).
Proof.
  intros Cr Cm.
  pose proof (control_near _ _ _ _ Cr ltac:(qle)) as Nr.
  pose proof (control_near _ _ _ _ Cm ltac:(qle)) as Nm.
  pose proof (near_exact 100 100 ltac:(qle)) as Nc.
  pose proof (near_add _ _ _ _ _ _ _ _ Nc Nm) as Ns.
  pose proof (near_round64 _ _ _ _ Ns ltac:(qle)) as Ns'.
  pose proof (near_mul _ _ _ _ _ _ _ _ Nr Ns') as Np.
  pose proof (near_round64 _ _ _ _ Np ltac:(qle)) as Np'.
  pose proof (near_div100 _ _ _ _ Np') as Nq.
  pose proof (near_round64 _ _ _ _ Nq ltac:(qle)) as Nx.
  rewrite (jadd_finite 100 m)
    by (first [reflexivity | eapply near_finite; [eassumption|qlt]]).
  finite_ops.
  assert (HE : has_decimals 8 (R * (100 + M) / 100)).
  { destruct Cr as ([n Hn] & _), Cm as ([k Hk] & _).
    exists (n * (1000 + k))%Z. rewrite Hn, Hk.
    unfold Qeq, Qdiv, Qmult, Qplus, Qinv. cbn [Qnum Qden pow10]. lia. }
  toFixed_near 5%nat 8%nat (R * (100 + M) / 100) Nx HE.
Qed.

End Controls.

(* ===================================================================== *)
(** ** The auto-compute formulas *)
(* ===================================================================== *)

Ltac split_lookups m :=
  repeat match goal with
         | |- context [m !! ?k] =>
             let E := fresh "E" in
             destruct (m !! k) as [[|[|?]]|] eqn:E
         end.

Lemma numeric_input_inv (inputs : gmap string inval) (k : string) (v : option inval) :
  inputs !! k = v -> numeric_input inputs k ->
  exists q, v = Some (INum (Num q)).
Proof. intros E [q Hq]. exists q. congruence. Qed.

Ltac refute_numeric :=
  match goal with
  | H : Forall (numeric_input _) _ |- _ =>
      repeat (apply Forall_cons_1 in H; destruct H as [? H]);
      repeat match goal with
             | E : ?m !! ?k = _, N : numeric_input ?m ?k |- _ =>
                 destruct (numeric_input_inv _ _ _ E N); discriminate
             end
  end.

Ltac prove_numeric :=
  repeat (apply Forall_cons; split; [eexists; eassumption|]);
  apply Forall_nil_2.

(** A formula returns a non-empty record exactly when every input it reads
    is numeric. *)
Lemma autoCompute_fires (t : CalibrationStepType)
    (f : gmap string inval -> gmap string jsnum) (inputs : gmap string inval) :
  autoCompute (STEP_CONFIGS t) = Some f ->
  (Forall (numeric_input inputs) (formula_inputs t) ->
   exists k v, f inputs = {[ k := v ]}) /\
  (~ Forall (numeric_input inputs) (formula_inputs t) -> f inputs = ∅).
Proof.
  intros Hf.
  destruct t; simpl in Hf; try discriminate; injection Hf as <-;
    unfold volumetric_speed_autoCompute, pressure_advance_autoCompute,
      retraction_autoCompute, tolerance_autoCompute, formula_inputs;
    cbv zeta; split_lookups inputs;
    cbn [not_null isNaN to_number andb negb];
    (split; [intros HF | intros HF]);
    first [ reflexivity
          | by eauto
          | exfalso; refute_numeric
          | exfalso; apply HF; prove_numeric ].
Qed.

Lemma autoComputeEffect_no_inputs
    (t : CalibrationStepType) (method : PaMethod) (form : FormValues) :
  form_inputs form = None -> autoComputeEffect t method form = form.
Proof.
  intros E. unfold autoComputeEffect. rewrite E.
  by destruct (autoCompute (STEP_CONFIGS t)).
Qed.

Lemma autoComputeEffect_empty
    (t : CalibrationStepType) (method : PaMethod) (form : FormValues)
    (f : gmap string inval -> gmap string jsnum) (inputs : gmap string inval) :
  autoCompute (STEP_CONFIGS t) = Some f ->
  form_inputs form = Some inputs ->
  f inputs = ∅ ->
  autoComputeEffect t method form = form.
Proof.
  intros Hf Hi He. unfold autoComputeEffect. rewrite Hf, Hi, He.
  rewrite map_size_empty. cbn [Nat.ltb Nat.leb].
  by destruct (_ && _).
Qed.

Lemma vfaEffect_empty_nulls (form : FormValues) :
  result_lookup (vfaEffect vfa [] form) "min_avoidance_speed" = Some JNull /\
  result_lookup (vfaEffect vfa [] form) "max_avoidance_speed" = Some JNull.
Proof.
  unfold vfaEffect, result_lookup. rewrite bool_decide_eq_false_2 by naive_solver.
  cbn [setFieldValue_result form_result mbind option_bind].
  split.
  - rewrite lookup_insert_ne by done. apply lookup_insert_eq.
  - apply lookup_insert_eq.
Qed.

Lemma vfaEffect_other_keys (speeds : list Q) (form : FormValues) (k : string) :
  k ≠ "min_avoidance_speed" -> k ≠ "max_avoidance_speed" ->
  result_lookup (vfaEffect vfa speeds form) k = result_lookup form k.
Proof.
  intros H1 H2. unfold vfaEffect, result_lookup.
  rewrite bool_decide_eq_false_2 by naive_solver.
  destruct speeds; cbn [setFieldValue_result form_result mbind option_bind];
    rewrite !lookup_insert_ne by done;
    by destruct (form_result form).
Qed.

(** C2: a formula produces an update exactly when all the inputs it reads
    are present and numeric; otherwise the auto-compute effect leaves the
    whole form, and so every output value, as it is. The VFA effect is the
    one that clears: on an empty artifact-speed list both of its outputs
    become [null] (the other result fields stay). *)
Theorem autoCompute_contract
    (t : CalibrationStepType)
    (f : gmap string inval -> gmap string jsnum)
    (inputs : gmap string inval) :
  autoCompute (STEP_CONFIGS t) = Some f ->
  (f inputs ≠ ∅ <-> Forall (numeric_input inputs) (formula_inputs t)) /\
  (forall method form,
      form_inputs form = Some inputs ->
      ~ Forall (numeric_input inputs) (formula_inputs t) ->
      autoComputeEffect t method form = form) /\
  (forall method form,
      form_inputs form = None -> autoComputeEffect t method form = form) /\
  (forall form,
      result_lookup (vfaEffect vfa [] form) "min_avoidance_speed" = Some JNull /\
      result_lookup (vfaEffect vfa [] form) "max_avoidance_speed" = Some JNull /\
      forall k, k ≠ "min_avoidance_speed" -> k ≠ "max_avoidance_speed" ->
                result_lookup (vfaEffect vfa [] form) k = result_lookup form k).
Proof.
  intros Hf. destruct (autoCompute_fires t f inputs Hf) as [Hyes Hno].
  repeat split.
  - intros Hne.
    destruct (decide (Forall (numeric_input inputs) (formula_inputs t)))
      as [|Hn]; [done|].
    by apply Hno in Hn.
  - intros HF. destruct (Hyes HF) as (k & v & ->).
    apply map_non_empty_singleton.
  - intros method form Hi Hn. eapply autoComputeEffect_empty; eauto.
  - intros method form Hi. by apply autoComputeEffect_no_inputs.
  - apply vfaEffect_empty_nulls.
  - apply vfaEffect_empty_nulls.
  - intros k H1 H2. by apply vfaEffect_other_keys.
Qed.

Lemma autoCompute_contract_witness :
  volumetric_speed_autoCompute example_inputs ≠ ∅ <->
  Forall (numeric_input example_inputs) (formula_inputs volumetric_speed).
Proof.
  exact (proj1 (autoCompute_contract volumetric_speed
                  volumetric_speed_autoCompute example_inputs eq_refl)).
Defined.




(* ===================================================================== *)
(** ** The flow-rate calculator *)
(* ===================================================================== *)

(** C9: in the Legacy method a pass with a numeric flow ratio and percentage
    modifier has a result, [ratio * (100 + modifier) / 100] as binary64
    arithmetic evaluates it, rounded to 5 decimals. For a flow ratio and a
    modifier as the calculator can hold them (decimals with 5 places and
    1 place, of magnitude at most 10^5 and 1000; the controls allow 0.1 to 2
    and -50 to 50, and pass 2 is seeded with a pass-1 result) the result is
    the exact value of the expression rounded to 5 decimals: ratio 1.0 with
    modifier -2.5 gives 0.975. The result is [null] when either input is
    [null] or NaN. Both passes, in the wizard and in the drawer, use these
    definitions. *)
Theorem legacy_pass_result (s : StepContentState) :
  (forall ratio modifier : Q,
      pass1FlowRatio s = Some (Num ratio) ->
      pass1Modifier s = Some (Num modifier) ->
      exists v,
        pass1Result s = Some v /\
        (forall x,
            jdiv (jmul (Num ratio) (jadd (Num 100) (Num modifier))) (Num 100)
            = Num x ->
            (Qabs x < inject_Z (10 ^ 21))%Q -> rounds_to 5 x v) /\
        (forall R M : Q,
            control_value 5 (inject_Z (10 ^ 5)) R ratio ->
            control_value 1 (inject_Z 1000) M modifier ->
            rounds_to 5 (R * (100 + M) / 100)%Q v)) /\
  (forall ratio modifier : Q,
      pass2FlowRatio s = Some (Num ratio) ->
      pass2Modifier s = Some (Num modifier) ->
      exists v,
        pass2Result s = Some v /\
        (forall x,
            jdiv (jmul (Num ratio) (jadd (Num 100) (Num modifier))) (Num 100)
            = Num x ->
            (Qabs x < inject_Z (10 ^ 21))%Q -> rounds_to 5 x v) /\
        (forall R M : Q,
            control_value 5 (inject_Z (10 ^ 5)) R ratio ->
            control_value 1 (inject_Z 1000) M modifier ->
            rounds_to 5 (R * (100 + M) / 100)%Q v)) /\
  (pass1FlowRatio s ∈ [None; Some NaN] \/ pass1Modifier s ∈ [None; Some NaN] ->
   pass1Result s = None) /\
  (pass2FlowRatio s ∈ [None; Some NaN] \/ pass2Modifier s ∈ [None; Some NaN] ->
   pass2Result s = None) /\
  pass1Result example_legacy_pass = Some (Num (decimal 975 3)) /\
  pass2Result example_legacy_pass = Some (Num (decimal 975 3)).
Proof.
  split; [|split; [|split; [|split; [|split]]]].
  - intros ratio modifier Hr Hm. eexists. split; [|split].
    + unfold pass1Result. rewrite Hr, Hm. reflexivity.
    + intros x Hx Hb. cbn [calc_number]. rewrite Hx.
      by apply parseFloat_toFixed_rounds.
    + intros R M CR CM. by apply legacy_control.
  - intros ratio modifier Hr Hm. eexists. split; [|split].
    + unfold pass2Result. rewrite Hr, Hm. reflexivity.
    + intros x Hx Hb. cbn [calc_number]. rewrite Hx.
      by apply parseFloat_toFixed_rounds.
    + intros R M CR CM. by apply legacy_control.
  - unfold pass1Result. intros [H|H];
      apply elem_of_cons in H as [->|H];
      try (apply list_elem_of_singleton in H as ->);
      cbn [calc_not_null calc_isNaN calc_number andb negb];
      try reflexivity;
      by destruct (pass1FlowRatio s) as [[|?]|], (pass1Modifier s) as [[|?]|].
  - unfold pass2Result. intros [H|H];
      apply elem_of_cons in H as [->|H];
      try (apply list_elem_of_singleton in H as ->);
      cbn [calc_not_null calc_isNaN calc_number andb negb];
      try reflexivity;
      by destruct (pass2FlowRatio s) as [[|?]|], (pass2Modifier s) as [[|?]|].
  - by vm_compute.
  - by vm_compute.
Qed.

Lemma legacy_pass_result_witness :
  exists v,
    pass1Result example_legacy_pass = Some v /\
    rounds_to 5 (1 * (100 + - (25 # 10)) / 100)%Q v.
Proof.
  destruct (proj1 (legacy_pass_result example_legacy_pass)
              1%Q (decimal (-25) 1))
    as (v & Hv & _ & Hc); [reflexivity|reflexivity|].
  exists v. split; [exact Hv|]. apply Hc.
  - split; [by exists 100000%Z|]. split; [qle|reflexivity].
  - split; [by exists (-25)%Z|]. split; [qle|reflexivity].
Defined.

(* ===================================================================== *)
(** ** The pressure-advance method switch *)
(* ===================================================================== *)

Lemma autoComputeEffect_pattern (form : FormValues) :
  autoComputeEffect pressure_advance pattern form = form.
Proof.
  unfold autoComputeEffect. cbn [STEP_CONFIGS autoCompute].
  by destruct (form_inputs form).
Qed.

Lemma result_lookup_set_ne
    (form : FormValues) (k k' : string) (v : jsval) :
  k' ≠ k ->
  result_lookup
    (setFieldValue_result (<[k' := v]> (default ∅ (form_result form))) form) k
  = result_lookup form k.
Proof.
  intros Hne. unfold result_lookup.
  cbn [setFieldValue_result form_result mbind option_bind].
  rewrite lookup_insert_ne by done. by destruct (form_result form).
Qed.

(** C7: with the method set to "pattern" the auto-compute effect of the
    pressure-advance step, in the wizard and in the drawer, returns the form
    as it is, whatever inputs the form still holds. Accordingly, after any
    event of StepContent that leaves the method at "pattern",
    [result.pressure_advance] is what it was before, unless the user typed
    it into the result field or the switch to "pattern" has just cleared the
    result. *)
Theorem pattern_method_never_computes (form : FormValues) :
  autoComputeEffect pressure_advance pattern form = form /\
  drawer_autoComputeEffect (Some pressure_advance) pattern form = form /\
  (forall s e s' form',
      content_step pressure_advance e (s, form) = (s', form') ->
      paMethod s' = pattern ->
      result_lookup form' "pressure_advance"
        = result_lookup form "pressure_advance"
      \/ (exists v, e = ResultChange "pressure_advance" v)
      \/ (e = PaMethodChange pattern /\ form_result form' = Some ∅)).
Proof.
  split; [apply autoComputeEffect_pattern|].
  split; [apply autoComputeEffect_pattern|].
  intros s e s' form' Hstep Hpat.
  destruct e; cbn [content_step] in Hstep;
    rewrite ?(bool_decide_eq_false_2 (pressure_advance = flow_rate)) in Hstep
      by done;
    rewrite ?(bool_decide_eq_false_2 (pressure_advance = vfa)) in Hstep by done;
    rewrite ?(bool_decide_eq_true_2 (pressure_advance = pressure_advance))
      in Hstep by done;
    cbn [andb orb] in Hstep;
    try (injection Hstep as <- <-; by left).
  - (* InputChange *)
    destruct (bool_decide (k ∈ _)); cbn [andb] in Hstep;
      [|injection Hstep as <- <-; by left].
    destruct (bool_decide (paMethod s = pattern)) eqn:Hm; cbn [negb] in Hstep;
      [injection Hstep as <- <-; by left|].
    injection Hstep as <- <-.
    apply bool_decide_eq_false in Hm. contradiction.
  - (* ResultChange *)
    destruct (bool_decide (k ∈ _)); [|injection Hstep as <- <-; by left].
    injection Hstep as <- <-.
    destruct (decide (k = "pressure_advance")) as [->|Hne];
      [right; left; by eexists|].
    left. by apply result_lookup_set_ne.
  - (* PaMethodChange *)
    destruct (bool_decide (paMethod s = val)); cbn [negb] in Hstep;
      [injection Hstep as <- <-; by left|].
    unfold handlePaMethodChange in Hstep. injection Hstep as <- <-.
    cbn [set_paMethod paMethod] in Hpat. subst val.
    right; right. split; [done|].
    by rewrite autoComputeEffect_pattern.
Qed.

Lemma pattern_method_never_computes_witness :
  result_lookup
    (content_step pressure_advance (PaMethodChange pattern)
       (initialStepContent, example_tower_form)).2 "pressure_advance"
  = result_lookup example_tower_form "pressure_advance"
  \/ (exists v, PaMethodChange pattern = ResultChange "pressure_advance" v)
  \/ (PaMethodChange pattern = PaMethodChange pattern /\
      form_result
        (content_step pressure_advance (PaMethodChange pattern)
           (initialStepContent, example_tower_form)).2 = Some ∅).
Proof.
  apply (proj2 (proj2 (pattern_method_never_computes example_tower_form))
           initialStepContent (PaMethodChange pattern)
           (set_paMethod pattern initialStepContent));
    reflexivity.
Defined.

(* ===================================================================== *)
(** ** The VFA artifact-speed list *)
(* ===================================================================== *)

Section MinMax.
Local Open Scope Q_scope.

Lemma qmin_spec (a b : Q) :
  (qmin a b = a \/ qmin a b = b) /\ qmin a b <= a /\ qmin a b <= b.
Proof.
  unfold qmin. destruct (Qle_bool a b) eqn:E.
  - apply Qle_bool_iff in E. repeat split; auto; lra.
  - assert (b < a).
    { apply Qnot_le_lt. intros H. apply Qle_bool_iff in H. congruence. }
    repeat split; auto; lra.
Qed.

Lemma qmax_spec (a b : Q) :
  (qmax a b = a \/ qmax a b = b) /\ a <= qmax a b /\ b <= qmax a b.
Proof.
  unfold qmax. destruct (Qle_bool a b) eqn:E.
  - apply Qle_bool_iff in E. repeat split; auto; lra.
  - assert (b < a).
    { apply Qnot_le_lt. intros H. apply Qle_bool_iff in H. congruence. }
    repeat split; auto; lra.
Qed.

Lemma Math_min_spec (xs : list Q) (x : Q) :
  Math_min x xs ∈ x :: xs /\ forall y, y ∈ x :: xs -> Math_min x xs <= y.
Proof.
  unfold Math_min. revert x. induction xs as [|z xs IH]; intros x; cbn [foldl].
  - split; [apply list_elem_of_here|].
    intros y Hy. apply list_elem_of_singleton in Hy as ->. lra.
  - destruct (IH (qmin x z)) as [Hin Hle].
    destruct (qmin_spec x z) as (Hsel & Hx & Hz).
    split.
    + apply elem_of_cons in Hin as [->|Hin].
      * destruct Hsel as [-> | ->];
          [apply list_elem_of_here
          |apply list_elem_of_further, list_elem_of_here].
      * by do 2 apply list_elem_of_further.
    + intros y Hy.
      assert (Hm : foldl qmin (qmin x z) xs <= qmin x z)
        by (apply Hle, list_elem_of_here).
      apply elem_of_cons in Hy as [->|Hy]; [lra|].
      apply elem_of_cons in Hy as [->|Hy]; [lra|].
      by apply Hle, list_elem_of_further.
Qed.

Lemma Math_max_spec (xs : list Q) (x : Q) :
  Math_max x xs ∈ x :: xs /\ forall y, y ∈ x :: xs -> y <= Math_max x xs.
Proof.
  unfold Math_max. revert x. induction xs as [|z xs IH]; intros x; cbn [foldl].
  - split; [apply list_elem_of_here|].
    intros y Hy. apply list_elem_of_singleton in Hy as ->. lra.
  - destruct (IH (qmax x z)) as [Hin Hle].
    destruct (qmax_spec x z) as (Hsel & Hx & Hz).
    split.
    + apply elem_of_cons in Hin as [->|Hin].
      * destruct Hsel as [-> | ->];
          [apply list_elem_of_here
          |apply list_elem_of_further, list_elem_of_here].
      * by do 2 apply list_elem_of_further.
    + intros y Hy.
      assert (Hm : qmax x z <= foldl qmax (qmax x z) xs)
        by (apply Hle, list_elem_of_here).
      apply elem_of_cons in Hy as [->|Hy]; [lra|].
      apply elem_of_cons in Hy as [->|Hy]; [lra|].
      by apply Hle, list_elem_of_further.
Qed.

End MinMax.

Lemma vfaEffect_nonempty (x : Q) (xs : list Q) (form : FormValues) :
  result_lookup (vfaEffect vfa (x :: xs) form) "min_avoidance_speed"
    = Some (JNum (Num (Math_min x xs))) /\
  result_lookup (vfaEffect vfa (x :: xs) form) "max_avoidance_speed"
    = Some (JNum (Num (Math_max x xs))).
Proof.
  unfold vfaEffect, result_lookup.
  rewrite bool_decide_eq_false_2 by naive_solver.
  cbn [setFieldValue_result form_result mbind option_bind].
  split.
  - rewrite lookup_insert_ne by done. apply lookup_insert_eq.
  - apply lookup_insert_eq.
Qed.

(** C8: the VFA effect, which runs after every change of the artifact-speed
    list in the wizard and in the drawer, writes the least and the greatest
    speed of a non-empty list into [min_avoidance_speed] and
    [max_avoidance_speed], [null] into both for an empty list, and keeps
    every other field of the result. Adding a speed and removing one are
    followed by this effect on the new list. *)
Theorem vfa_avoidance_speeds (speeds : list Q) (form : FormValues) :
  (speeds = [] ->
   result_lookup (vfaEffect vfa speeds form) "min_avoidance_speed" = Some JNull /\
   result_lookup (vfaEffect vfa speeds form) "max_avoidance_speed" = Some JNull) /\
  (speeds ≠ [] ->
   exists lo hi,
     result_lookup (vfaEffect vfa speeds form) "min_avoidance_speed"
       = Some (JNum (Num lo)) /\
     result_lookup (vfaEffect vfa speeds form) "max_avoidance_speed"
       = Some (JNum (Num hi)) /\
     lo ∈ speeds /\ hi ∈ speeds /\
     forall x, x ∈ speeds -> (lo <= x)%Q /\ (x <= hi)%Q) /\
  (forall k, k ≠ "min_avoidance_speed" -> k ≠ "max_avoidance_speed" ->
             result_lookup (vfaEffect vfa speeds form) k = result_lookup form k) /\
  drawer_vfaEffect (Some vfa) speeds form = vfaEffect vfa speeds form /\
  (forall s s',
      addArtifactSpeed s = Some s' ->
      content_step vfa AddArtifactSpeed (s, form)
        = (s', vfaEffect vfa (artifactSpeeds s') form)) /\
  (forall s idx,
      idx < length (artifactSpeeds s) ->
      content_step vfa (RemoveArtifactSpeed idx) (s, form)
        = (removeArtifactSpeed idx s,
           vfaEffect vfa (artifactSpeeds (removeArtifactSpeed idx s)) form)).
Proof.
  split; [intros ->; apply vfaEffect_empty_nulls|].
  split.
  { intros Hne. destruct speeds as [|x xs]; [done|].
    destruct (vfaEffect_nonempty x xs form) as [Hmin Hmax].
    destruct (Math_min_spec xs x) as [Hin_lo Hlo].
    destruct (Math_max_spec xs x) as [Hin_hi Hhi].
    exists (Math_min x xs), (Math_max x xs). repeat split; auto. }
  split; [intros k H1 H2; by apply vfaEffect_other_keys|].
  split; [reflexivity|].
  split.
  - intros s s' Hadd. cbn [content_step].
    rewrite bool_decide_eq_true_2 by done. by rewrite Hadd.
  - intros s idx Hlt. cbn [content_step].
    rewrite bool_decide_eq_true_2 by done.
    by rewrite bool_decide_eq_true_2 by done.
Qed.

Lemma vfa_avoidance_speeds_witness :
  exists lo hi,
    result_lookup (vfaEffect vfa [120; 80; 200]%Q resetFields)
                  "min_avoidance_speed" = Some (JNum (Num lo)) /\
    result_lookup (vfaEffect vfa [120; 80; 200]%Q resetFields)
                  "max_avoidance_speed" = Some (JNum (Num hi)) /\
    lo ∈ [120; 80; 200]%Q /\ hi ∈ [120; 80; 200]%Q /\
    forall x, x ∈ [120; 80; 200]%Q -> (lo <= x)%Q /\ (x <= hi)%Q.
Proof.
  apply (proj1 (proj2 (vfa_avoidance_speeds [120; 80; 200]%Q resetFields))).
  discriminate.
Defined.

(* ===================================================================== *)
(** ** The recommended-settings summary *)
(* ===================================================================== *)

Section Summary.
Context (t : CalibrationStepType).

Lemma find_app_first {A} (p : A -> bool) (l1 l2 : list A) :
  find p (l1 ++ l2)
  = match find p l1 with Some x => Some x | None => find p l2 end.
Proof.
  induction l1 as [|x l1 IH]; cbn [app find]; [done|].
  by destruct (p x).
Qed.

Lemma latestByType_step_lookup
    (acc : gmap CalibrationStepType ICalibrationStepResult)
    (step : ICalibrationStepResult) :
  latestByType_step acc step !! t
  = if qualifies t step then Some step else acc !! t.
Proof.
  unfold latestByType_step, qualifies.
  destruct (has_keys (selected_values step)); cbn [andb].
  - case_bool_decide as Ht.
    + subst t. apply lookup_insert_eq.
    + by rewrite lookup_insert_ne.
  - by rewrite andb_false_r.
Qed.

(** The inner loop keeps the last qualifying step of the list. *)
Lemma latestByType_steps
    (l : list ICalibrationStepResult)
    (acc : gmap CalibrationStepType ICalibrationStepResult) :
  foldl latestByType_step acc l !! t
  = match find (qualifies t) (reverse l) with
    | Some step => Some step
    | None => acc !! t
    end.
Proof.
  revert acc. induction l as [|x l IH]; intros acc; [done|].
  cbn [foldl]. rewrite IH, reverse_cons, find_app_first.
  destruct (find (qualifies t) (reverse l)); [done|].
  rewrite latestByType_step_lookup. cbn [find].
  by destruct (qualifies t x).
Qed.

Lemma latestByType_cons
    (sess : ICalibrationSession) (older : list ICalibrationSession) :
  latestByType (sess :: older) !! t
  = match find (qualifies t) (reverse (steps sess)) with
    | Some step => Some step
    | None => latestByType older !! t
    end.
Proof.
  unfold latestByType. rewrite reverse_cons, foldl_app. cbn [foldl].
  apply latestByType_steps.
Qed.

(** The loop of RecommendedSummary finds the step the specification
    describes. *)
Lemma latestByType_most_recent (sessions : list ICalibrationSession) :
  latestByType sessions !! t = most_recent_selected t sessions.
Proof.
  induction sessions as [|sess older IH]; [done|].
  rewrite latestByType_cons. cbn [most_recent_selected]. by rewrite IH.
Qed.

Lemma find_qualifies_Some
    (l : list ICalibrationStepResult) (step : ICalibrationStepResult) :
  find (qualifies t) l = Some step ->
  step ∈ l /\ step_type step = t /\ has_keys (selected_values step) = true.
Proof.
  intros H. apply find_some in H as [Hin Hq].
  apply list_elem_of_In in Hin. unfold qualifies in Hq.
  apply andb_true_iff in Hq as [Ht Hk]. apply bool_decide_eq_true in Ht.
  done.
Qed.

Lemma find_qualifies_is_Some
    (l : list ICalibrationStepResult) (step : ICalibrationStepResult) :
  step ∈ l -> qualifies t step = true ->
  exists s', find (qualifies t) l = Some s'.
Proof.
  intros Hin Hq. destruct (find (qualifies t) l) eqn:E; [by eexists|].
  apply list_elem_of_In in Hin.
  pose proof (find_none _ _ E _ Hin). congruence.
Qed.

Lemma most_recent_selected_Some
    (sessions : list ICalibrationSession) (step : ICalibrationStepResult) :
  most_recent_selected t sessions = Some step ->
  step_type step = t /\ has_keys (selected_values step) = true /\
  exists sess, sess ∈ sessions /\ step ∈ steps sess.
Proof.
  induction sessions as [|sess older IH]; [done|].
  cbn [most_recent_selected].
  destruct (find (qualifies t) (reverse (steps sess))) eqn:E.
  - intros [= ->]. apply find_qualifies_Some in E as (Hin & Ht & Hk).
    rewrite elem_of_reverse in Hin.
    split; [done|]. split; [done|].
    exists sess. split; [apply list_elem_of_here|done].
  - intros H. destruct (IH H) as (Ht & Hk & sess' & Hs & Hin).
    split; [done|]. split; [done|].
    exists sess'. split; [by apply list_elem_of_further|done].
Qed.

End Summary.

Lemma latestByType_chronological (sessions : list ICalibrationSession) :
  latestByType sessions = foldl latestByType_step ∅ (chronological sessions).
Proof.
  unfold latestByType, chronological.
  generalize (reverse sessions) as l.
  generalize (∅ : gmap CalibrationStepType ICalibrationStepResult) as acc.
  intros acc l. revert acc.
  induction l as [|sess l IH]; intros acc; [done|].
  rewrite bind_cons, foldl_app. cbn [foldl]. apply IH.
Qed.

(** The first hit in the reversed list is the last hit in the list. *)
Lemma find_reverse_last {A} (p : A -> bool) (l : list A) (x : A) :
  find p (reverse l) = Some x ->
  exists l1 l2, l = (l1 ++ x :: l2)%list /\ p x = true /\
                forall y, y ∈ l2 -> p y = false.
Proof.
  induction l as [|a l IH] using rev_ind; [done|].
  rewrite reverse_app. cbn [reverse rev_append app find].
  destruct (p a) eqn:Hpa.
  - intros [= ->]. exists l, []. split; [done|]. split; [done|].
    intros y Hy. by apply elem_of_nil in Hy.
  - intros H. destruct (IH H) as (l1 & l2 & -> & Hpx & Hl2).
    exists l1, (l2 ++ [a])%list. split; [by rewrite <- app_assoc|]. split; [done|].
    intros y Hy. apply elem_of_app in Hy as [Hy|Hy]; [by apply Hl2|].
    by apply list_elem_of_singleton in Hy as ->.
Qed.

(** When the walk follows the order of creation, the selected step is the
    one recorded last among the qualifying steps. *)
Lemma latestByType_recorded_last
    (sessions : list ICalibrationSession) (t : CalibrationStepType)
    (step other : ICalibrationStepResult) (sess : ICalibrationSession) :
  created_in_order sessions ->
  latestByType sessions !! t = Some step ->
  sess ∈ sessions -> other ∈ steps sess -> qualifies t other = true ->
  other = step \/ recorded_at other < recorded_at step.
Proof.
  intros Hsorted Hsel Hsess Hother Hq.
  rewrite latestByType_chronological, latestByType_steps in Hsel.
  destruct (find (qualifies t) (reverse (chronological sessions))) as [s'|] eqn:E;
    [|by rewrite lookup_empty in Hsel].
  injection Hsel as ->.
  apply find_reverse_last in E as (l1 & l2 & El & _ & Hl2).
  assert (Hin : other ∈ chronological sessions).
  { unfold chronological. apply list_elem_of_bind. exists sess.
    split; [done|]. by apply elem_of_reverse. }
  unfold created_in_order in Hsorted. rewrite El in Hsorted, Hin.
  apply elem_of_app in Hin as [Hin|Hin].
  - right.
    apply (StronglySorted_app_1_elem_of _ l1 (step :: l2) other step Hsorted);
      [exact Hin|apply list_elem_of_here].
  - apply elem_of_cons in Hin as [->|Hin]; [by left|].
    specialize (Hl2 _ Hin). congruence.
Qed.

Lemma latestByType_step_unselected
    (acc : gmap CalibrationStepType ICalibrationStepResult)
    (l : list ICalibrationStepResult) :
  foldl latestByType_step acc
    (filter (fun step => has_keys (selected_values step) = true) l)
  = foldl latestByType_step acc l.
Proof.
  revert acc. induction l as [|x l IH]; intros acc; [done|].
  rewrite filter_cons. cbn [foldl]. unfold latestByType_step at 3.
  case_decide as Hk.
  - cbn [foldl]. unfold latestByType_step at 2. rewrite Hk. apply IH.
  - apply not_true_is_false in Hk. rewrite Hk. apply IH.
Qed.

(** Steps without selected values do not contribute: the loop has the same
    outcome when they are removed from every session. *)
Lemma latestByType_without_unselected (sessions : list ICalibrationSession) :
  latestByType (without_unselected <$> sessions) = latestByType sessions.
Proof.
  unfold latestByType. rewrite <- fmap_reverse.
  generalize (reverse sessions) as l.
  generalize (∅ : gmap CalibrationStepType ICalibrationStepResult) as acc.
  intros acc l. revert acc.
  induction l as [|sess l IH]; intros acc; [done|].
  cbn [fmap list_fmap foldl]. rewrite <- IH. f_equal.
  apply latestByType_step_unselected.
Qed.

Lemma recommended_vals_sound
    (t : CalibrationStepType) (step : ICalibrationStepResult)
    (rv : RecommendedValue) :
  rv ∈ recommended_vals t step ->
  rv_key rv ∈ recommendedKeys (STEP_CONFIGS t) /\
  selected_value step (rv_key rv) = Some (rv_value rv) /\
  rv_label rv = field_label (STEP_CONFIGS t) (rv_key rv).
Proof.
  unfold recommended_vals, selected_value. intros H.
  apply list_elem_of_omap in H as (k & Hk & Hv).
  destruct (selected_values step ≫= (.!! k)) as [v|] eqn:E; [|done].
  destruct v; try done; injection Hv as <-; cbn [rv_key rv_value rv_label];
    by rewrite E.
Qed.

(** Every recommended key with a selected value is shown, once and in the
    order of the keys. *)
Lemma recommended_vals_keys
    (t : CalibrationStepType) (step : ICalibrationStepResult) :
  rv_key <$> recommended_vals t step
  = filter (fun k => is_Some (selected_value step k))
           (recommendedKeys (STEP_CONFIGS t)).
Proof.
  unfold recommended_vals, selected_value.
  induction (recommendedKeys (STEP_CONFIGS t)) as [|k l IH]; [done|].
  rewrite filter_cons. cbn [omap list_omap].
  destruct (selected_values step ≫= (.!! k)) as [v|] eqn:E.
  - destruct v.
    all: try (rewrite decide_True by (by eexists);
              cbn [fmap list_fmap rv_key]; by rewrite <- IH).
    rewrite decide_False by (by intros [? ?]). apply IH.
  - rewrite decide_False by (by intros [? ?]). apply IH.
Qed.

(** C4: for every list of sessions, in the order in which the card receives
    them (the newest session first), and every step type, the summary selects
    the step found by searching the sessions from the first to the last and
    each session's steps from the last to the first for a step of that type
    with a non-empty [selected_values]. Its tile shows the values of that
    step at the type's recommended keys: every such key with a value that is
    neither absent nor [null], once and in the order of the keys, and nothing
    else. The selected step is the most recently created one when the steps
    were created in the order of that walk. Steps with an absent or empty
    [selected_values] never contribute: removing them changes nothing, and
    the record stored by skip-as-not-applicable is such a step. A qualifying
    step of the newest session supersedes every older session for its
    type. *)
Theorem recommended_summary_latest
    (sessions : list ICalibrationSession) (t : CalibrationStepType) :
  latestByType sessions !! t = most_recent_selected t sessions /\
  summary_tile sessions t
    = (most_recent_selected t sessions ≫= fun step =>
         match recommended_vals t step with
         | [] => None
         | vals => Some vals
         end) /\
  (forall step,
      rv_key <$> recommended_vals t step
      = filter (fun k => is_Some (selected_value step k))
               (recommendedKeys (STEP_CONFIGS t)) /\
      forall rv,
        rv ∈ recommended_vals t step ->
        selected_value step (rv_key rv) = Some (rv_value rv) /\
        rv_label rv = field_label (STEP_CONFIGS t) (rv_key rv)) /\
  (forall step,
      latestByType sessions !! t = Some step ->
      step_type step = t /\ has_keys (selected_values step) = true /\
      exists sess, sess ∈ sessions /\ step ∈ steps sess) /\
  latestByType (without_unselected <$> sessions) = latestByType sessions /\
  (created_in_order sessions ->
   forall step,
     latestByType sessions !! t = Some step ->
     most_recently_created t sessions step) /\
  (forall t' db,
      has_keys (selected_values (db_newStep t' (saveAsSkipped_values t') db))
      = false) /\
  (forall newer older step,
      step ∈ steps newer -> qualifies t step = true ->
      exists s', latestByType (newer :: older) !! t = Some s' /\
                 s' ∈ steps newer /\ qualifies t s' = true).
Proof.
  split; [apply latestByType_most_recent|].
  split.
  { unfold summary_tile. rewrite latestByType_most_recent.
    by destruct (most_recent_selected t sessions). }
  split.
  { intros step. split; [apply recommended_vals_keys|].
    intros rv Hrv.
    destruct (recommended_vals_sound t step rv Hrv) as (? & ? & ?). done. }
  split.
  { intros step H. rewrite latestByType_most_recent in H.
    by apply most_recent_selected_Some. }
  split; [apply latestByType_without_unselected|].
  split.
  { intros Hsorted step Hsel.
    pose proof Hsel as Hsel'. rewrite latestByType_most_recent in Hsel'.
    apply most_recent_selected_Some in Hsel' as (Ht & Hk & Hin).
    split; [done|]. split.
    { unfold qualifies. rewrite Hk. by rewrite bool_decide_eq_true_2. }
    intros sess other Hsess Hother Hq.
    by apply (latestByType_recorded_last sessions t step other sess). }
  split; [done|].
  intros newer older step Hin Hq.
  rewrite latestByType_cons.
  apply elem_of_reverse in Hin.
  destruct (find_qualifies_is_Some t _ _ Hin Hq) as (s' & E).
  rewrite E. exists s'. split; [done|].
  apply find_qualifies_Some in E as (Hin' & Ht & Hk).
  rewrite elem_of_reverse in Hin'. split; [done|].
  unfold qualifies. rewrite Hk. by rewrite bool_decide_eq_true_2.
Qed.

Lemma recommended_summary_latest_witness :
  (exists s',
      latestByType [example_newer; example_older] !! temperature = Some s' /\
      s' ∈ steps example_newer /\ qualifies temperature s' = true) /\
  (forall step,
      latestByType [example_newer; example_older] !! temperature = Some step ->
      most_recently_created temperature [example_newer; example_older] step).
Proof.
  split.
  - apply (proj2 (proj2 (proj2 (proj2 (proj2 (proj2 (proj2
             (recommended_summary_latest [] temperature)))))))
             example_newer [example_older]
             (example_step 3 temperature
                (Some {[ "temperature" := JNum (Num 220) ]})
                (Some {[ "temperature" := JNum (Num 220) ]}))).
    + apply list_elem_of_here.
    + vm_compute. reflexivity.
  - apply (proj1 (proj2 (proj2 (proj2 (proj2 (proj2
             (recommended_summary_latest
                [example_newer; example_older] temperature))))))).
    unfold created_in_order. vm_compute.
    repeat (constructor; [repeat constructor; lia|]). constructor.
Defined.

(** The summary does not always show the most recently created step with
    selected values: with a temperature step added to the older session after
    the newer session recorded its own, the card still shows the value of the
    newer session (220), not the value recorded last (230). Nor are skipped
    steps always ignored: a skipped step that carries the sentinel as its
    [selected_values] too, as the wizard stores it when a skipped step is
    saved again, is selected for its type and removes the tile the older
    session would have. *)
Lemma summary_not_most_recently_created :
  (exists shown latest,
      latestByType [example_newer; example_older_extended] !! temperature
      = Some shown /\
      summary_tile [example_newer; example_older_extended] temperature
      = Some [ {| rv_key := "temperature"; rv_label := "Optimal Temp";
                  rv_value := JNum (Num 220) |} ] /\
      ~ most_recently_created
          temperature [example_newer; example_older_extended] shown /\
      latest ∈ steps example_older_extended /\
      qualifies temperature latest = true /\
      recorded_at shown < recorded_at latest /\
      recommended_vals temperature latest
      = [ {| rv_key := "temperature"; rv_label := "Optimal Temp";
             rv_value := JNum (Num 230) |} ]) /\
  (exists skipped,
      latestByType
        [example_session 2
           [example_step 4 input_shaping (Some SKIPPED) (Some SKIPPED)];
         example_older] !! input_shaping = Some skipped /\
      isSkipped skipped = true /\
      summary_tile
        [example_session 2
           [example_step 4 input_shaping (Some SKIPPED) (Some SKIPPED)];
         example_older] input_shaping = None /\
      summary_tile [example_older] input_shaping
      = Some [ {| rv_key := "frequency_x"; rv_label := "Tuned Freq X";
                  rv_value := JNum (Num 40) |} ]).
Proof.
  split.
  - exists (example_step 3 temperature
              (Some {[ "temperature" := JNum (Num 220) ]})
              (Some {[ "temperature" := JNum (Num 220) ]})),
           (example_step 5 temperature
              (Some {[ "temperature" := JNum (Num 230) ]})
              (Some {[ "temperature" := JNum (Num 230) ]})).
    split; [by vm_compute|]. split; [by vm_compute|]. split.
    { intros (_ & _ & H).
      destruct (H example_older_extended
                  (example_step 5 temperature
                     (Some {[ "temperature" := JNum (Num 230) ]})
                     (Some {[ "temperature" := JNum (Num 230) ]})))
        as [H'|H'].
      - apply list_elem_of_further, list_elem_of_here.
      - apply list_elem_of_further, list_elem_of_here.
      - by vm_compute.
      - discriminate H'.
      - cbn in H'. lia. }
    split; [apply list_elem_of_further, list_elem_of_here|].
    split; [by vm_compute|]. split; [cbn; lia|]. by vm_compute.
  - exists (example_step 4 input_shaping (Some SKIPPED) (Some SKIPPED)).
    split; [by vm_compute|]. split; [by vm_compute|].
    split; by vm_compute.
Qed.

(* ===================================================================== *)
(** ** Opening the wizard *)
(* ===================================================================== *)

Lemma findIndex_from_spec {A} (p : A -> bool) (l : list A) (i : Z) :
  (findIndex_from p l i = (-1)%Z /\ forall x, x ∈ l -> p x = false) \/
  (exists n x,
      findIndex_from p l i = (i + Z.of_nat n)%Z /\
      l !! n = Some x /\ p x = true /\
      forall m y, m < n -> l !! m = Some y -> p y = false).
Proof.
  revert i. induction l as [|a l IH]; intros i; cbn [findIndex_from].
  - left. split; [done|]. intros x Hx. by apply elem_of_nil in Hx.
  - destruct (p a) eqn:Hpa.
    + right. exists 0, a. repeat split; [lia|done|lia].
    + destruct (IH (i + 1)%Z) as [[E Hall]|(n & x & E & Hn & Hx & Hbefore)].
      * left. split; [done|]. intros x Hx.
        apply elem_of_cons in Hx as [->|Hx]; auto.
      * right. exists (S n), x. split; [lia|]. split; [done|]. split; [done|].
        intros [|m] y Hm Hy; [by injection Hy as <-|].
        apply (Hbefore m y); [lia|done].
Qed.

Lemma all_step_types_ordered (t : CalibrationStepType) : t ∈ WIZARD_STEP_ORDER.
Proof. destruct t; unfold WIZARD_STEP_ORDER; repeat constructor. Qed.

Lemma startIdx_spec (done : gset CalibrationStepType) :
  (exists t, WIZARD_STEP_ORDER !! startIdx done = Some t /\ (t ∉ done) /\
             forall m y, m < startIdx done ->
                         WIZARD_STEP_ORDER !! m = Some y -> y ∈ done) \/
  (startIdx done = 0 /\ forall t, t ∈ done).
Proof.
  unfold startIdx, findIndex.
  destruct (findIndex_from_spec
              (fun st => negb (bool_decide (st ∈ done))) WIZARD_STEP_ORDER 0)
    as [[E Hall]|(n & x & E & Hn & Hx & Hbefore)]; rewrite E.
  - right. split; [done|]. intros t.
    specialize (Hall t (all_step_types_ordered t)).
    apply negb_false_iff, bool_decide_eq_true in Hall. done.
  - left. replace (0 <=? 0 + Z.of_nat n)%Z with true by (symmetry; apply Z.leb_le; lia).
    replace (Z.to_nat (0 + Z.of_nat n)) with n by lia.
    exists x. split; [done|]. split.
    + apply negb_true_iff, bool_decide_eq_false in Hx. done.
    + intros m y Hm Hy. specialize (Hbefore m y Hm Hy).
      apply negb_false_iff, bool_decide_eq_true in Hbefore. done.
Qed.

Lemma session_doneTypes_spec (s : ICalibrationSession) (t : CalibrationStepType) :
  t ∈ session_doneTypes s <-> has_step_of_type (steps s) t.
Proof.
  unfold session_doneTypes, has_step_of_type.
  rewrite elem_of_list_to_set, list_elem_of_fmap.
  split; intros (step & H1 & H2); exists step; by split.
Qed.

Lemma mount_currentIdx (s : ICalibrationSession) (clock : nat) :
  currentIdx (mount s clock) = startIdx (session_doneTypes s).
Proof. reflexivity. Qed.

Lemma mount_doneTypes (s : ICalibrationSession) (clock : nat) :
  doneTypes (mount s clock) = session_doneTypes s.
Proof. reflexivity. Qed.

(** C5, as the code has it: the wizard opens at the first step type of the
    canonical order that has no persisted step in the session (the done-set
    recomputed on open), and at index 0 when every type has one. A session
    with persisted temperature and flow-rate steps opens at
    [volumetric_speed] (index 1): the canonical order puts it second. *)
Theorem wizard_opens_at_first_pending (s : ICalibrationSession) (clock : nat) :
  (forall t, t ∈ doneTypes (mount s clock) <-> has_step_of_type (steps s) t) /\
  ((exists t,
       currentStepType (mount s clock) = Some t /\
       (t ∉ doneTypes (mount s clock)) /\
       forall m y, m < currentIdx (mount s clock) ->
                   WIZARD_STEP_ORDER !! m = Some y ->
                   y ∈ doneTypes (mount s clock))
   \/ (currentIdx (mount s clock) = 0 /\
       forall t, t ∈ doneTypes (mount s clock))) /\
  currentIdx (mount example_resume_session clock) = 1 /\
  currentStepType (mount example_resume_session clock) = Some volumetric_speed.
Proof.
  split; [intros t; rewrite mount_doneTypes; apply session_doneTypes_spec|].
  split.
  - unfold currentStepType. rewrite mount_currentIdx, mount_doneTypes.
    apply startIdx_spec.
  - split; by vm_compute.
Qed.

(** The example of C5 as the specification gives it fails: the session with
    a temperature and a flow-rate step does not open at
    [pressure_advance]. *)
Lemma resume_example_not_pressure_advance :
  currentStepType (mount example_resume_session 0) ≠ Some pressure_advance.
Proof. by vm_compute. Qed.

(* ===================================================================== *)
(** ** What the wizard stores *)
(* ===================================================================== *)

Lemma navigateTo_doneTypes (i : nat) (w : Wizard) :
  doneTypes (navigateTo i w) = doneTypes w.
Proof.
  unfold navigateTo.
  by destruct (WIZARD_STEP_ORDER !! currentIdx w), (WIZARD_STEP_ORDER !! i).
Qed.

Lemma navigateTo_backend (i : nat) (w : Wizard) :
  backend (navigateTo i w) = backend w.
Proof.
  unfold navigateTo.
  by destruct (WIZARD_STEP_ORDER !! currentIdx w), (WIZARD_STEP_ORDER !! i).
Qed.

Lemma markComplete_doneTypes (updated : bool) (w : Wizard) :
  doneTypes (markComplete updated w) = doneTypes w.
Proof. by destruct updated. Qed.

Lemma markComplete_steps (updated : bool) (w : Wizard) :
  stored_steps (markComplete updated w) = stored_steps w.
Proof. by destruct updated. Qed.

Lemma markComplete_status (updated : bool) (w : Wizard) :
  stored_status (markComplete updated w)
  = if updated then complete else stored_status w.
Proof. by destruct updated. Qed.

Lemma isLast_currentStepType (w : Wizard) :
  isLast w = true -> currentStepType w = Some vfa.
Proof.
  unfold isLast, currentStepType. intros H.
  apply bool_decide_eq_true in H. by rewrite H.
Qed.

Lemma stores_after (w w1 w2 : Wizard) :
  stores w w1 ->
  doneTypes w2 = doneTypes w1 -> stored_steps w2 = stored_steps w1 ->
  stores w w2.
Proof.
  intros H Hd Hs. destruct H as [w w1 Hd1 Hs1|w w1 t values Ht Hv Hd1 Hs1].
  - apply stores_nothing; congruence.
  - eapply stores_step; eauto; congruence.
Qed.

Lemma stores_created (w : Wizard) (t : CalibrationStepType) (values : StepValues) :
  currentStepType w = Some t ->
  values = saveCurrentStep_values t (form w)
  \/ (t = input_shaping /\ values = saveAsSkipped_values t) ->
  stores w (with_created t values w).
Proof. intros Ht Hv. by eapply stores_step. Qed.

Lemma wizard_step_stores (a : WizardAction) (w : Wizard) :
  stores w (wizard_step a w).
Proof.
  unfold wizard_step. destruct (wopen w); cbn [negb];
    [|by apply stores_nothing].
  destruct a.
  - case_bool_decide; [|by apply stores_nothing].
    apply stores_nothing;
      [apply navigateTo_doneTypes|unfold stored_steps; by rewrite navigateTo_backend].
  - destruct (isFirst w); [by apply stores_nothing|].
    apply stores_nothing;
      [apply navigateTo_doneTypes|unfold stored_steps; by rewrite navigateTo_backend].
  - unfold handleSkip. destruct (isLast w).
    + destruct confirmed; [|by apply stores_nothing].
      apply stores_nothing;
        [apply markComplete_doneTypes|apply markComplete_steps].
    + apply stores_nothing;
        [apply navigateTo_doneTypes|unfold stored_steps; by rewrite navigateTo_backend].
  - unfold handleSaveAndContinue, saveCurrentStep.
    destruct (currentStepType w) as [t|] eqn:Ht;
      [|destruct (isLast w); by apply stores_nothing].
    destruct created; [|destruct (isLast w); by apply stores_nothing].
    destruct (isLast w).
    + eapply stores_after; [apply (stores_created w t); eauto| |].
      * apply markComplete_doneTypes.
      * apply markComplete_steps.
    + eapply stores_after; [apply (stores_created w t); eauto| |].
      * apply navigateTo_doneTypes.
      * unfold stored_steps; by rewrite navigateTo_backend.
  - case_bool_decide as Hcur; [|by apply stores_nothing].
    unfold handleSaveAsSkipped. rewrite Hcur.
    destruct created; [|by apply stores_nothing].
    destruct (isLast w).
    + eapply stores_after; [apply (stores_created w input_shaping); eauto| |].
      * apply markComplete_doneTypes.
      * apply markComplete_steps.
    + eapply stores_after; [apply (stores_created w input_shaping); eauto| |].
      * apply navigateTo_doneTypes.
      * unfold stored_steps; by rewrite navigateTo_backend.
  - by apply stores_nothing.
  - destruct (currentStepType w); by apply stores_nothing.
Qed.

Lemma stores_done_matches (w w' : Wizard) :
  stores w w' -> done_matches_persisted w -> done_matches_persisted w'.
Proof.
  intros H Inv t'. destruct H as [w w' Hd Hs|w w' t values Ht Hv Hd Hs];
    rewrite Hd, Hs.
  - apply Inv.
  - unfold has_step_of_type. rewrite elem_of_union, elem_of_singleton, (Inv t').
    split.
    + intros [->|(step & Hin & Hty)].
      * eexists. split; [apply elem_of_app; right; apply list_elem_of_here|done].
      * exists step. split; [apply elem_of_app; by left|done].
    + intros (step & Hin & Hty).
      apply elem_of_app in Hin as [Hin|Hin].
      * right. by exists step.
      * apply list_elem_of_singleton in Hin as ->. by left.
Qed.

Lemma mount_done_matches (s : ICalibrationSession) (clock : nat) :
  done_matches_persisted (mount s clock).
Proof. intros t. rewrite mount_doneTypes. apply session_doneTypes_spec. Qed.

Lemma run_wizard_done_matches (actions : list WizardAction) (w : Wizard) :
  done_matches_persisted w -> done_matches_persisted (run_wizard actions w).
Proof.
  unfold run_wizard. revert w.
  induction actions as [|a actions IH]; intros w Inv; [done|].
  cbn [foldl]. apply IH. eapply stores_done_matches; [|exact Inv].
  apply wizard_step_stores.
Qed.

(** C10: at every point of a wizard run the done-set holds exactly the step
    types with at least one step stored for the session; the outputs and
    selected values of that step play no part, so a step that StepList
    shows as "Incomplete" counts. Resume-on-open therefore never stops at the
    type of an incomplete step while another type is pending, and the
    sidebar shows the check for it (on every entry but the current one). *)
Theorem done_set_is_persisted_types
    (s : ICalibrationSession) (clock : nat)
    (actions : list WizardAction) (t : CalibrationStepType) :
  (t ∈ doneTypes (run_wizard actions (mount s clock)) <->
   has_step_of_type (stored_steps (run_wizard actions (mount s clock))) t) /\
  (forall idx,
      sidebar_shows_check (run_wizard actions (mount s clock)) idx t = true <->
      has_step_of_type (stored_steps (run_wizard actions (mount s clock))) t /\
      idx ≠ currentIdx (run_wizard actions (mount s clock))) /\
  (forall step,
      step ∈ steps s -> isIncomplete step = true ->
      step_type step ∈ doneTypes (mount s clock) /\
      sidebar_isDone (mount s clock) (step_type step) = true /\
      ((exists t', t' ∉ doneTypes (mount s clock)) ->
       currentStepType (mount s clock) ≠ Some (step_type step))).
Proof.
  pose proof (run_wizard_done_matches actions _ (mount_done_matches s clock))
    as Inv.
  split; [apply Inv|]. split.
  - intros idx. unfold sidebar_shows_check, sidebar_isDone.
    rewrite andb_true_iff, bool_decide_eq_true, negb_true_iff,
      bool_decide_eq_false.
    by rewrite (Inv t).
  - intros step Hin _.
    assert (Hdone : step_type step ∈ doneTypes (mount s clock)).
    { apply mount_done_matches. by exists step. }
    split; [done|]. split; [by apply bool_decide_eq_true|].
    intros (t' & Ht') Hcur.
    unfold currentStepType in Hcur.
    rewrite mount_currentIdx, mount_doneTypes in *.
    destruct (startIdx_spec (session_doneTypes s))
      as [(t0 & E & Hnot & _)|[_ Hall]].
    + rewrite E in Hcur. injection Hcur as ->. contradiction.
    + by apply Ht'.
Qed.

Lemma done_set_is_persisted_types_witness :
  step_type (example_step 1 temperature None None)
    ∈ doneTypes (mount (example_session 1
                          [example_step 1 temperature None None]) 0) /\
  sidebar_isDone (mount (example_session 1
                           [example_step 1 temperature None None]) 0)
                 (step_type (example_step 1 temperature None None)) = true /\
  ((exists t', t' ∉ doneTypes (mount (example_session 1
                          [example_step 1 temperature None None]) 0)) ->
   currentStepType (mount (example_session 1
                             [example_step 1 temperature None None]) 0)
   ≠ Some (step_type (example_step 1 temperature None None))).
Proof.
  apply (proj2 (proj2 (done_set_is_persisted_types
                         (example_session 1
                            [example_step 1 temperature None None])
                         0 [] temperature))).
  - apply list_elem_of_here.
  - reflexivity.
Defined.

(* ===================================================================== *)
(** ** The session status *)
(* ===================================================================== *)

Lemma navigateTo_status (i : nat) (w : Wizard) :
  stored_status (navigateTo i w) = stored_status w.
Proof. unfold stored_status. by rewrite navigateTo_backend. Qed.

(** An action changes the stored status only on the last step, as a
    successful save or a confirmed skip followed by a successful update. *)
Lemma wizard_step_status (a : WizardAction) (w : Wizard) :
  stored_status (wizard_step a w) = stored_status w \/
  (wopen w = true /\ isLast w = true /\
   (a = SaveAndContinue true true \/ a = Skip true true) /\
   stored_status (wizard_step a w) = complete).
Proof.
  unfold wizard_step. destruct (wopen w); cbn [negb]; [|by left].
  destruct a.
  - case_bool_decide; [|by left]. left. apply navigateTo_status.
  - destruct (isFirst w); [by left|]. left. apply navigateTo_status.
  - unfold handleSkip. destruct (isLast w).
    + destruct confirmed; [|by left].
      destruct updated; [|by left].
      right. repeat split; by auto.
    + left. apply navigateTo_status.
  - unfold handleSaveAndContinue, saveCurrentStep.
    destruct (currentStepType w) as [t|] eqn:Ht;
      [|destruct (isLast w); by left].
    destruct created; [|destruct (isLast w); by left].
    destruct (isLast w).
    + destruct updated; [|by left].
      right. repeat split; by auto.
    + left. by rewrite navigateTo_status.
  - case_bool_decide as Hcur; [|by left].
    unfold handleSaveAsSkipped. rewrite Hcur.
    destruct created; [|by left].
    destruct (isLast w) eqn:Hlast.
    + apply isLast_currentStepType in Hlast. congruence.
    + left. by rewrite navigateTo_status.
  - by left.
  - destruct (currentStepType w); by left.
Qed.

(** C6: on the last step a successful Save stores the status [complete], and
    so does a confirmed skip-to-finish; no other action of the wizard changes
    the stored status. In particular Close leaves it as it is. *)
Theorem session_status_changes (w : Wizard) :
  (wopen w = true -> isLast w = true ->
   stored_status (wizard_step (SaveAndContinue true true) w) = complete /\
   stored_status (wizard_step (Skip true true) w) = complete) /\
  (forall a,
      stored_status (wizard_step a w) ≠ stored_status w ->
      wopen w = true /\ isLast w = true /\
      (a = SaveAndContinue true true \/ a = Skip true true) /\
      stored_status (wizard_step a w) = complete) /\
  (forall actions,
      Forall (fun a => a ≠ SaveAndContinue true true /\ a ≠ Skip true true)
             actions ->
      stored_status (run_wizard actions w) = stored_status w) /\
  stored_status (wizard_step Close w) = stored_status w.
Proof.
  split.
  { intros Hopen Hlast. unfold wizard_step. rewrite Hopen. cbn [negb].
    unfold handleSaveAndContinue, handleSkip, saveCurrentStep.
    rewrite Hlast, (isLast_currentStepType w Hlast). by split. }
  split.
  { intros a Hne. by destruct (wizard_step_status a w) as [E|H]. }
  split.
  { intros actions. unfold run_wizard. revert w.
    induction actions as [|a actions IH]; intros w Hall; [done|].
    apply Forall_cons in Hall as [[Ha1 Ha2] Hall]. cbn [foldl].
    rewrite (IH _ Hall).
    destruct (wizard_step_status a w) as [E|(_ & _ & [->| ->] & _)]; done. }
  destruct (wizard_step_status Close w) as [E|(_ & _ & [?|?] & _)]; done.
Qed.

Lemma session_status_changes_witness :
  stored_status (wizard_step (SaveAndContinue true true) example_last_step)
    = complete /\
  stored_status (wizard_step (Skip true true) example_last_step) = complete.
Proof.
  apply (proj1 (session_status_changes example_last_step)); reflexivity.
Defined.

(* ===================================================================== *)
(** ** Skipped steps *)
(* ===================================================================== *)

Lemma sentinel_isSkipped (step : ICalibrationStepResult) :
  outputs step = Some SKIPPED -> isSkipped step = true.
Proof. unfold isSkipped. intros ->. by apply bool_decide_eq_true. Qed.

Lemma skipped_tags (step : ICalibrationStepResult) :
  isSkipped step = true ->
  step_tags step = [TagSkipped] /\
  hasRecommended step = false /\ isIncomplete step = false.
Proof.
  intros H. unfold step_tags, isIncomplete, hasRecommended. by rewrite H.
Qed.

(** C1: the invariant fails after a wizard save. In a fresh session the
    input-shaping step is skipped as not applicable, which stores the
    sentinel as [outputs] with no [selected_values], and the wizard is
    closed. The wizard is opened again on the stored session, the step is
    revisited through the sidebar and saved with Save and Continue, nothing
    edited: the form was seeded with the stored [outputs] as its result and
    the save sends the whole store, so a second input-shaping step is stored
    whose [outputs] and [selected_values] are both the sentinel. The step
    list tags it "Skipped" only. *)
Theorem skipped_step_saved_with_selected_values :
  exists skipped saved,
    stored_steps example_skip_then_close = [skipped] /\
    outputs skipped = Some SKIPPED /\
    selected_values skipped = None /\
    stored_steps example_revisit_and_save = [skipped; saved] /\
    step_type saved = input_shaping /\
    outputs saved = Some SKIPPED /\
    selected_values saved = Some SKIPPED /\
    ~ skipped_without_selected_values saved /\
    step_tags saved = [TagSkipped].
Proof.
  eexists. eexists.
  split; [vm_compute; reflexivity|].
  split; [vm_compute; reflexivity|].
  split; [reflexivity|].
  split; [vm_compute; reflexivity|].
  split; [reflexivity|].
  split; [vm_compute; reflexivity|].
  split; [vm_compute; reflexivity|].
  split; [|vm_compute; reflexivity].
  unfold skipped_without_selected_values. intros H.
  destruct (H ltac:(vm_compute; reflexivity)) as [E|E];
    vm_compute in E; discriminate.
Qed.

Lemma skipped_not_output_field (t : CalibrationStepType) :
  "_skipped" ∉ key <$> outputFields (STEP_CONFIGS t).
Proof.
  destruct t; cbn; rewrite ?not_elem_of_cons; repeat split; try done;
    apply not_elem_of_nil.
Qed.

(** X27: what the three writers of a step store. Skip-as-not-applicable
    stores the sentinel as [outputs] with no [selected_values]. The wizard's
    save stores one mapping, the result of its form, as both [outputs] and
    [selected_values], so every step the wizard stores is either the skip
    record or has [selected_values] equal to [outputs]. The drawer's add and
    edit also store one mapping as both, the values of the registered result
    fields, which never holds [_skipped]: the drawer never stores the
    sentinel, also when it is opened on a skipped step. A step whose
    [outputs] carries [_skipped: true] gets the single tag "Skipped", neither
    "Done" nor "Incomplete", whatever its [selected_values]. *)
Theorem skipped_sentinel_steps :
  (forall t,
      v_outputs (saveAsSkipped_values t) = Some SKIPPED /\
      v_selected_values (saveAsSkipped_values t) = None) /\
  (forall t values,
      v_selected_values (saveCurrentStep_values t values)
      = v_outputs (saveCurrentStep_values t values)) /\
  (forall sessionId step method store req,
      drawer_submit sessionId step method store = Some req ->
      exists payload r,
        (req = CreateStepRequest sessionId payload
         \/ exists i, req = UpdateStepRequest i payload) /\
        v_selected_values payload = v_outputs payload /\
        v_outputs payload = Some r /\
        r !! "_skipped" = None /\
        v_outputs payload <> Some SKIPPED) /\
  (forall a w step,
      step ∈ stored_steps (wizard_step a w) ->
      step ∈ stored_steps w
      \/ (outputs step = Some SKIPPED /\ selected_values step = None)
      \/ selected_values step = outputs step) /\
  (forall step,
      (outputs step = Some SKIPPED -> isSkipped step = true) /\
      (isSkipped step = true ->
       step_tags step = [TagSkipped] /\
       hasRecommended step = false /\ isIncomplete step = false)).
Proof.
  split; [done|]. split; [done|]. split.
  { intros sessionId step method store req. unfold drawer_submit.
    destruct (form_step_type store) as [t|] eqn:Et; [|done].
    intros [= <-].
    assert (Hr : form_result (registered_values method store)
                 = Some (registered_fields (outputFields (STEP_CONFIGS t))
                                           (form_result store))).
    { unfold registered_values. by rewrite Et. }
    assert (Hk : registered_fields (outputFields (STEP_CONFIGS t))
                                   (form_result store) !! "_skipped" = None).
    { unfold registered_fields. apply map_lookup_filter_None. right.
      intros x _ Hin. by apply (skipped_not_output_field t). }
    eexists (onFinish_payload (registered_values method store)), _.
    split; [destruct step; [right; by eexists|by left]|].
    split; [done|]. split; [exact Hr|]. split; [exact Hk|].
    cbn [onFinish_payload v_outputs]. rewrite Hr. intros [= E].
    rewrite E in Hk. unfold SKIPPED in Hk.
    by rewrite lookup_singleton_eq in Hk. }
  split.
  { intros a w step Hin.
    destruct (wizard_step_stores a w) as [w w' _ Hs|w w' t values _ Hv _ Hs];
      rewrite Hs in Hin; [by left|].
    apply elem_of_app in Hin as [Hin|Hin]; [by left|].
    apply list_elem_of_singleton in Hin as ->.
    destruct Hv as [->|[-> ->]]; [right; right|right; left]; done. }
  intros step. split; [apply sentinel_isSkipped|apply skipped_tags].
Qed.

Lemma skipped_sentinel_steps_witness :
  exists payload r,
    (UpdateStepRequest 4
       (onFinish_payload
          (registered_values tower
             (drawer_open
                (example_step 4 input_shaping (Some SKIPPED) None)).2))
     = CreateStepRequest 1 payload
     \/ exists i,
         UpdateStepRequest 4
           (onFinish_payload
              (registered_values tower
                 (drawer_open
                    (example_step 4 input_shaping (Some SKIPPED) None)).2))
         = UpdateStepRequest i payload) /\
    v_selected_values payload = v_outputs payload /\
    v_outputs payload = Some r /\
    r !! "_skipped" = None /\
    v_outputs payload <> Some SKIPPED.
Proof.
  apply (proj1 (proj2 (proj2 skipped_sentinel_steps))
           1 (Some (example_step 4 input_shaping (Some SKIPPED) None)) tower
           (drawer_open (example_step 4 input_shaping (Some SKIPPED) None)).2).
  reflexivity.
Defined.

(* ===================================================================== *)
(** ** The other formulas of the step registry *)
(* ===================================================================== *)





Section Sign.
Local Open Scope Q_scope.


End Sign.



(** X4: the rounding of the volumetric-speed, retraction and tolerance
    formulas loses nothing on inputs as the controls hold them (decimals with
    1 place each, of magnitude at most 10^6, for volumetric speed; with 2, 1
    and 3 places, at most 10^4, for retraction; with 2 and 3 places, at most
    10^9, for tolerance): the value returned is the binary64 number nearest
    to the exact value of the expression on the decimals entered. *)
Theorem formulas_exact_at_control_precision (inputs : gmap string inval) :
  (forall A S H start step h : Q,
      inputs !! "start_speed" = Some (INum (Num start)) ->
      inputs !! "step_size" = Some (INum (Num step)) ->
      inputs !! "measured_height" = Some (INum (Num h)) ->
      control_value 1 (inject_Z (10 ^ 6)) A start ->
      control_value 1 (inject_Z (10 ^ 6)) S step ->
      control_value 1 (inject_Z (10 ^ 6)) H h ->
      volumetric_speed_autoCompute inputs
      = {[ "max_volumetric_speed" := Num (round64 (A + H * S)) ]}) /\
  (forall S H F start h factor : Q,
      inputs !! "start_retract" = Some (INum (Num start)) ->
      inputs !! "measured_height" = Some (INum (Num h)) ->
      inputs !! "factor" = Some (INum (Num factor)) ->
      control_value 2 (inject_Z (10 ^ 4)) S start ->
      control_value 1 (inject_Z (10 ^ 4)) H h ->
      control_value 3 (inject_Z (10 ^ 4)) F factor ->
      retraction_autoCompute inputs
      = {[ "retraction_length" := Num (round64 (S + H * F)) ]}) /\
  (forall T M t m : Q,
      inputs !! "test_size" = Some (INum (Num t)) ->
      inputs !! "measured_size" = Some (INum (Num m)) ->
      control_value 2 (inject_Z (10 ^ 9)) T t ->
      control_value 3 (inject_Z (10 ^ 9)) M m ->
      tolerance_autoCompute inputs
      = {[ "tolerance_offset" := Num (round64 (T - M)) ]}).
Proof.
  split; [|split].
  - intros A S H start step h Hs Hp Hh Ca Cs Ch.
    destruct (volumetric_control A S H start step h Ca Cs Ch) as [HE Hr].
    apply (rounds_to_exact 2 _ _ HE) in Hr.
    unfold volumetric_speed_autoCompute. rewrite Hs, Hp, Hh.
    cbn [not_null isNaN to_number andb negb]. by rewrite Hr.
  - intros S H F start h factor Hs Hh Hf Cs Ch Cf.
    destruct (retraction_control S H F start h factor Cs Ch Cf) as [HE Hr].
    apply (rounds_to_exact 5 _ _ HE) in Hr.
    unfold retraction_autoCompute. rewrite Hs, Hh, Hf.
    cbn [not_null isNaN to_number andb negb]. by rewrite Hr.
  - intros T M t m Ht Hm Ct Cm.
    destruct (tolerance_control T M t m Ct Cm) as [HE Hr].
    apply (rounds_to_exact 3 _ _ HE) in Hr.
    unfold tolerance_autoCompute. rewrite Ht, Hm.
    cbn [not_null isNaN to_number andb negb]. by rewrite Hr.
Qed.

Lemma formulas_exact_at_control_precision_witness :
  volumetric_speed_autoCompute example_inputs
  = {[ "max_volumetric_speed"
       := Num (round64 (5 + (123 # 10) * (1 # 2))) ]}.
Proof.
  apply (proj1 (formulas_exact_at_control_precision example_inputs)
           5%Q (1 # 2)%Q (123 # 10)%Q 5%Q (1 # 2)%Q (decimal 123 1));
    first [ reflexivity
          | split; [by exists 50%Z|split; [qle|by vm_compute]]
          | split; [by exists 5%Z|split; [qle|by vm_compute]]
          | split; [by exists 123%Z|split; [qle|by vm_compute]] ].
Defined.

(* ===================================================================== *)
(** ** The step registry and the auto-compute effect *)
(* ===================================================================== *)

Lemma formula_writes_recommended
    (t : CalibrationStepType)
    (f : gmap string inval -> gmap string jsnum)
    (inputs : gmap string inval) (k : string) :
  autoCompute (STEP_CONFIGS t) = Some f ->
  is_Some (f inputs !! k) ->
  k ∈ recommendedKeys (STEP_CONFIGS t).
Proof.
  intros Hf [v Hv].
  destruct t; cbn [STEP_CONFIGS autoCompute] in Hf; try discriminate;
    injection Hf as <-; cbn [STEP_CONFIGS recommendedKeys];
    unfold volumetric_speed_autoCompute, pressure_advance_autoCompute,
      retraction_autoCompute, tolerance_autoCompute in Hv;
    cbv zeta in Hv;
    match type of Hv with
    | context [if ?c then _ else _] => destruct c
    end;
    try (by rewrite lookup_empty in Hv);
    apply lookup_singleton_Some in Hv as [<- _]; apply list_elem_of_here.
Qed.

Lemma field_label_found (config : StepConfig) (k : string) :
  k ∈ field_keys (outputFields config) ->
  exists fld, fld ∈ outputFields config /\ key fld = k /\
              field_label config k = label fld.
Proof.
  unfold field_label, field_keys.
  induction (outputFields config) as [|a l IH]; cbn [fmap list_fmap find].
  - intros H. by apply elem_of_nil in H.
  - intros H. case_bool_decide as Ha.
    + exists a. split; [apply list_elem_of_here|done].
    + apply elem_of_cons in H as [->|H]; [done|].
      destruct (IH H) as (fld & Hin & Hk & Hl).
      exists fld. split; [by apply list_elem_of_further|done].
Qed.

Lemma formula_reads_number_inputs
    (t : CalibrationStepType)
    (f : gmap string inval -> gmap string jsnum)
    (inputs inputs' : gmap string inval) :
  autoCompute (STEP_CONFIGS t) = Some f ->
  (forall k,
      k ∈ field_keys (filter (fun fld => type fld = number)
                             (inputFields (STEP_CONFIGS t))) ->
      inputs !! k = inputs' !! k) ->
  f inputs = f inputs'.
Proof.
  intros Hf H.
  destruct t; cbn [STEP_CONFIGS autoCompute] in Hf; try discriminate;
    injection Hf as <-;
    unfold volumetric_speed_autoCompute, pressure_advance_autoCompute,
      retraction_autoCompute, tolerance_autoCompute;
    repeat match goal with
           | |- context [inputs !! ?k] =>
               rewrite (H k) by (by apply (bool_decide_unpack _))
           end;
    reflexivity.
Qed.

(** X5: the registry is consistent: for every step type the recommended keys
    are keys of output fields (so [vals] always finds a label); the formula
    of the type reads number inputs of the same step type only, that is, it
    returns the same on two input records that agree on the keys of the
    type's number input fields; the keys its contract names as required are
    among these; and whatever a formula returns is stored under a
    recommended key. *)
Theorem step_registry_consistent (t : CalibrationStepType) :
  (forall k, k ∈ recommendedKeys (STEP_CONFIGS t) ->
             exists fld, fld ∈ outputFields (STEP_CONFIGS t) /\ key fld = k /\
                         field_label (STEP_CONFIGS t) k = label fld) /\
  (forall f inputs inputs',
      autoCompute (STEP_CONFIGS t) = Some f ->
      (forall k,
          k ∈ field_keys (filter (fun fld => type fld = number)
                                 (inputFields (STEP_CONFIGS t))) ->
          inputs !! k = inputs' !! k) ->
      f inputs = f inputs') /\
  (forall k, k ∈ formula_inputs t ->
             k ∈ field_keys (filter (fun fld => type fld = number)
                                    (inputFields (STEP_CONFIGS t)))) /\
  (forall f inputs k,
      autoCompute (STEP_CONFIGS t) = Some f ->
      is_Some (f inputs !! k) ->
      k ∈ recommendedKeys (STEP_CONFIGS t)).
Proof.
  split; [|split; [|split]].
  - intros k Hk. apply field_label_found.
    destruct t; cbn [STEP_CONFIGS recommendedKeys] in Hk;
      repeat (apply elem_of_cons in Hk as [->|Hk]);
      try (by apply elem_of_nil in Hk);
      by apply (bool_decide_unpack _).
  - intros f inputs inputs'. apply formula_reads_number_inputs.
  - intros k Hk.
    destruct t; cbn [formula_inputs] in Hk;
      repeat (apply elem_of_cons in Hk as [->|Hk]);
      try (by apply elem_of_nil in Hk);
      by apply (bool_decide_unpack _).
  - intros f inputs k. apply formula_writes_recommended.
Qed.

Lemma step_registry_consistent_witness :
  exists fld, fld ∈ outputFields (STEP_CONFIGS input_shaping) /\
              key fld = "frequency_y" /\
              field_label (STEP_CONFIGS input_shaping) "frequency_y" = label fld.
Proof.
  apply (proj1 (step_registry_consistent input_shaping) "frequency_y").
  by apply (bool_decide_unpack _).
Defined.

Lemma autoComputeEffect_cases
    (t : CalibrationStepType) (method : PaMethod) (form : FormValues) :
  autoComputeEffect t method form = form \/
  exists f inputs,
    autoCompute (STEP_CONFIGS t) = Some f /\
    form_inputs form = Some inputs /\
    f inputs ≠ ∅ /\
    ~ (t = pressure_advance /\ method = pattern) /\
    autoComputeEffect t method form
    = setFieldValue_result
        ((JNum <$> f inputs) ∪ default ∅ (form_result form)) form.
Proof.
  unfold autoComputeEffect.
  destruct (autoCompute (STEP_CONFIGS t)) as [f|] eqn:Hf; [|by left].
  destruct (form_inputs form) as [inputs|] eqn:Hi; [|by left].
  destruct (bool_decide (t = pressure_advance) && bool_decide (method = pattern))
    eqn:Hg; [by left|].
  destruct (0 <? size (f inputs))%nat eqn:Hsz; [|by left].
  right. exists f, inputs. split; [done|]. split; [done|]. split.
  - intros He. rewrite He, map_size_empty in Hsz. discriminate.
  - split; [|done]. intros [-> ->].
    by rewrite !bool_decide_eq_true_2 in Hg.
Qed.

(** X6: the auto-compute effect only touches the result, and there only the
    recommended keys of its step type: inputs, notes, confidence and every
    other result field are as before. Running it again on its own outcome
    changes nothing. *)
Theorem autoComputeEffect_merges
    (t : CalibrationStepType) (method : PaMethod) (form : FormValues) :
  form_inputs (autoComputeEffect t method form) = form_inputs form /\
  form_notes (autoComputeEffect t method form) = form_notes form /\
  form_confidence (autoComputeEffect t method form) = form_confidence form /\
  (forall k, k ∉ recommendedKeys (STEP_CONFIGS t) ->
             result_lookup (autoComputeEffect t method form) k
             = result_lookup form k) /\
  autoComputeEffect t method (autoComputeEffect t method form)
  = autoComputeEffect t method form.
Proof.
  destruct (autoComputeEffect_cases t method form)
    as [E|(f & inputs & Hf & Hi & Hne & Hg & E)].
  { rewrite !E. repeat split; done. }
  rewrite E. split; [done|]. split; [done|]. split; [done|]. split.
  - intros k Hk. unfold result_lookup.
    cbn [setFieldValue_result form_result mbind option_bind].
    rewrite lookup_union, lookup_fmap.
    destruct (f inputs !! k) as [v|] eqn:Hv.
    + exfalso. apply Hk. eapply formula_writes_recommended; eauto.
    + cbn [fmap option_fmap option_map]. rewrite (left_id_L None _).
      by destruct (form_result form).
  - unfold autoComputeEffect at 1. rewrite Hf.
    cbn [setFieldValue_result form_inputs form_result]. rewrite Hi.
    destruct (bool_decide (t = pressure_advance) && bool_decide (method = pattern));
      [done|].
    destruct (0 <? size (f inputs))%nat; [|done].
    unfold setFieldValue_result at 1.
    cbn [form_step_type form_inputs form_result form_notes form_confidence default].
    unfold setFieldValue_result. f_equal. f_equal. unfold Datatypes.id.
    by rewrite (assoc_L (∪)), (idemp_L (∪)).
Qed.

Lemma autoComputeEffect_merges_witness :
  result_lookup (autoComputeEffect volumetric_speed tower
                   (example_form example_inputs)) "notes_key"
  = result_lookup (example_form example_inputs) "notes_key".
Proof.
  apply (proj1 (proj2 (proj2 (proj2
           (autoComputeEffect_merges volumetric_speed tower
              (example_form example_inputs)))))).
  by apply (bool_decide_unpack _).
Defined.

(** X7: switching the pressure-advance method always discards the result
    fields held so far. After a switch to "pattern" the result is empty;
    after a switch to "tower" it holds nothing but the value of the formula
    on the inputs still in the form, and is empty when they are not all
    numeric. The inputs are never cleared by a switch. *)
Theorem pa_method_switch_resets_result
    (val : PaMethod) (s : StepContentState) (form : FormValues) :
  paMethod (handlePaMethodChange pressure_advance val s form).1 = val /\
  form_inputs (handlePaMethodChange pressure_advance val s form).2
  = form_inputs form /\
  (val = pattern ->
   form_result (handlePaMethodChange pressure_advance val s form).2 = Some ∅) /\
  (val = tower ->
   form_result (handlePaMethodChange pressure_advance val s form).2
   = Some (match form_inputs form with
           | Some inputs => JNum <$> pressure_advance_autoCompute inputs
           | None => ∅
           end)).
Proof.
  unfold handlePaMethodChange. cbn [fst snd set_paMethod paMethod].
  split; [done|]. split.
  { apply (autoComputeEffect_merges pressure_advance val
             (setFieldValue_result ∅ form)). }
  split.
  - intros ->. by rewrite autoComputeEffect_pattern.
  - intros ->. unfold autoComputeEffect.
    cbn [STEP_CONFIGS autoCompute setFieldValue_result form_inputs form_result].
    destruct (form_inputs form) as [inputs|]; [|done].
    rewrite (bool_decide_eq_false_2 (tower = pattern)) by done.
    rewrite andb_false_r.
    destruct (0 <? size (pressure_advance_autoCompute inputs))%nat eqn:Hsz.
    + cbn [setFieldValue_result form_result from_option]. f_equal.
      unfold Datatypes.id. apply map_union_empty.
    + cbn [form_result]. f_equal.
      apply Nat.ltb_ge in Hsz.
      assert (E : pressure_advance_autoCompute inputs = ∅)
        by (apply map_size_empty_iff; lia).
      by rewrite E, fmap_empty.
Qed.

Lemma pa_method_switch_resets_result_witness :
  form_result (handlePaMethodChange pressure_advance pattern
                 initialStepContent example_tower_form).2 = Some ∅.
Proof.
  apply (proj1 (proj2 (proj2 (pa_method_switch_resets_result pattern
                                initialStepContent example_tower_form)))).
  reflexivity.
Defined.

(* ===================================================================== *)
(** ** The guided flow-rate calculator *)
(* ===================================================================== *)

Section LegacyBound.
Local Open Scope Q_scope.
Lemma legacy_bound (R M : Q) :
  Qabs R <= inject_Z 1000 -> Qabs M <= inject_Z 1000 ->
  Qabs (R * (100 + M) / 100) <= inject_Z 11000.
Proof.
  intros HR HM. unfold Qdiv. rewrite !Qabs_Qmult.
  assert (H1 : Qabs (100 + M) <= 1100).
  { eapply Qle_trans; [apply Qabs_triangle|].
    change (Qabs 100) with 100. change (inject_Z 1000) with 1000 in HM. lra. }
  assert (H2 : Qabs R * Qabs (100 + M) <= 1000 * 1100).
  { apply Qmult_le_compat_nonneg; split;
      [apply Qabs_nonneg|exact HR|apply Qabs_nonneg|exact H1]. }
  change (Qabs (/ 100)) with (1 # 100).
  remember (Qabs R * Qabs (100 + M)) as p. clear - H2.
  change (inject_Z 11000) with 11000. lra.
Qed.
End LegacyBound.

(** X8: in the YOLO method the result is the current flow ratio plus the
    modifier as binary64 arithmetic evaluates it, rounded to 5 decimals. For
    values as the two controls hold them, decimals with 5 places, of
    magnitude at most 1000, it is the exact sum of the two decimals. It is
    [null] when either field is [null] or NaN. *)
Theorem yolo_result_rounded (s : StepContentState) :
  (forall old modifier : Q,
      yoloFlowRatioOld s = Some (Num old) ->
      yoloModifier s = Some (Num modifier) ->
      exists v,
        yoloResult s = Some v /\
        (forall x,
            jadd (Num old) (Num modifier) = Num x ->
            (Qabs x < inject_Z (10 ^ 21))%Q -> rounds_to 5 x v) /\
        (forall O M : Q,
            control_value 5 (inject_Z 1000) O old ->
            control_value 5 (inject_Z 1000) M modifier ->
            rounds_to 5 (O + M)%Q v /\
            has_decimals 5 (O + M)%Q /\
            v = Num (round64 (O + M)))) /\
  (yoloFlowRatioOld s ∈ [None; Some NaN] \/ yoloModifier s ∈ [None; Some NaN] ->
   yoloResult s = None).
Proof.
  split.
  - intros old modifier Ho Hm. eexists. split; [|split].
    + unfold yoloResult. rewrite Ho, Hm. reflexivity.
    + intros x Hx Hb. cbn [calc_number]. rewrite Hx.
      by apply parseFloat_toFixed_rounds.
    + intros O M Co Cm.
      destruct (yolo_control O M old modifier Co Cm) as [HE Hr].
      split; [exact Hr|]. split; [exact HE|]. by apply (rounds_to_exact 5).
  - unfold yoloResult. intros [H|H];
      apply elem_of_cons in H as [->|H];
      try (apply list_elem_of_singleton in H as ->);
      cbn [calc_not_null calc_isNaN calc_number andb negb];
      try reflexivity;
      by destruct (yoloFlowRatioOld s) as [[|?]|], (yoloModifier s) as [[|?]|].
Qed.

Lemma yolo_result_rounded_witness :
  exists v,
    yoloResult (set_flow pass1 (Some (Num 1)) (Some (Num (decimal 5 2)))
                  None None None None initialStepContent) = Some v /\
    (forall x,
        jadd (Num 1) (Num (decimal 5 2)) = Num x ->
        (Qabs x < inject_Z (10 ^ 21))%Q -> rounds_to 5 x v) /\
    (forall O M : Q,
        control_value 5 (inject_Z 1000) O 1 ->
        control_value 5 (inject_Z 1000) M (decimal 5 2) ->
        rounds_to 5 (O + M)%Q v /\
        has_decimals 5 (O + M)%Q /\
        v = Num (round64 (O + M))).
Proof.
  apply (proj1 (yolo_result_rounded _) 1%Q (decimal 5 2)); reflexivity.
Defined.

Lemma flow_apply_pass2 (s : StepContentState) (form : FormValues) :
  flowCalcPhase s = pass2 -> is_Some (pass2Result s) ->
  content_step flow_rate FlowApply (s, form) = applyFlowCalc s form.
Proof.
  intros Hp [r Hr]. cbn [content_step]. rewrite Hp, Hr.
  rewrite !bool_decide_eq_true_2 by done.
  rewrite (bool_decide_eq_false_2 (pass2 = pass1)) by done.
  reflexivity.
Qed.

(** X9: a complete Legacy calculation, with a flow ratio and percentages as
    the controls hold them (decimals with 5 places and 1 place, of magnitude
    at most 1000). From the calculator's initial state, choosing Legacy,
    starting, entering the flow ratio and the first percentage, going on to
    pass 2, entering the second percentage and applying writes into
    [result.flow_ratio] the second pass formula applied to the rounded result
    of the first pass: pass 2 is seeded with exactly the pass-1 result. The
    other result fields are kept and the calculator is back in its idle
    state with the method still Legacy. *)
Theorem legacy_two_pass_run
    (R M1 M2 ratio m1 m2 : Q) (form : FormValues) :
  control_value 5 (inject_Z 1000) R ratio ->
  control_value 1 (inject_Z 1000) M1 m1 ->
  control_value 1 (inject_Z 1000) M2 m2 ->
  exists r1 r2 : Q,
    rounded_to 5 (R * (100 + M1) / 100)%Q r1 /\
    rounded_to 5 (r1 * (100 + M2) / 100)%Q r2 /\
    pass2FlowRatio
      (content_run flow_rate
         [FlowMethodChange legacy; FlowStart;
          Pass1FlowRatioChange (Some (Num ratio));
          Pass1ModifierChange (Some (Num m1)); Pass1Next]
         (initialStepContent, form)).1 = Some (Num (round64 r1)) /\
    content_run flow_rate
      [FlowMethodChange legacy; FlowStart;
       Pass1FlowRatioChange (Some (Num ratio));
       Pass1ModifierChange (Some (Num m1)); Pass1Next;
       Pass2ModifierChange (Some (Num m2)); FlowApply]
      (initialStepContent, form)
    = (handleFlowMethodChange legacy initialStepContent,
       setFieldValue_result
         (<["flow_ratio" := JNum (Num (round64 r2))]>
            (default ∅ (form_result form)))
         form).
Proof.
  intros CR C1 C2.
  assert (CR' : control_value 5 (inject_Z (10 ^ 5)) R ratio).
  { destruct CR as (? & ? & ?). split; [done|]. split; [|done].
    eapply Qle_trans; [eassumption|qle]. }
  destruct (legacy_control R M1 ratio m1 CR' C1) as (r1 & H1 & E1).
  assert (Cr1 : control_value 5 (inject_Z (10 ^ 5)) r1 (round64 r1)).
  { split; [exact (proj1 H1)|]. split; [|done].
    destruct CR as (_ & BR & _), C1 as (_ & BM & _).
    pose proof (legacy_bound R M1 BR BM) as Hb.
    destruct H1 as [_ Hd].
    setoid_replace r1 with ((r1 - R * (100 + M1) / 100)
                            + R * (100 + M1) / 100)%Q
      using relation Qeq by ring.
    eapply Qle_trans; [apply Qabs_triangle|].
    eapply Qle_trans; [apply Qplus_le_compat; eassumption|]. qle. }
  destruct (legacy_control r1 M2 (round64 r1) m2 Cr1 C2) as (r2 & H2 & E2).
  exists r1, r2. split; [done|]. split; [done|].
  assert (Hfive :
    content_run flow_rate
      [FlowMethodChange legacy; FlowStart;
       Pass1FlowRatioChange (Some (Num ratio));
       Pass1ModifierChange (Some (Num m1)); Pass1Next]
      (initialStepContent, form)
    = (set_flow pass2 (Some (Num 1)) None
         (Some (Num ratio)) (Some (Num m1)) (Some (Num (round64 r1))) None
         (handleFlowMethodChange legacy initialStepContent), form)).
  { unfold content_run.
    cbv -[parseFloat toFixed jadd jmul jdiv round64].
    by rewrite E1. }
  split; [by rewrite Hfive|].
  unfold content_run in *.
  change (foldl ?f ?st [?a; ?b; ?c; ?d; ?e; ?g; ?h])
    with (f (f (foldl f st [a; b; c; d; e]) g) h).
  rewrite Hfive.
  assert (Hsix :
    content_step flow_rate (Pass2ModifierChange (Some (Num m2)))
      (set_flow pass2 (Some (Num 1)) None
         (Some (Num ratio)) (Some (Num m1)) (Some (Num (round64 r1))) None
         (handleFlowMethodChange legacy initialStepContent), form)
    = (set_flow pass2 (Some (Num 1)) None
         (Some (Num ratio)) (Some (Num m1)) (Some (Num (round64 r1)))
         (Some (Num m2))
         (handleFlowMethodChange legacy initialStepContent), form))
    by reflexivity.
  rewrite Hsix.
  assert (Hres :
    pass2Result
      (set_flow pass2 (Some (Num 1)) None
         (Some (Num ratio)) (Some (Num m1)) (Some (Num (round64 r1)))
         (Some (Num m2))
         (handleFlowMethodChange legacy initialStepContent))
    = Some (Num (round64 r2))).
  { unfold pass2Result.
    cbn [set_flow pass2FlowRatio pass2Modifier calc_not_null calc_isNaN
         calc_number andb negb].
    by rewrite E2. }
  rewrite flow_apply_pass2 by (by rewrite ?Hres).
  unfold applyFlowCalc. rewrite Hres. reflexivity.
Qed.

Lemma legacy_two_pass_run_witness :
  exists r1 r2 : Q,
    rounded_to 5 (1 * (100 + - (25 # 10)) / 100)%Q r1 /\
    rounded_to 5 (r1 * (100 + (15 # 10)) / 100)%Q r2 /\
    pass2FlowRatio
      (content_run flow_rate
         [FlowMethodChange legacy; FlowStart;
          Pass1FlowRatioChange (Some (Num (decimal 1 0)));
          Pass1ModifierChange (Some (Num (decimal (-25) 1))); Pass1Next]
         (initialStepContent, resetFields)).1 = Some (Num (round64 r1)) /\
    content_run flow_rate
      [FlowMethodChange legacy; FlowStart;
       Pass1FlowRatioChange (Some (Num (decimal 1 0)));
       Pass1ModifierChange (Some (Num (decimal (-25) 1))); Pass1Next;
       Pass2ModifierChange (Some (Num (decimal 15 1))); FlowApply]
      (initialStepContent, resetFields)
    = (handleFlowMethodChange legacy initialStepContent,
       setFieldValue_result
         (<["flow_ratio" := JNum (Num (round64 r2))]>
            (default ∅ (form_result resetFields)))
         resetFields).
Proof.
  apply (legacy_two_pass_run 1 (- (25 # 10)) (15 # 10)
           (decimal 1 0) (decimal (-25) 1) (decimal 15 1) resetFields).
  - split; [by exists 100000%Z|split; [qle|reflexivity]].
  - split; [by exists (-25)%Z|split; [qle|]].
    apply round64_Qeq. reflexivity.
  - split; [by exists 15%Z|split; [qle|reflexivity]].
Defined.

(** X10: on the flow-rate step nothing but Apply and the user's own edits of
    the result, notes and confidence fields changes the form: choosing a
    method, starting, typing into the calculator, Cancel, Next and Back leave
    it as it is. Apply while no result is available changes neither the form
    nor the calculator. *)
Theorem flow_calculator_writes_on_apply_only
    (e : ContentEvent) (s : StepContentState) (form : FormValues) :
  (e ≠ FlowApply ->
   (forall k v, e ≠ ResultChange k v) ->
   (forall v, e ≠ NotesChange v) -> (forall v, e ≠ ConfidenceChange v) ->
   (content_step flow_rate e (s, form)).2 = form) /\
  (e = FlowApply ->
   match flowCalcPhase s with
   | idle => True
   | pass1 => flowCalcMethod s = legacy \/ yoloResult s = None
   | pass2 => pass2Result s = None
   end ->
   content_step flow_rate e (s, form) = (s, form)).
Proof.
  split.
  - intros Ha Hr Hn Hc.
    destruct e; try done; cbn [content_step];
      rewrite ?(bool_decide_eq_false_2 (flow_rate = vfa)) by done;
      rewrite ?(bool_decide_eq_false_2 (flow_rate = pressure_advance)) by done;
      cbn [andb];
      try (by repeat match goal with
                     | |- context [if ?c then _ else _] => destruct c
                     end).
    + by destruct (Hr k v).
    + by destruct (Hn v).
    + by destruct (Hc v).
  - intros -> Hdis. cbn [content_step].
    rewrite bool_decide_eq_true_2 by done. cbn [andb].
    destruct (flowCalcPhase s);
      rewrite ?bool_decide_eq_true_2 by done;
      rewrite ?(bool_decide_eq_false_2 (idle = pass1)) by done;
      rewrite ?(bool_decide_eq_false_2 (idle = pass2)) by done;
      rewrite ?(bool_decide_eq_false_2 (pass1 = pass2)) by done;
      rewrite ?(bool_decide_eq_false_2 (pass2 = pass1)) by done;
      cbn [andb orb]; try done.
    + destruct Hdis as [-> | ->]; [|by rewrite andb_false_r].
      by rewrite (bool_decide_eq_false_2 (legacy = yolo)).
    + by rewrite Hdis.
Qed.

Lemma flow_calculator_writes_on_apply_only_witness :
  (content_step flow_rate Pass1Next (example_pass1_done, resetFields)).2
  = resetFields.
Proof.
  apply (proj1 (flow_calculator_writes_on_apply_only
                  Pass1Next example_pass1_done resetFields)); done.
Defined.

(* ===================================================================== *)
(** ** The order of the artifact-speed list *)
(* ===================================================================== *)

Section SpeedList.
Local Open Scope Q_scope.

Lemma Qle_bool_false_le (a b : Q) : Qle_bool a b = false -> b <= a.
Proof.
  intros H. apply Qlt_le_weak, Qnot_le_lt. intros Hle.
  apply Qle_bool_iff in Hle. congruence.
Qed.

Lemma insert_asc_perm (v : Q) (xs : list Q) : insert_asc v xs ≡ₚ v :: xs.
Proof.
  induction xs as [|x xs IH]; cbn [insert_asc]; [done|].
  destruct (Qle_bool x v); [|done].
  rewrite IH. apply Permutation_swap.
Qed.

Lemma insert_asc_sorted (v : Q) (xs : list Q) :
  StronglySorted Qle xs -> StronglySorted Qle (insert_asc v xs).
Proof.
  induction xs as [|x xs IH]; cbn [insert_asc]; intros Hs.
  - repeat constructor.
  - apply StronglySorted_cons in Hs as [Hx Hs].
    destruct (Qle_bool x v) eqn:E.
    + apply StronglySorted_cons. split; [|by apply IH].
      rewrite (insert_asc_perm v xs). constructor; [|done].
      by apply Qle_bool_iff.
    + apply Qle_bool_false_le in E.
      apply StronglySorted_cons. split.
      * constructor; [done|].
        eapply Forall_impl; [exact Hx|]. intros y Hy. cbn beta in Hy. lra.
      * by apply StronglySorted_cons.
Qed.

Lemma sort_asc_from (acc xs : list Q) :
  StronglySorted Qle acc ->
  StronglySorted Qle (foldl (fun a v => insert_asc v a) acc xs) /\
  foldl (fun a v => insert_asc v a) acc xs ≡ₚ (xs ++ acc)%list.
Proof.
  revert acc. induction xs as [|x xs IH]; intros acc Hacc; cbn [foldl].
  - by split.
  - destruct (IH (insert_asc x acc) (insert_asc_sorted x acc Hacc))
      as [Hs Hp].
    split; [done|]. rewrite Hp, insert_asc_perm. cbn [app].
    by rewrite Permutation_middle.
Qed.

Lemma sort_asc_spec (xs : list Q) :
  StronglySorted Qle (sort_asc xs) /\ sort_asc xs ≡ₚ xs.
Proof.
  destruct (sort_asc_from [] xs) as [Hs Hp]; [constructor|].
  split; [done|]. by rewrite app_nil_r in Hp.
Qed.

Lemma delete_sorted (idx : nat) (xs : list Q) :
  StronglySorted Qle xs -> StronglySorted Qle (delete idx xs).
Proof.
  revert idx. induction xs as [|x xs IH]; intros idx Hs; [by destruct idx|].
  apply StronglySorted_cons in Hs as [Hx Hs].
  destruct idx as [|idx]; cbn [delete list_delete]; [done|].
  apply StronglySorted_cons. split; [|by apply IH].
  eapply Forall_forall. intros y Hy.
  eapply Forall_forall; [exact Hx|].
  by eapply list_elem_of_delete_inv.
Qed.

Lemma Math_min_sorted (x : Q) (xs : list Q) :
  Forall (Qle x) xs -> Math_min x xs = x.
Proof.
  unfold Math_min. induction xs as [|y xs IH]; intros H; cbn [foldl]; [done|].
  apply Forall_cons in H as [Hy H]. unfold qmin at 2.
  apply Qle_bool_iff in Hy. rewrite Hy. by apply IH.
Qed.

Lemma Math_max_sorted (x : Q) (xs : list Q) :
  StronglySorted Qle (x :: xs) -> Some (Math_max x xs) = last (x :: xs).
Proof.
  unfold Math_max. revert x.
  induction xs as [|y xs IH]; intros x Hs; cbn [foldl]; [done|].
  apply StronglySorted_cons in Hs as [Hx Hs].
  apply Forall_cons in Hx as [Hy Hx]. unfold qmax at 2.
  apply Qle_bool_iff in Hy. rewrite Hy, last_cons_cons. by apply IH.
Qed.

End SpeedList.

(** X11: adding a speed puts it into the list and keeps the list in
    ascending order: the new list is an ordered rearrangement of the old
    entries and the new one (duplicates are kept), and the entry field is
    cleared. Without a number in the entry field ([null] or NaN) nothing is
    added. *)
Theorem addArtifactSpeed_sorted (s : StepContentState) :
  (forall v, newArtifactSpeed s = Some (Num v) ->
             exists s', addArtifactSpeed s = Some s' /\
                        artifactSpeeds s' ≡ₚ v :: artifactSpeeds s /\
                        StronglySorted Qle (artifactSpeeds s') /\
                        newArtifactSpeed s' = None /\
                        paMethod s' = paMethod s /\
                        flowCalcPhase s' = flowCalcPhase s) /\
  (newArtifactSpeed s ∈ [None; Some NaN] -> addArtifactSpeed s = None).
Proof.
  split.
  - intros v Hv. unfold addArtifactSpeed. rewrite Hv. eexists.
    split; [reflexivity|]. cbn [set_artifactSpeeds artifactSpeeds
      newArtifactSpeed paMethod flowCalcPhase].
    destruct (sort_asc_spec (artifactSpeeds s ++ [v])) as [Hs Hp].
    split; [|by repeat split].
    rewrite Hp. symmetry. apply Permutation_cons_append.
  - intros H. unfold addArtifactSpeed.
    apply elem_of_cons in H as [->|H]; [done|].
    by apply list_elem_of_singleton in H as ->.
Qed.

Lemma addArtifactSpeed_sorted_witness :
  exists s',
    addArtifactSpeed (set_artifactSpeeds [80; 200]%Q (Some (Num 120))
                        initialStepContent) = Some s' /\
    artifactSpeeds s' ≡ₚ
      120%Q :: artifactSpeeds (set_artifactSpeeds [80; 200]%Q (Some (Num 120))
                                 initialStepContent) /\
    StronglySorted Qle (artifactSpeeds s') /\
    newArtifactSpeed s' = None /\
    paMethod s' = paMethod (set_artifactSpeeds [80; 200]%Q (Some (Num 120))
                              initialStepContent) /\
    flowCalcPhase s' = flowCalcPhase (set_artifactSpeeds [80; 200]%Q
                                        (Some (Num 120)) initialStepContent).
Proof.
  apply (proj1 (addArtifactSpeed_sorted _) 120%Q). reflexivity.
Defined.

Lemma content_step_speeds_sorted
    (t : CalibrationStepType) (e : ContentEvent)
    (st : StepContentState * FormValues) :
  StronglySorted Qle (artifactSpeeds st.1) ->
  StronglySorted Qle (artifactSpeeds (content_step t e st).1).
Proof.
  destruct st as [s form]. cbn [fst]. intros Hs.
  destruct e; cbn [content_step];
    repeat match goal with
           | |- context [if ?c then _ else _] => destruct c
           end;
    cbn [fst set_flow handleFlowMethodChange resetFlowCalcState
         set_artifactSpeeds artifactSpeeds]; try done.
  - destruct (addArtifactSpeed s) as [s'|] eqn:E; [|done]. cbn [fst].
    unfold addArtifactSpeed in E.
    destruct (newArtifactSpeed s) as [[|v]|]; try discriminate.
    injection E as <-. cbn [set_artifactSpeeds artifactSpeeds].
    apply sort_asc_spec.
  - unfold removeArtifactSpeed. cbn [set_artifactSpeeds artifactSpeeds].
    by apply delete_sorted.
Qed.

(** X12: the artifact-speed list stays in ascending order through every
    sequence of events of StepContent, on every step type; with the list in
    order, the VFA effect writes its first entry as [min_avoidance_speed]
    and its last entry as [max_avoidance_speed]. *)
Theorem artifactSpeeds_stay_sorted
    (t : CalibrationStepType) (l : list ContentEvent)
    (st : StepContentState * FormValues) :
  StronglySorted Qle (artifactSpeeds st.1) ->
  StronglySorted Qle (artifactSpeeds (content_run t l st).1) /\
  forall x xs form,
    artifactSpeeds (content_run t l st).1 = x :: xs ->
    result_lookup (vfaEffect vfa (x :: xs) form) "min_avoidance_speed"
      = Some (JNum (Num x)) /\
    (JNum ∘ Num <$> last (x :: xs))
      = result_lookup (vfaEffect vfa (x :: xs) form) "max_avoidance_speed".
Proof.
  intros Hs.
  assert (Hrun : StronglySorted Qle (artifactSpeeds (content_run t l st).1)).
  { unfold content_run. revert st Hs.
    induction l as [|e l IH]; intros st Hs; [done|].
    cbn [foldl]. apply IH. by apply content_step_speeds_sorted. }
  split; [done|].
  intros x xs form E. rewrite E in Hrun.
  destruct (vfaEffect_nonempty x xs form) as [Hmin Hmax].
  rewrite Hmin, Hmax, <- (Math_max_sorted x xs Hrun).
  split; [|done].
  apply StronglySorted_cons in Hrun as [Hx _].
  by rewrite (Math_min_sorted x xs Hx).
Qed.

Lemma artifactSpeeds_stay_sorted_witness :
  StronglySorted Qle
    (artifactSpeeds
       (content_run vfa
          [NewArtifactSpeedChange (Some (Num 120)); AddArtifactSpeed;
           NewArtifactSpeedChange (Some (Num 80)); AddArtifactSpeed;
           RemoveArtifactSpeed 1]
          (initialStepContent, resetFields)).1).
Proof.
  apply (proj1 (artifactSpeeds_stay_sorted vfa _
                  (initialStepContent, resetFields)
                  ltac:(constructor))).
Defined.

(* ===================================================================== *)
(** ** Navigation in the wizard *)
(* ===================================================================== *)

Lemma startIdx_in_range (done : gset CalibrationStepType) :
  startIdx done < length WIZARD_STEP_ORDER.
Proof.
  destruct (startIdx_spec done) as [(t & E & _)|[-> _]].
  - by apply lookup_lt_Some in E.
  - cbn. lia.
Qed.

(** [navigateTo] moves to the index it is given, whatever it is. *)
Lemma navigateTo_currentIdx (i : nat) (w : Wizard) :
  currentIdx (navigateTo i w) = i.
Proof. reflexivity. Qed.

Lemma markComplete_currentIdx (updated : bool) (w : Wizard) :
  currentIdx (markComplete updated w) = currentIdx w.
Proof. by destruct updated. Qed.

Lemma next_index_in_range (w : Wizard) :
  currentIdx w < length WIZARD_STEP_ORDER -> isLast w = false ->
  currentIdx w + 1 < length WIZARD_STEP_ORDER.
Proof.
  intros H Hl. unfold isLast in Hl. apply bool_decide_eq_false in Hl.
  cbn [length WIZARD_STEP_ORDER] in *. lia.
Qed.

(** Every call of [navigateTo] passes an index inside the step order. *)
Lemma wizard_step_in_range (a : WizardAction) (w : Wizard) :
  currentIdx w < length WIZARD_STEP_ORDER ->
  currentIdx (wizard_step a w) < length WIZARD_STEP_ORDER.
Proof.
  intros H. unfold wizard_step. destruct (wopen w); cbn [negb]; [|done].
  destruct a.
  - case_bool_decide; [by rewrite navigateTo_currentIdx|done].
  - destruct (isFirst w); [done|]. rewrite navigateTo_currentIdx. lia.
  - unfold handleSkip. destruct (isLast w) eqn:Hl;
      [destruct confirmed; [by rewrite markComplete_currentIdx|done]|].
    rewrite navigateTo_currentIdx. by apply next_index_in_range.
  - unfold handleSaveAndContinue, saveCurrentStep.
    destruct (isLast w) eqn:Hl, (currentStepType w), created; try done;
      [by rewrite markComplete_currentIdx|].
    rewrite navigateTo_currentIdx. by apply next_index_in_range.
  - case_bool_decide; [|done]. unfold handleSaveAsSkipped.
    destruct (currentStepType w), created; try done.
    destruct (isLast w) eqn:Hl; [by rewrite markComplete_currentIdx|].
    rewrite navigateTo_currentIdx. by apply next_index_in_range.
  - done.
  - by destruct (currentStepType w).
Qed.

(** X13: the wizard is always on one of the nine steps. [navigateTo] moves
    to whatever index it is given, but from opening on any session, through
    any sequence of actions (clicks on the entries of the sidebar, Back,
    Skip, saves, failed requests), every index it is given lies inside the
    step order: Back on the first step and Skip or Save on the last step
    never move the wizard out. *)
Theorem wizard_stays_on_a_step
    (s : ICalibrationSession) (clock : nat) (actions : list WizardAction) :
  currentIdx (run_wizard actions (mount s clock)) < 9 /\
  (exists t, currentStepType (run_wizard actions (mount s clock)) = Some t) /\
  (forall i w,
      currentIdx (navigateTo i w) = i /\
      currentStepType (navigateTo i w) = WIZARD_STEP_ORDER !! i).
Proof.
  assert (H : currentIdx (run_wizard actions (mount s clock))
              < length WIZARD_STEP_ORDER).
  { unfold run_wizard.
    generalize (startIdx_in_range (session_doneTypes s)).
    rewrite <- (mount_currentIdx s clock).
    generalize (mount s clock) as w.
    induction actions as [|a actions IH]; intros w Hw; [done|].
    cbn [foldl]. apply IH. by apply wizard_step_in_range. }
  split; [exact H|]. split; [|done].
  unfold currentStepType. by apply lookup_lt_is_Some_2.
Qed.

Lemma wizard_step_no_create (a : WizardAction) (w : Wizard) :
  creates_step a = false ->
  doneTypes (wizard_step a w) = doneTypes w /\
  stored_steps (wizard_step a w) = stored_steps w.
Proof.
  intros Ha. unfold wizard_step. destruct (wopen w); cbn [negb]; [|done].
  destruct a; cbn [creates_step] in Ha.
  - case_bool_decide; [|done].
    split; [apply navigateTo_doneTypes|].
    unfold stored_steps. by rewrite navigateTo_backend.
  - destruct (isFirst w); [done|].
    split; [apply navigateTo_doneTypes|].
    unfold stored_steps. by rewrite navigateTo_backend.
  - unfold handleSkip. destruct (isLast w).
    + destruct confirmed; [|done].
      split; [apply markComplete_doneTypes|apply markComplete_steps].
    + split; [apply navigateTo_doneTypes|].
      unfold stored_steps. by rewrite navigateTo_backend.
  - destruct created; [discriminate|].
    unfold handleSaveAndContinue, saveCurrentStep.
    by destruct (isLast w), (currentStepType w).
  - destruct created; [discriminate|].
    case_bool_decide; [|done]. unfold handleSaveAsSkipped.
    by destruct (currentStepType w).
  - done.
  - by destruct (currentStepType w).
Qed.

Lemma stores_prefix (w w' : Wizard) :
  stores w w' ->
  stored_steps w `prefix_of` stored_steps w' /\
  doneTypes w ⊆ doneTypes w' /\
  length (stored_steps w') <= S (length (stored_steps w)).
Proof.
  intros [w0 w0' Hd Hs|w0 w0' t values _ _ Hd Hs]; rewrite Hd, Hs.
  - repeat split; [done|done|lia].
  - split; [by apply prefix_app_r|]. split; [apply union_subseteq_r|].
    rewrite length_app. cbn [length]. lia.
Qed.

(** X14: the wizard only ever appends to the steps stored for the session:
    through any run the steps stored before remain, in order, as a prefix,
    the done-set only grows, and the number of steps grows by at most the
    number of successful create requests. Navigation, Skip on a step that is
    not the last, Back, Close, edits of the form and failed requests store
    nothing and leave the done-set as it is. *)
Theorem wizard_only_appends (actions : list WizardAction) (w : Wizard) :
  stored_steps w `prefix_of` stored_steps (run_wizard actions w) /\
  doneTypes w ⊆ doneTypes (run_wizard actions w) /\
  length (stored_steps (run_wizard actions w))
    <= length (stored_steps w) + length (filter (fun a => creates_step a = true) actions) /\
  (Forall (fun a => creates_step a = false) actions ->
   stored_steps (run_wizard actions w) = stored_steps w /\
   doneTypes (run_wizard actions w) = doneTypes w).
Proof.
  unfold run_wizard. revert w.
  induction actions as [|a actions IH]; intros w; cbn [foldl].
  { repeat split; [done|done|cbn; lia]. }
  destruct (IH (wizard_step a w)) as (Hp & Hd & Hl & Hn).
  destruct (stores_prefix _ _ (wizard_step_stores a w)) as (Hp1 & Hd1 & Hl1).
  split; [by etrans|]. split; [by etrans|]. split.
  - rewrite filter_cons. case_decide as Ha.
    + cbn [length]. lia.
    + apply not_true_is_false in Ha.
      destruct (wizard_step_no_create a w Ha) as [_ Hs].
      rewrite Hs in Hl. lia.
  - intros Hall. apply Forall_cons in Hall as [Ha Hall].
    destruct (Hn Hall) as [Hs' Hd']. rewrite Hs', Hd'.
    by destruct (wizard_step_no_create a w Ha).
Qed.

Lemma wizard_only_appends_witness :
  stored_steps (run_wizard [SidebarClick 3; Skip false false; Back; Close]
                  example_last_step) = stored_steps example_last_step /\
  doneTypes (run_wizard [SidebarClick 3; Skip false false; Back; Close]
               example_last_step) = doneTypes example_last_step.
Proof.
  apply (proj2 (proj2 (proj2 (wizard_only_appends
           [SidebarClick 3; Skip false false; Back; Close]
           example_last_step)))).
  repeat constructor.
Defined.

(* ===================================================================== *)
(** ** Saving, skipping and failed requests *)
(* ===================================================================== *)

Lemma next_in_range (w : Wizard) (t : CalibrationStepType) :
  currentStepType w = Some t -> isLast w = false ->
  exists t', WIZARD_STEP_ORDER !! (currentIdx w + 1) = Some t' /\ t' ≠ t.
Proof.
  unfold currentStepType, isLast. intros Ht Hl.
  apply bool_decide_eq_false in Hl.
  assert (Hlt : currentIdx w < 9) by (by apply lookup_lt_Some in Ht).
  cbn in Hl.
  destruct (currentIdx w) as [|[|[|[|[|[|[|[|[|n]]]]]]]]];
    try lia; cbn in Ht |- *; injection Ht as <-; by eexists.
Qed.

Lemma navigateTo_next
    (w : Wizard) (t t' : CalibrationStepType) (i : nat) :
  currentStepType w = Some t -> WIZARD_STEP_ORDER !! i = Some t' ->
  currentIdx (navigateTo i w) = i /\
  savedValues (navigateTo i w) = <[t := form w]> (savedValues w) /\
  wopen (navigateTo i w) = wopen w.
Proof.
  unfold currentStepType, navigateTo. intros -> ->. done.
Qed.

(** X15: Save & Continue on a step that is not the last stores one step of
    the current type holding exactly the form (inputs, the result as both
    [outputs] and [selected_values], notes, confidence), marks the type done,
    keeps the form in the cache and moves to the next index; the session
    status is untouched. Skip on such a step moves to the next index and
    keeps the form in the cache, but stores nothing and does not mark the
    type done. *)
Theorem save_and_skip_advance
    (w : Wizard) (t : CalibrationStepType) (updated : bool) :
  wopen w = true -> currentStepType w = Some t -> isLast w = false ->
  (currentIdx (wizard_step (SaveAndContinue true updated) w) = currentIdx w + 1 /\
   stored_steps (wizard_step (SaveAndContinue true updated) w)
   = (stored_steps w
      ++ [db_newStep t (saveCurrentStep_values t (form w)) (backend w)])%list /\
   doneTypes (wizard_step (SaveAndContinue true updated) w)
   = {[ t ]} ∪ doneTypes w /\
   savedValues (wizard_step (SaveAndContinue true updated) w) !! t
   = Some (form w) /\
   stored_status (wizard_step (SaveAndContinue true updated) w)
   = stored_status w /\
   wopen (wizard_step (SaveAndContinue true updated) w) = true) /\
  (currentIdx (wizard_step (Skip true updated) w) = currentIdx w + 1 /\
   stored_steps (wizard_step (Skip true updated) w) = stored_steps w /\
   doneTypes (wizard_step (Skip true updated) w) = doneTypes w /\
   savedValues (wizard_step (Skip true updated) w) !! t = Some (form w) /\
   wopen (wizard_step (Skip true updated) w) = true).
Proof.
  intros Hopen Ht Hlast.
  destruct (next_in_range w t Ht Hlast) as (t' & Hnext & _).
  unfold wizard_step. rewrite Hopen. cbn [negb].
  unfold handleSaveAndContinue, handleSkip, saveCurrentStep.
  rewrite Hlast, Ht. split.
  - set (w1 := with_created t (saveCurrentStep_values t (form w)) w).
    destruct (navigateTo_next w1 t t' (currentIdx w + 1) Ht Hnext)
      as (Hi & Hsv & Ho).
    change (currentIdx w1) with (currentIdx w).
    rewrite Hi, Hsv, Ho, navigateTo_doneTypes, navigateTo_status.
    unfold stored_steps. rewrite navigateTo_backend, lookup_insert_eq.
    repeat split; done.
  - destruct (navigateTo_next w t t' (currentIdx w + 1) Ht Hnext)
      as (Hi & Hsv & Ho).
    rewrite Hi, Hsv, Ho, navigateTo_doneTypes.
    unfold stored_steps. rewrite navigateTo_backend, lookup_insert_eq.
    repeat split; done.
Qed.

Lemma save_and_skip_advance_witness :
  currentIdx (wizard_step (Skip true true) (mount (example_session 1 []) 0))
    = currentIdx (mount (example_session 1 []) 0) + 1 /\
  stored_steps (wizard_step (Skip true true) (mount (example_session 1 []) 0))
    = stored_steps (mount (example_session 1 []) 0) /\
  doneTypes (wizard_step (Skip true true) (mount (example_session 1 []) 0))
    = doneTypes (mount (example_session 1 []) 0) /\
  savedValues (wizard_step (Skip true true) (mount (example_session 1 []) 0))
    !! temperature = Some (form (mount (example_session 1 []) 0)) /\
  wopen (wizard_step (Skip true true) (mount (example_session 1 []) 0)) = true.
Proof.
  apply (proj2 (save_and_skip_advance (mount (example_session 1 []) 0)
                  temperature true eq_refl eq_refl eq_refl)).
Defined.

(** X16: a failed request changes nothing: after a failed create (Save, or
    skip-as-not-applicable) and after a failed status update of the
    skip-to-finish the wizard, the stored steps and the status are as
    before. When on the last step the create succeeds and the status update
    fails, the step is stored and its type marked done while the wizard stays
    open on the last step with the status unchanged; saving again then
    stores the last step a second time before completing the session. *)
Theorem failed_requests (w : Wizard) (updated : bool) :
  wizard_step (SaveAndContinue false updated) w = w /\
  wizard_step (SkipNotApplicable false updated) w = w /\
  (isLast w = true -> wizard_step (Skip true false) w = w) /\
  (wopen w = true -> isLast w = true ->
   wopen (wizard_step (SaveAndContinue true false) w) = true /\
   currentIdx (wizard_step (SaveAndContinue true false) w) = currentIdx w /\
   stored_status (wizard_step (SaveAndContinue true false) w)
   = stored_status w /\
   stored_steps (wizard_step (SaveAndContinue true false) w)
   = (stored_steps w
      ++ [db_newStep vfa (saveCurrentStep_values vfa (form w)) (backend w)])%list /\
   length (stored_steps
             (run_wizard [SaveAndContinue true false; SaveAndContinue true true] w))
   = length (stored_steps w) + 2 /\
   stored_status
     (run_wizard [SaveAndContinue true false; SaveAndContinue true true] w)
   = complete).
Proof.
  split; [|split; [|split]].
  - unfold wizard_step, handleSaveAndContinue, saveCurrentStep.
    by destruct (wopen w), (isLast w), (currentStepType w).
  - unfold wizard_step, handleSaveAsSkipped.
    destruct (wopen w); [|done]. cbn [negb].
    case_bool_decide; [|done]. by destruct (currentStepType w).
  - intros Hl. unfold wizard_step, handleSkip. rewrite Hl.
    by destruct (wopen w).
  - intros Hopen Hlast.
    pose proof (isLast_currentStepType w Hlast) as Ht.
    assert (E : wizard_step (SaveAndContinue true false) w
                = with_created vfa (saveCurrentStep_values vfa (form w)) w).
    { unfold wizard_step, handleSaveAndContinue, saveCurrentStep.
      by rewrite Hopen, Hlast, Ht. }
    cbn [run_wizard foldl]. rewrite E.
    split; [done|]. split; [done|]. split; [done|]. split; [done|].
    set (w1 := with_created vfa (saveCurrentStep_values vfa (form w)) w).
    assert (E1 : wizard_step (SaveAndContinue true true) w1
                 = markComplete true
                     (with_created vfa (saveCurrentStep_values vfa (form w1)) w1)).
    { unfold wizard_step, handleSaveAndContinue, saveCurrentStep.
      change (wopen w1) with (wopen w). change (isLast w1) with (isLast w).
      change (currentStepType w1) with (currentStepType w).
      by rewrite Hopen, Hlast, Ht. }
    rewrite E1. split; [|done].
    unfold stored_steps. cbn. rewrite !length_app. cbn. lia.
Qed.

Lemma failed_requests_witness :
  wopen (wizard_step (SaveAndContinue true false) example_last_step) = true /\
  currentIdx (wizard_step (SaveAndContinue true false) example_last_step)
    = currentIdx example_last_step /\
  stored_status (wizard_step (SaveAndContinue true false) example_last_step)
    = stored_status example_last_step /\
  stored_steps (wizard_step (SaveAndContinue true false) example_last_step)
    = (stored_steps example_last_step
       ++ [db_newStep vfa (saveCurrentStep_values vfa (form example_last_step))
             (backend example_last_step)])%list /\
  length (stored_steps
            (run_wizard [SaveAndContinue true false; SaveAndContinue true true]
               example_last_step))
    = length (stored_steps example_last_step) + 2 /\
  stored_status
    (run_wizard [SaveAndContinue true false; SaveAndContinue true true]
       example_last_step) = complete.
Proof.
  apply (proj2 (proj2 (proj2 (failed_requests example_last_step true))));
    reflexivity.
Defined.

(* ===================================================================== *)
(** ** The in-memory cache of the wizard *)
(* ===================================================================== *)

Lemma setFieldsValue_reset (v : FormValues) : setFieldsValue v resetFields = v.
Proof.
  destruct v as [st i r n c]. unfold setFieldsValue, resetFields.
  cbn [form_step_type form_inputs form_result form_notes form_confidence].
  by destruct st, i, r, n, c.
Qed.

Lemma enterStep_plain
    (t : CalibrationStepType) (changed : bool)
    (s : StepContentState) (v : FormValues) :
  plain_step t -> (enterStep changed t (s, v)).2 = v.
Proof.
  intros [Hf Hv]. unfold enterStep, autoComputeEffect, vfaEffect.
  rewrite Hf. rewrite bool_decide_eq_true_2 by done.
  by destruct changed.
Qed.

Lemma content_events_keep_cache (es : list ContentEvent) (w : Wizard) :
  currentIdx (run_wizard (Content <$> es) w) = currentIdx w /\
  savedValues (run_wizard (Content <$> es) w) = savedValues w /\
  wopen (run_wizard (Content <$> es) w) = wopen w.
Proof.
  unfold run_wizard. revert w.
  induction es as [|e es IH]; intros w; [done|].
  cbn [fmap list_fmap foldl].
  destruct (IH (wizard_step (Content e) w)) as (-> & -> & ->).
  unfold wizard_step.
  destruct (wopen w) eqn:Ho, (currentStepType w); (split; [|split]); done.
Qed.

(** X17: leaving a step and coming back restores its form. For a step type
    without a formula and other than VFA (temperature, flow rate, cornering,
    input shaping): after a sidebar click on another step, any edits made
    there, and a sidebar click back, the form holds exactly the values it
    held when the step was left, and the calculator state is the initial
    one. *)
Theorem navigation_round_trip
    (w : Wizard) (ti tj : CalibrationStepType) (j : nat)
    (es : list ContentEvent) :
  wopen w = true ->
  currentStepType w = Some ti -> WIZARD_STEP_ORDER !! j = Some tj ->
  ti ≠ tj -> plain_step ti ->
  form (run_wizard (SidebarClick j :: (Content <$> es)
                      ++ [SidebarClick (currentIdx w)]) w) = form w /\
  currentIdx (run_wizard (SidebarClick j :: (Content <$> es)
                            ++ [SidebarClick (currentIdx w)]) w)
  = currentIdx w /\
  content (run_wizard (SidebarClick j :: (Content <$> es)
                         ++ [SidebarClick (currentIdx w)]) w)
  = initialStepContent.
Proof.
  intros Hopen Hti Htj Hne Hplain.
  assert (Hj : j < length WIZARD_STEP_ORDER) by (by apply lookup_lt_Some in Htj).
  assert (Hi : currentIdx w < length WIZARD_STEP_ORDER)
    by (by apply lookup_lt_Some in Hti).
  unfold run_wizard. cbn [foldl]. rewrite foldl_app. cbn [foldl].
  fold (run_wizard (Content <$> es) (wizard_step (SidebarClick j) w)).
  assert (E1 : wizard_step (SidebarClick j) w = navigateTo j w).
  { unfold wizard_step. rewrite Hopen. cbn [negb].
    by rewrite bool_decide_eq_true_2. }
  rewrite E1.
  destruct (navigateTo_next w ti tj j Hti Htj) as (Hidx & Hsaved & Ho).
  destruct (content_events_keep_cache es (navigateTo j w)) as (Hc1 & Hc2 & Hc3).
  set (w2 := run_wizard (Content <$> es) (navigateTo j w)) in *.
  assert (E2 : wizard_step (SidebarClick (currentIdx w)) w2
               = navigateTo (currentIdx w) w2).
  { unfold wizard_step. rewrite Hc3, Ho, Hopen. cbn [negb].
    by rewrite bool_decide_eq_true_2. }
  rewrite E2. unfold navigateTo.
  rewrite Hc1, Hidx, Htj. unfold currentStepType in Hti. rewrite Hti.
  rewrite Hc2, Hsaved. cbn [saved_lookup].
  rewrite lookup_insert_ne by done. rewrite lookup_insert_eq.
  rewrite setFieldsValue_reset.
  rewrite (bool_decide_eq_false_2 (Some tj = Some ti)) by congruence.
  cbn [negb with_nav form currentIdx content].
  split; [by apply enterStep_plain|]. split; [done|].
  reflexivity.
Qed.

Lemma navigation_round_trip_witness :
  form (run_wizard
          (SidebarClick 2
             :: (Content <$> [InputChange "pa_step_a" (INum (Num (decimal 2 3)))])
             ++ [SidebarClick (currentIdx (mount (example_session 1 []) 0))])
          (mount (example_session 1 []) 0))
  = form (mount (example_session 1 []) 0).
Proof.
  apply (proj1 (navigation_round_trip
                  (mount (example_session 1 []) 0)
                  temperature pressure_advance 2
                  [InputChange "pa_step_a" (INum (Num (decimal 2 3)))]
                  eq_refl eq_refl eq_refl
                  ltac:(discriminate)
                  ltac:(split; [reflexivity|discriminate]))).
Defined.

Lemma enterStep_vfa (s : StepContentState) (v : FormValues) :
  (enterStep true vfa (s, v)).1 = initialStepContent /\
  result_lookup (enterStep true vfa (s, v)).2 "min_avoidance_speed"
    = Some JNull /\
  result_lookup (enterStep true vfa (s, v)).2 "max_avoidance_speed"
    = Some JNull /\
  forall k, k ≠ "min_avoidance_speed" -> k ≠ "max_avoidance_speed" ->
            result_lookup (enterStep true vfa (s, v)).2 k = result_lookup v k.
Proof.
  unfold enterStep, resetOnStepType.
  cbn [fst snd initialStepContent artifactSpeeds paMethod].
  change (autoComputeEffect vfa tower v) with v.
  split; [done|].
  destruct (vfaEffect_empty_nulls v) as [Hmin Hmax].
  split; [done|]. split; [done|].
  intros k H1 H2. by apply vfaEffect_other_keys.
Qed.

(** X18: entering the VFA step clears the avoidance speeds. After a sidebar
    click on VFA from another step, and likewise when the wizard opens on
    VFA, the artifact-speed list is empty and [min_avoidance_speed] and
    [max_avoidance_speed] are [null], whatever values the cache or the stored
    step held for them; the other result fields are those of the cache. *)
Theorem entering_vfa_clears_speeds :
  (forall (w : Wizard) (t : CalibrationStepType),
      wopen w = true -> currentStepType w = Some t -> t ≠ vfa ->
      currentStepType (wizard_step (SidebarClick 8) w) = Some vfa /\
      artifactSpeeds (content (wizard_step (SidebarClick 8) w)) = [] /\
      result_lookup (form (wizard_step (SidebarClick 8) w))
                    "min_avoidance_speed" = Some JNull /\
      result_lookup (form (wizard_step (SidebarClick 8) w))
                    "max_avoidance_speed" = Some JNull /\
      forall k, k ≠ "min_avoidance_speed" -> k ≠ "max_avoidance_speed" ->
                result_lookup (form (wizard_step (SidebarClick 8) w)) k
                = savedValues w !! vfa ≫= fun v => result_lookup v k) /\
  (forall (s : ICalibrationSession) (clock : nat),
      currentStepType (mount s clock) = Some vfa ->
      result_lookup (form (mount s clock)) "min_avoidance_speed" = Some JNull /\
      result_lookup (form (mount s clock)) "max_avoidance_speed" = Some JNull).
Proof.
  split.
  - intros w t Hopen Ht Hne.
    unfold wizard_step. rewrite Hopen. cbn [negb].
    rewrite bool_decide_eq_true_2 by (cbn; lia).
    unfold navigateTo, currentStepType in *. rewrite Ht.
    change (WIZARD_STEP_ORDER !! 8) with (Some vfa). cbv beta iota zeta.
    rewrite (bool_decide_eq_false_2 (Some t = Some vfa)) by congruence.
    cbn [negb with_nav currentIdx form content saved_lookup].
    rewrite lookup_insert_ne by done.
    split; [done|].
    match goal with
    | |- context [enterStep true vfa (?s, ?v)] =>
        destruct (enterStep_vfa s v) as (Hc & Hmin & Hmax & Hk)
    end.
    rewrite Hc. split; [done|]. split; [done|]. split; [done|].
    intros k H1 H2. rewrite (Hk k H1 H2).
    destruct (savedValues w !! vfa) as [v|]; cbn [mbind option_bind];
      [by rewrite setFieldsValue_reset|done].
  - intros s clock Hcur. unfold currentStepType in Hcur.
    rewrite mount_currentIdx in Hcur.
    unfold mount. cbv zeta. cbn [form]. rewrite Hcur.
    match goal with
    | |- context [enterStep true vfa (?s, ?v)] =>
        destruct (enterStep_vfa s v) as (_ & Hmin & Hmax & _)
    end.
    done.
Qed.

Lemma entering_vfa_clears_speeds_witness :
  currentStepType (wizard_step (SidebarClick 8) (mount (example_session 1 []) 0))
    = Some vfa /\
  artifactSpeeds (content (wizard_step (SidebarClick 8)
                             (mount (example_session 1 []) 0))) = [] /\
  result_lookup (form (wizard_step (SidebarClick 8)
                         (mount (example_session 1 []) 0)))
                "min_avoidance_speed" = Some JNull /\
  result_lookup (form (wizard_step (SidebarClick 8)
                         (mount (example_session 1 []) 0)))
                "max_avoidance_speed" = Some JNull /\
  forall k, k ≠ "min_avoidance_speed" -> k ≠ "max_avoidance_speed" ->
            result_lookup (form (wizard_step (SidebarClick 8)
                                   (mount (example_session 1 []) 0))) k
            = savedValues (mount (example_session 1 []) 0) !! vfa
              ≫= fun v => result_lookup v k.
Proof.
  apply (proj1 entering_vfa_clears_speeds (mount (example_session 1 []) 0)
           temperature eq_refl eq_refl).
  discriminate.
Defined.

Lemma session_savedValues_from
    (t : CalibrationStepType) (l : list ICalibrationStepResult)
    (acc : gmap CalibrationStepType FormValues) :
  foldl (fun a step => <[step_type step := savedValues_of_step step]> a) acc l
    !! t
  = match last_of_type t l with
    | Some step => Some (savedValues_of_step step)
    | None => acc !! t
    end.
Proof.
  unfold last_of_type. revert acc.
  induction l as [|x l IH]; intros acc; [done|].
  cbn [foldl]. rewrite IH, reverse_cons, find_app_first.
  destruct (find _ (reverse l)); [done|]. cbn [find].
  case_bool_decide as Hx.
  - subst t. apply lookup_insert_eq.
  - by rewrite lookup_insert_ne.
Qed.

(** X19: on open the cache holds, for each step type, the values of the
    last step of that type in the session's list (a later step of the same
    type replaces an earlier one), and it has an entry exactly for the types
    of the done-set. *)
Theorem cache_holds_last_step_of_type
    (s : ICalibrationSession) (clock : nat) (t : CalibrationStepType) :
  savedValues (mount s clock) !! t
    = savedValues_of_step <$> last_of_type t (steps s) /\
  (is_Some (savedValues (mount s clock) !! t) <-> t ∈ doneTypes (mount s clock)).
Proof.
  assert (E : savedValues (mount s clock) !! t
              = savedValues_of_step <$> last_of_type t (steps s)).
  { change (savedValues (mount s clock)) with (session_savedValues s).
    unfold session_savedValues. rewrite session_savedValues_from.
    by destruct (last_of_type t (steps s)). }
  split; [done|]. rewrite E, mount_doneTypes, session_doneTypes_spec.
  unfold last_of_type, has_step_of_type. split.
  - intros [v Hv]. destruct (find _ (reverse (steps s))) as [step|] eqn:F;
      [|done].
    apply find_some in F as [Hin Ht]. apply list_elem_of_In in Hin.
    rewrite elem_of_reverse in Hin. apply bool_decide_eq_true in Ht.
    by exists step.
  - intros (step & Hin & Ht).
    destruct (find (fun st => bool_decide (step_type st = t))
                   (reverse (steps s))) as [st|] eqn:F; [by eexists|].
    exfalso. apply elem_of_reverse, list_elem_of_In in Hin.
    pose proof (find_none _ _ F _ Hin) as Hn. cbn beta in Hn.
    apply bool_decide_eq_false in Hn. done.
Qed.

(* ===================================================================== *)
(** ** The method the drawer infers for a stored step *)
(* ===================================================================== *)

Lemma pressure_advance_not_last (w : Wizard) :
  currentStepType w = Some pressure_advance -> isLast w = false.
Proof.
  unfold currentStepType, isLast. intros H.
  apply bool_decide_eq_false. intros E. rewrite E in H. discriminate.
Qed.

(** X20: the drawer opens every stored step on the method "tower". The
    method inferred from the stored inputs does not last, because the reset
    that follows the arrival of the step type sets the method back. A
    pressure-advance step stored without tower inputs, for which "pattern"
    is inferred, is therefore shown with the method "tower", its values
    unchanged. A pressure-advance step saved from the wizard while both
    tower inputs are in the form, whichever method was selected and whatever
    result was typed, gets its [pressure_advance] replaced in the drawer by
    the tower formula of the stored inputs. *)
Theorem drawer_opens_on_tower :
  (forall step, paMethod (drawer_open step).1 = tower) /\
  (forall step,
      step_type step = pressure_advance ->
      (forall i, inputs step = Some i ->
                 i !! "pa_step_a" = None /\ i !! "measured_height_b" = None) ->
      drawer_inferred_paMethod step = pattern /\
      (drawer_open step).2 = drawer_initial_values step) /\
  (forall (w : Wizard) (i : gmap string inval) (a b : Q) (updated : bool),
      wopen w = true ->
      currentStepType w = Some pressure_advance ->
      form_inputs (form w) = Some i ->
      i !! "pa_step_a" = Some (INum (Num a)) ->
      i !! "measured_height_b" = Some (INum (Num b)) ->
      exists step v,
        last (stored_steps (wizard_step (SaveAndContinue true updated) w))
          = Some step /\
        outputs step = form_result (form w) /\
        v = parseFloat (toFixed (jmul (Num a) (Num b)) 4) /\
        result_lookup (drawer_open step).2 "pressure_advance"
          = Some (JNum v) /\
        (forall A B : Q,
            control_value 4 (inject_Z 1000) A a ->
            control_value 1 (inject_Z (10 ^ 6)) B b ->
            rounds_to 4 (A * B)%Q v)).
Proof.
  split; [done|]. split.
  - intros step Ht Hi. split.
    + unfold drawer_inferred_paMethod.
      rewrite bool_decide_eq_true_2 by done.
      destruct (inputs step) as [i|]; [|done].
      destruct (Hi i eq_refl) as [-> ->]. done.
    + unfold drawer_open, enterStep, resetOnStepType, autoComputeEffect,
        vfaEffect.
      rewrite Ht.
      cbn [STEP_CONFIGS autoCompute drawer_initial_values form_inputs
           initialStepContent paMethod artifactSpeeds snd].
      rewrite (bool_decide_eq_false_2 (tower = pattern)) by done.
      rewrite andb_false_r.
      assert (E : pressure_advance_autoCompute (default ∅ (inputs step)) = ∅).
      { unfold pressure_advance_autoCompute.
        destruct (inputs step) as [i|]; cbn [default from_option];
          unfold Datatypes.id.
        - destruct (Hi i eq_refl) as [-> ->]. done.
        - by rewrite lookup_empty. }
      rewrite E. reflexivity.
  - intros w i a b updated Hopen Ht Hi Ha Hb.
    pose proof (pressure_advance_not_last w Ht) as Hlast.
    destruct (save_and_skip_advance w pressure_advance updated Hopen Ht Hlast)
      as [(_ & Hs & _) _].
    assert (Hfi : pressure_advance_autoCompute i
                  = {[ "pressure_advance"
                       := parseFloat (toFixed (jmul (Num a) (Num b)) 4) ]}).
    { unfold pressure_advance_autoCompute. by rewrite Ha, Hb. }
    eexists _, _. rewrite Hs, last_snoc. split; [reflexivity|].
    split; [reflexivity|]. split; [reflexivity|]. split.
    + unfold drawer_open, enterStep, resetOnStepType, autoComputeEffect,
        vfaEffect.
      cbn [STEP_CONFIGS autoCompute drawer_initial_values form_inputs
           form_result db_newStep inputs selected_values outputs step_type
           saveCurrentStep_values v_inputs v_outputs v_selected_values
           v_step_type initialStepContent paMethod artifactSpeeds snd].
      rewrite Hi. cbn [default from_option]. unfold Datatypes.id.
      rewrite (bool_decide_eq_false_2 (tower = pattern)) by done.
      rewrite andb_false_r, Hfi, map_size_singleton.
      cbn [Nat.ltb Nat.leb].
      rewrite (bool_decide_eq_true_2 (pressure_advance ≠ vfa)) by done.
      unfold result_lookup.
      cbn [setFieldValue_result form_result mbind option_bind].
      rewrite lookup_union, lookup_fmap, lookup_singleton_eq.
      cbn [fmap option_fmap option_map].
      by destruct (_ !! "pressure_advance").
    + intros A B Ca Cb. by apply pressure_advance_control.
Qed.

Lemma drawer_opens_on_tower_witness :
  exists step v,
    last (stored_steps (wizard_step (SaveAndContinue true true)
                          example_pattern_wizard)) = Some step /\
    outputs step = form_result (form example_pattern_wizard) /\
    v = parseFloat (toFixed (jmul (Num (decimal 2 3)) (Num 10)) 4) /\
    result_lookup (drawer_open step).2 "pressure_advance" = Some (JNum v) /\
    (forall A B : Q,
        control_value 4 (inject_Z 1000) A (decimal 2 3) ->
        control_value 1 (inject_Z (10 ^ 6)) B 10%Q ->
        rounds_to 4 (A * B)%Q v).
Proof.
  apply (proj2 (proj2 drawer_opens_on_tower) example_pattern_wizard
           (<["pa_step_a" := INum (Num (decimal 2 3))]>
              (<["measured_height_b" := INum (Num 10)]> ∅))
           (decimal 2 3) 10%Q true);
    vm_compute; reflexivity.
Defined.

(* ===================================================================== *)
(** ** The step list and the summary card *)
(* ===================================================================== *)

(** X21: StepList shows exactly one status tag per step: "Skipped" when the
    outputs carry [_skipped: true], otherwise "Done" when [selected_values]
    is non-empty, otherwise "Incomplete". *)
Theorem step_has_one_tag (step : ICalibrationStepResult) :
  (isSkipped step = true /\ step_tags step = [TagSkipped]) \/
  (isSkipped step = false /\ has_keys (selected_values step) = true /\
   step_tags step = [TagDone]) \/
  (isSkipped step = false /\ has_keys (selected_values step) = false /\
   step_tags step = [TagIncomplete]).
Proof.
  unfold step_tags, isIncomplete, hasRecommended.
  destruct (isSkipped step); [by left|].
  destruct (has_keys (selected_values step)); [right; left|right; right]; done.
Qed.

Lemma has_keys_Some (r : gmap string jsval) : has_keys (Some r) = true <-> r ≠ ∅.
Proof.
  unfold has_keys. rewrite Nat.ltb_lt. split.
  - intros H ->. rewrite map_size_empty in H. lia.
  - intros H. destruct (size r) eqn:E; [|lia].
    by apply map_size_empty_iff in E.
Qed.

(** X22: how a step saved from the wizard is tagged. Saved with no result
    or an empty one it is "Incomplete" (although its type is marked done);
    saved with a non-empty result that does not carry [_skipped: true] it is
    "Done", whatever the values are, [null] included; the record of
    skip-as-not-applicable is "Skipped". *)
Theorem saved_step_tags
    (t : CalibrationStepType) (values : FormValues) (db : Backend) :
  (form_result values = None \/ form_result values = Some ∅ ->
   step_tags (db_newStep t (saveCurrentStep_values t values) db)
   = [TagIncomplete]) /\
  (forall r, form_result values = Some r -> r ≠ ∅ ->
             r !! "_skipped" ≠ Some (JBool true) ->
             step_tags (db_newStep t (saveCurrentStep_values t values) db)
             = [TagDone]) /\
  step_tags (db_newStep t (saveAsSkipped_values t) db) = [TagSkipped].
Proof.
  split; [|split].
  - intros [E|E]; unfold step_tags, isIncomplete, hasRecommended, isSkipped;
      cbn [db_newStep outputs selected_values saveCurrentStep_values
           v_outputs v_selected_values]; rewrite E; [done|].
    rewrite lookup_empty.
    by rewrite bool_decide_eq_false_2.
  - intros r E Hne Hsk.
    unfold step_tags, isIncomplete, hasRecommended, isSkipped.
    cbn [db_newStep outputs selected_values saveCurrentStep_values
         v_outputs v_selected_values]. rewrite E.
    rewrite (bool_decide_eq_false_2 _ Hsk).
    apply has_keys_Some in Hne. by rewrite Hne.
  - by vm_compute.
Qed.

Lemma saved_step_tags_witness :
  step_tags (db_newStep temperature
               (saveCurrentStep_values temperature resetFields)
               {| db_session := example_session 1 []; db_clock := 0 |})
  = [TagIncomplete].
Proof.
  apply (proj1 (saved_step_tags temperature resetFields
                  {| db_session := example_session 1 []; db_clock := 0 |})).
  by left.
Defined.

Lemma most_recent_selected_is_Some
    (t : CalibrationStepType) (sessions : list ICalibrationSession)
    (sess : ICalibrationSession) (step : ICalibrationStepResult) :
  sess ∈ sessions -> step ∈ steps sess -> qualifies t step = true ->
  is_Some (most_recent_selected t sessions).
Proof.
  intros Hs Hin Hq. induction sessions as [|x l IH]; [by apply elem_of_nil in Hs|].
  cbn [most_recent_selected].
  destruct (find (qualifies t) (reverse (steps x))) eqn:F; [by eexists|].
  apply elem_of_cons in Hs as [<-|Hs]; [|by apply IH].
  apply elem_of_reverse, list_elem_of_In in Hin.
  pose proof (find_none _ _ F _ Hin). congruence.
Qed.

(** X23: CalibrationSection's [hasRecommendedData] holds exactly when
    RecommendedSummary's [latestByType] has an entry for some step type: the
    summary is mounted whenever it has an entry, and when it is mounted its
    early return on an empty [latestByType] is not taken. *)
Theorem summary_card_shown_iff_entry (sessions : list ICalibrationSession) :
  hasRecommendedData sessions = true <->
  exists t step, latestByType sessions !! t = Some step.
Proof.
  unfold hasRecommendedData. rewrite existsb_exists. split.
  - intros (sess & Hs & Hex). apply existsb_exists in Hex as (step & Hin & Hk).
    apply list_elem_of_In in Hs, Hin.
    destruct (most_recent_selected_is_Some (step_type step) sessions sess step)
      as [s' Hs']; [done|done| |].
    { unfold qualifies. rewrite Hk. by rewrite bool_decide_eq_true_2. }
    exists (step_type step), s'. by rewrite latestByType_most_recent.
  - intros (t & step & H). rewrite latestByType_most_recent in H.
    apply most_recent_selected_Some in H as (_ & Hk & sess & Hs & Hin).
    exists sess. split; [by apply list_elem_of_In|].
    apply existsb_exists. exists step. split; [by apply list_elem_of_In|done].
Qed.

Lemma omap_all_None {A B} (f : A -> option B) (l : list A) :
  (forall x, x ∈ l -> f x = None) -> omap f l = [].
Proof.
  induction l as [|x l IH]; intros H; [done|]. cbn [omap list_omap].
  rewrite (H x) by apply list_elem_of_here.
  apply IH. intros y Hy. by apply H, list_elem_of_further.
Qed.

(** X24: a newer step hides older values even when it has nothing to show.
    If the newest session has a step of a type with a non-empty
    [selected_values], and none of its steps of that type with a non-empty
    [selected_values] holds a non-null value under a recommended key, then
    the summary renders no tile for the type, whatever the older sessions
    hold. *)
Theorem newest_step_without_values_hides_tile
    (newer : ICalibrationSession) (older : list ICalibrationSession)
    (t : CalibrationStepType) (step : ICalibrationStepResult) :
  step ∈ steps newer -> qualifies t step = true ->
  (forall s' k, s' ∈ steps newer -> qualifies t s' = true ->
                k ∈ recommendedKeys (STEP_CONFIGS t) ->
                selected_values s' ≫= (.!! k) = None \/
                selected_values s' ≫= (.!! k) = Some JNull) ->
  summary_tile (newer :: older) t = None.
Proof.
  intros Hin Hq Hnone. unfold summary_tile. rewrite latestByType_cons.
  apply elem_of_reverse in Hin.
  destruct (find_qualifies_is_Some t _ _ Hin Hq) as (s' & E). rewrite E.
  apply find_some in E as [Hin' Hq']. apply list_elem_of_In in Hin'.
  rewrite elem_of_reverse in Hin'.
  unfold recommended_vals. rewrite omap_all_None; [done|].
  intros k Hk. by destruct (Hnone s' k Hin' Hq' Hk) as [-> | ->].
Qed.

Lemma newest_step_without_values_hides_tile_witness :
  summary_tile
    (example_session 2
       [example_step 4 input_shaping (Some SKIPPED) (Some SKIPPED)]
     :: [example_older]) input_shaping = None.
Proof.
  apply (newest_step_without_values_hides_tile
           (example_session 2
              [example_step 4 input_shaping (Some SKIPPED) (Some SKIPPED)])
           [example_older] input_shaping
           (example_step 4 input_shaping (Some SKIPPED) (Some SKIPPED))).
  - apply list_elem_of_here.
  - by vm_compute.
  - intros s' k Hs' _ Hk. apply list_elem_of_singleton in Hs' as ->.
    cbn [STEP_CONFIGS recommendedKeys] in Hk.
    repeat (apply elem_of_cons in Hk as [->|Hk]);
      try (by apply elem_of_nil in Hk); left; by vm_compute.
Defined.

(* ===================================================================== *)
(** ** The delete button *)
(* ===================================================================== *)

Lemma confirmDelete_run_snoc
    (l : list ConfirmDeleteEvent) (e : ConfirmDeleteEvent)
    (s : ConfirmDeleteState) :
  confirmDelete_run (l ++ [e])%list s
  = let '(s', fired) := confirmDelete_step e (confirmDelete_run l s).1 in
    (s', if fired then S (confirmDelete_run l s).2
         else (confirmDelete_run l s).2).
Proof. unfold confirmDelete_run. by rewrite foldl_app. Qed.

Lemma clicks_snoc (l : list ConfirmDeleteEvent) (e : ConfirmDeleteEvent) :
  clicks (l ++ [e])%list
  = (clicks l + (if decide (e = ButtonClick) then 1 else 0))%nat.
Proof.
  unfold clicks. rewrite filter_app, length_app. f_equal.
  rewrite filter_cons, filter_nil. by destruct (decide (e = ButtonClick)).
Qed.

(** X25: ConfirmDeleteButton never deletes on a single click. Over any
    sequence of clicks and timer expiries from the initial state, the timer
    is pending exactly while the button is armed, and every [onConfirm] call
    has used up two clicks of its own: twice the number of calls, plus one
    if the button is armed, is at most the number of clicks. *)
Theorem confirm_delete_needs_two_clicks (l : list ConfirmDeleteEvent) :
  timer_pending (confirmDelete_run l confirmDelete_initial).1
  = confirming (confirmDelete_run l confirmDelete_initial).1 /\
  (2 * (confirmDelete_run l confirmDelete_initial).2
   + (if confirming (confirmDelete_run l confirmDelete_initial).1
      then 1 else 0)
   <= clicks l)%nat.
Proof.
  induction l as [|e l IH] using rev_ind; [by vm_compute|].
  rewrite confirmDelete_run_snoc, clicks_snoc.
  destruct (confirmDelete_run l confirmDelete_initial) as [[c p] n].
  cbn [fst snd confirming timer_pending] in IH |- *.
  destruct IH as [-> IH].
  destruct e, c; cbn [confirmDelete_step negb confirming timer_pending fst snd];
    cbn [fst snd confirming timer_pending];
    (split; [done|]); try rewrite decide_True by done;
    try rewrite decide_False by done; lia.
Qed.
